(** * Psychro Chart Studio: curve generation, level of detail and
      coordinate mapping

    A shallow embedding of [src/lib/psychrometrics] (the curve generators
    and [computePsychrometrics]) and of the level-of-detail and
    scale/zoom logic of [src/components/psychro-chart.tsx].

    Numbers.  A TypeScript [number] is an IEEE-754 double.  Two models are
    used, each where it is the faithful one:

    - [JsNum.num]: the extended rationals.  [NaN], [+Infinity] and
      [-Infinity] behave as in JavaScript; a finite value is an exact
      rational kept in lowest terms, so arithmetic on finite values is
      exact (rounding, overflow and the sign of zero are not represented).
      The curve generators and the coordinate transform use it: what is
      proved about them concerns control flow, special values, order and
      algebra.  In particular a loop variable advanced by [t += step]
      takes here the values of exact addition, where the doubles of the
      source accumulate the rounding of every addition: the number of
      samples a walk takes can differ by one at its upper bound, and a
      double can absorb a small step altogether.  No general statement
      about the generators depends on how many samples a walk takes, or
      says that a walk with a positive step ends; the runs on concrete
      inputs use steps that doubles add exactly.
    - primitive binary64 floats, for the level-of-detail selector, whose
      level lists are built by accumulating [0.1], [0.04] and [0.02] in
      loops whose trip count depends on the rounding of every addition. *)

From Stdlib Require Import ZArith QArith Qround Qabs Lqa Lia List Bool String.
From Stdlib Require Import Sorted Floats Ascii DecimalString DecimalNat.
Import ListNotations.

Set Implicit Arguments.
Set Warnings "-inexact-float".

Arguments Qred : simpl never.

(* ================================================================== *)
(** ** JavaScript numbers, idealised *)

Module JsNum.

Inductive num : Type :=
| NaN
| PInf
| NInf
| Fin (q : Q).

Declare Scope num_scope.
Delimit Scope num_scope with num.
Bind Scope num_scope with num.

Definition ofZ (z : Z) : num := Fin (inject_Z z).

(** Sign of a value, as [-1], [0] or [1]; [NaN] has none. *)
Definition sgn (a : num) : option Z :=
  match a with
  | NaN => None
  | PInf => Some 1%Z
  | NInf => Some (-1)%Z
  | Fin q => Some (Z.sgn (Qnum q))
  end.

Definition inf_of_sign (s : Z) : num :=
  match s with
  | Z0 => NaN
  | Zpos _ => PInf
  | Zneg _ => NInf
  end.

Definition opp (a : num) : num :=
  match a with
  | NaN => NaN
  | PInf => NInf
  | NInf => PInf
  | Fin q => Fin (Qred (- q))
  end.

Definition add (a b : num) : num :=
  match a, b with
  | NaN, _ | _, NaN => NaN
  | PInf, NInf | NInf, PInf => NaN
  | PInf, _ | _, PInf => PInf
  | NInf, _ | _, NInf => NInf
  | Fin x, Fin y => Fin (Qred (x + y))
  end.

Definition sub (a b : num) : num := add a (opp b).

Definition mul (a b : num) : num :=
  match a, b with
  | Fin x, Fin y => Fin (Qred (x * y))
  | _, _ =>
      match sgn a, sgn b with
      | Some s, Some t => inf_of_sign (s * t)
      | _, _ => NaN
      end
  end.

(** Division.  A finite zero stands for [+0]: [x / 0] is [+Infinity] for
    positive [x], [-Infinity] for negative [x] and [NaN] for [0 / 0]. *)
Definition div (a b : num) : num :=
  match a, b with
  | NaN, _ | _, NaN => NaN
  | Fin x, Fin y =>
      if Qeq_bool y 0 then inf_of_sign (Z.sgn (Qnum x))
      else Fin (Qred (x / y))
  | Fin _, _ => Fin 0
  | _, Fin y =>
      match sgn a with
      | Some s => inf_of_sign (if (Qnum y <? 0)%Z then - s else s)
      | None => NaN
      end
  | _, _ => NaN
  end.

(** [a <= b] and [a < b]: false as soon as an operand is [NaN]. *)
Definition leb (a b : num) : bool :=
  match a, b with
  | NaN, _ | _, NaN => false
  | NInf, _ => true
  | _, PInf => true
  | PInf, _ => false
  | _, NInf => false
  | Fin x, Fin y => Qle_bool x y
  end.

Definition ltb (a b : num) : bool :=
  match a, b with
  | NaN, _ | _, NaN => false
  | PInf, _ => false
  | _, NInf => false
  | NInf, _ => true
  | _, PInf => true
  | Fin x, Fin y => negb (Qle_bool y x)
  end.

Definition geb (a b : num) : bool := leb b a.
Definition gtb (a b : num) : bool := ltb b a.

(** [Number.isFinite] *)
Definition isFinite (a : num) : bool :=
  match a with
  | Fin _ => true
  | _ => false
  end.

Definition isNaN (a : num) : bool :=
  match a with
  | NaN => true
  | _ => false
  end.

(** [Math.max] and [Math.min] of two arguments: [NaN] if either is. *)
Definition Math_max (a b : num) : num :=
  match a, b with
  | NaN, _ | _, NaN => NaN
  | _, _ => if leb a b then b else a
  end.

Definition Math_min (a b : num) : num :=
  match a, b with
  | NaN, _ | _, NaN => NaN
  | _, _ => if leb a b then a else b
  end.

Definition Math_abs (a : num) : num :=
  match a with
  | NaN => NaN
  | PInf | NInf => PInf
  | Fin q => Fin (Qred (Qabs q))
  end.

(** [Math.round]: the nearest integer, halves towards [+Infinity]. *)
Definition Math_round (a : num) : num :=
  match a with
  | Fin q => Fin (inject_Z (Qfloor (q + (1 # 2))))
  | _ => a
  end.

(** Numerical equality of two values ([NaN] equals nothing); finite values
    are compared as rationals. *)
Definition eqv (a b : num) : Prop :=
  match a, b with
  | PInf, PInf | NInf, NInf => True
  | Fin x, Fin y => x == y
  | _, _ => False
  end.

Infix "+" := add : num_scope.
Infix "-" := sub : num_scope.
Infix "*" := mul : num_scope.
Infix "/" := div : num_scope.
Infix "<=?" := leb : num_scope.
Infix "<?" := ltb : num_scope.
Infix ">=?" := geb (at level 70) : num_scope.
Infix ">?" := gtb (at level 70) : num_scope.

End JsNum.
Import JsNum.
Open Scope num_scope.

(* ================================================================== *)
(** ** [src/lib/psychrometrics]: data model *)

Module Psychrometrics.

Inductive UnitSystem : Type := si | ip.

Record PsychroInputs : Type := mkInputs {
  in_pressure : num;
  in_dryBulb : num;
  in_relativeHumidity : num  (* percentage 0-100 *)
}.

Record PsychroState : Type := mkState {
  st_dryBulb : num;
  st_wetBulb : num;
  st_dewPoint : num;
  st_relativeHumidity : num;
  st_humidityRatio : num;
  st_enthalpy : num;
  st_specificVolume : num;
  st_density : num;
  st_vaporPressure : num;
  st_saturationHumidityRatio : num
}.

Record PsychroHumRatioInputs : Type := mkHumRatioInputs {
  hin_dryBulb : num;
  hin_humidityRatio : num;
  hin_pressure : num
}.

Record ChartExtents : Type := mkExtents {
  ext_dryBulb : num * num;
  ext_humidityRatio : num * num;
  ext_enthalpy : num * num
}.

Record CurvePoint : Type := mkPoint {
  dryBulb : num;
  humidityRatio : num;
  enthalpy : num
}.

(** A template string is kept as its fragments: the literal pieces and the
    interpolated numbers ([toFixed] with its digit count). *)
Inductive Frag : Type :=
| Lit (s : string)
| Num (n : num)
| Fixed (digits : nat) (n : num).

Record Curve : Type := mkCurve {
  id : list Frag;
  label : list Frag;
  level : num;
  points : list CurvePoint
}.

Record SaturationCurve : Type := mkSaturationCurve {
  sat_id : list Frag;
  sat_label : list Frag;
  sat_points : list CurvePoint
}.

Definition dec (n : Z) (d : positive) : num := Fin (Qred (n # d)).

Definition DEFAULT_INPUTS (system : UnitSystem) : PsychroInputs :=
  match system with
  | si => mkInputs (ofZ 101325) (ofZ 26) (ofZ 50)
  | ip => mkInputs (dec 14696 1000) (dec 788 10) (ofZ 50)
  end.

Definition DEFAULT_EXTENTS (system : UnitSystem) : ChartExtents :=
  match system with
  | si => mkExtents (ofZ (-20), ofZ 60) (ofZ 0, dec 35 1000) (ofZ (-20), ofZ 120)
  | ip => mkExtents (ofZ (-4), ofZ 140) (ofZ 0, dec 3 100) (ofZ (-10), ofZ 55)
  end.

Definition clamp (value min max : num) : num :=
  Math_min (Math_max value min) max.

Definition getChartExtents (system : UnitSystem) : ChartExtents :=
  DEFAULT_EXTENTS system.

Definition humidityRatioToDisplay (system : UnitSystem) (humidityRatio : num) : num :=
  match system with
  | si => humidityRatio * ofZ 1000
  | ip => humidityRatio * ofZ 7000
  end.

Definition humidityRatioFromDisplay (system : UnitSystem) (humidityRatio : num) : num :=
  match system with
  | si => humidityRatio / ofZ 1000
  | ip => humidityRatio / ofZ 7000
  end.

(* ------------------------------------------------------------------ *)
(** ** The property solver and the effects of calling it

    [psychrolib] is an external package: its functions are parameters.
    Each depends on the library's global unit mode and either returns a
    number (possibly non-finite) or throws ([None]). *)

Inductive SolverFn : Type :=
| FnGetHumRatioFromRelHum
| FnGetTWetBulbFromHumRatio
| FnGetTDewPointFromHumRatio
| FnGetMoistAirEnthalpy
| FnGetMoistAirVolume
| FnGetMoistAirDensity
| FnGetVapPresFromHumRatio
| FnGetSatHumRatio
| FnGetRelHumFromHumRatio
| FnGetTDryBulbFromEnthalpyAndHumRatio
| FnGetHumRatioFromTWetBulb.

Record Psychrolib : Type := mkPsychrolib {
  lib_GetHumRatioFromRelHum : UnitSystem -> num -> num -> num -> option num;
  lib_GetTWetBulbFromHumRatio : UnitSystem -> num -> num -> num -> option num;
  lib_GetTDewPointFromHumRatio : UnitSystem -> num -> num -> num -> option num;
  lib_GetMoistAirEnthalpy : UnitSystem -> num -> num -> option num;
  lib_GetMoistAirVolume : UnitSystem -> num -> num -> num -> option num;
  lib_GetMoistAirDensity : UnitSystem -> num -> num -> num -> option num;
  lib_GetVapPresFromHumRatio : UnitSystem -> num -> num -> option num;
  lib_GetSatHumRatio : UnitSystem -> num -> num -> option num;
  lib_GetRelHumFromHumRatio : UnitSystem -> num -> num -> num -> option num;
  lib_GetTDryBulbFromEnthalpyAndHumRatio : UnitSystem -> num -> num -> option num;
  lib_GetHumRatioFromTWetBulb : UnitSystem -> num -> num -> num -> option num
}.

(** One invocation of the solver: which function, on which arguments. *)
Record Call : Type := mkCall {
  call_fn : SolverFn;
  call_args : list num
}.

(** What a computation can see and change besides its result: the
    library's unit mode ([SetUnitSystem]) and the solver calls made so
    far, most recent first. *)
Record World : Type := mkWorld {
  units : option UnitSystem;
  calls : list Call
}.

Definition initialWorld : World := mkWorld None [].

Inductive Outcome (A : Type) : Type :=
| Ret (a : A)
| Throw
| Diverge.

Arguments Ret {A} a.
Arguments Throw {A}.
Arguments Diverge {A}.

Definition M (A : Type) : Type := World -> Outcome A * World.

Definition ret {A} (a : A) : M A := fun w => (Ret a, w).

Definition bind {A B} (m : M A) (k : A -> M B) : M B :=
  fun w =>
    match m w with
    | (Ret a, w') => k a w'
    | (Throw, w') => (Throw, w')
    | (Diverge, w') => (Diverge, w')
    end.

Definition throw {A} : M A := fun w => (Throw, w).
Definition diverge {A} : M A := fun w => (Diverge, w).

(** [try { m } catch { handler }] *)
Definition tryCatch {A} (m handler : M A) : M A :=
  fun w =>
    match m w with
    | (Throw, w') => handler w'
    | r => r
    end.

Notation "x <- c ;; k" := (bind c (fun x => k))
  (at level 61, c at next level, right associativity).

Definition SetUnitSystem (system : UnitSystem) : M unit :=
  fun w => (Ret tt, mkWorld (Some system) (calls w)).

Definition withUnitSystem {T} (system : UnitSystem) (callback : M T) : M T :=
  _ <- SetUnitSystem system ;; callback.

(** A solver call records itself, then throws when no unit mode is set or
    when the function does. *)
Definition invoke (fn : SolverFn) (args : list num)
    (f : UnitSystem -> option num) : M num :=
  fun w =>
    let w' := mkWorld (units w) (mkCall fn args :: calls w) in
    match units w with
    | None => (Throw, w')
    | Some u =>
        match f u with
        | Some r => (Ret r, w')
        | None => (Throw, w')
        end
    end.

(** [for (let t = init; cond(t); t = update(t)) body], threading the
    variables the body assigns as [s].  The loop may not terminate, so it
    takes fuel and answers [Diverge] when the fuel runs out.  The update
    is the caller's: the generators pass [t + step] on [num], exact where
    the source rounds to a double. *)
Fixpoint forLoop {S} (fuel : nat) (cond : num -> bool) (update : num -> num)
    (body : num -> S -> M S) (t : num) (s : S) : M S :=
  match fuel with
  | O => diverge
  | Datatypes.S fuel' =>
      if cond t then
        s' <- body t s ;; forLoop fuel' cond update body (update t) s'
      else ret s
  end.

(** [xs.map(f)] with an effectful callback. *)
Fixpoint mapM {A B} (f : A -> M B) (xs : list A) : M (list B) :=
  match xs with
  | [] => ret []
  | x :: xs' => y <- f x ;; ys <- mapM f xs' ;; ret (y :: ys)
  end.

(** A default parameter value: used when the argument is omitted. *)
Definition orDefault {A} (arg : option A) (d : A) : A :=
  match arg with
  | Some a => a
  | None => d
  end.

(* ------------------------------------------------------------------ *)
(** ** [src/lib/psychrometrics]: operations *)

Section WithSolver.

Variable psychrolib : Psychrolib.

Definition GetHumRatioFromRelHum (t rh p : num) : M num :=
  invoke FnGetHumRatioFromRelHum [t; rh; p]
    (fun u => lib_GetHumRatioFromRelHum psychrolib u t rh p).
Definition GetTWetBulbFromHumRatio (t w p : num) : M num :=
  invoke FnGetTWetBulbFromHumRatio [t; w; p]
    (fun u => lib_GetTWetBulbFromHumRatio psychrolib u t w p).
Definition GetTDewPointFromHumRatio (t w p : num) : M num :=
  invoke FnGetTDewPointFromHumRatio [t; w; p]
    (fun u => lib_GetTDewPointFromHumRatio psychrolib u t w p).
Definition GetMoistAirEnthalpy (t w : num) : M num :=
  invoke FnGetMoistAirEnthalpy [t; w]
    (fun u => lib_GetMoistAirEnthalpy psychrolib u t w).
Definition GetMoistAirVolume (t w p : num) : M num :=
  invoke FnGetMoistAirVolume [t; w; p]
    (fun u => lib_GetMoistAirVolume psychrolib u t w p).
Definition GetMoistAirDensity (t w p : num) : M num :=
  invoke FnGetMoistAirDensity [t; w; p]
    (fun u => lib_GetMoistAirDensity psychrolib u t w p).
Definition GetVapPresFromHumRatio (w p : num) : M num :=
  invoke FnGetVapPresFromHumRatio [w; p]
    (fun u => lib_GetVapPresFromHumRatio psychrolib u w p).
Definition GetSatHumRatio (t p : num) : M num :=
  invoke FnGetSatHumRatio [t; p]
    (fun u => lib_GetSatHumRatio psychrolib u t p).
Definition GetRelHumFromHumRatio (t w p : num) : M num :=
  invoke FnGetRelHumFromHumRatio [t; w; p]
    (fun u => lib_GetRelHumFromHumRatio psychrolib u t w p).
Definition GetTDryBulbFromEnthalpyAndHumRatio (h w : num) : M num :=
  invoke FnGetTDryBulbFromEnthalpyAndHumRatio [h; w]
    (fun u => lib_GetTDryBulbFromEnthalpyAndHumRatio psychrolib u h w).
Definition GetHumRatioFromTWetBulb (t twb p : num) : M num :=
  invoke FnGetHumRatioFromTWetBulb [t; twb; p]
    (fun u => lib_GetHumRatioFromTWetBulb psychrolib u t twb p).

(** [computePsychrometrics]: [null] is [None]. *)
Definition computePsychrometrics (inputs : PsychroInputs) (system : UnitSystem)
    : M (option PsychroState) :=
  let dryBulb := in_dryBulb inputs in
  let pressure := in_pressure inputs in
  let relativeHumidityFraction :=
    clamp (in_relativeHumidity inputs / ofZ 100) (ofZ 0) (ofZ 1) in
  withUnitSystem system
    (tryCatch
       (humidityRatio <- GetHumRatioFromRelHum dryBulb relativeHumidityFraction pressure ;;
        wetBulb <- GetTWetBulbFromHumRatio dryBulb humidityRatio pressure ;;
        dewPoint <- GetTDewPointFromHumRatio dryBulb humidityRatio pressure ;;
        enthalpy <- GetMoistAirEnthalpy dryBulb humidityRatio ;;
        specificVolume <- GetMoistAirVolume dryBulb humidityRatio pressure ;;
        density <- GetMoistAirDensity dryBulb humidityRatio pressure ;;
        vaporPressure <- GetVapPresFromHumRatio humidityRatio pressure ;;
        saturationHumidityRatio <- GetSatHumRatio dryBulb pressure ;;
        ret (Some {| st_dryBulb := dryBulb;
                     st_wetBulb := wetBulb;
                     st_dewPoint := dewPoint;
                     st_relativeHumidity := relativeHumidityFraction * ofZ 100;
                     st_humidityRatio := humidityRatio;
                     st_enthalpy := enthalpy;
                     st_specificVolume := specificVolume;
                     st_density := density;
                     st_vaporPressure := vaporPressure;
                     st_saturationHumidityRatio := saturationHumidityRatio |}))
       (ret None)).

(** [computePsychrometricsFromHumRatio]: the state at a dry bulb and a
    humidity ratio, as the chart resolves a click; [null] is [None]. *)
Definition computePsychrometricsFromHumRatio (inputs : PsychroHumRatioInputs)
    (system : UnitSystem) : M (option PsychroState) :=
  let dryBulb := hin_dryBulb inputs in
  let humidityRatio := hin_humidityRatio inputs in
  let pressure := hin_pressure inputs in
  withUnitSystem system
    (tryCatch
       (relHum <- GetRelHumFromHumRatio dryBulb humidityRatio pressure ;;
        let relativeHumidity := relHum * ofZ 100 in
        wetBulb <- GetTWetBulbFromHumRatio dryBulb humidityRatio pressure ;;
        dewPoint <- GetTDewPointFromHumRatio dryBulb humidityRatio pressure ;;
        enthalpy <- GetMoistAirEnthalpy dryBulb humidityRatio ;;
        specificVolume <- GetMoistAirVolume dryBulb humidityRatio pressure ;;
        density <- GetMoistAirDensity dryBulb humidityRatio pressure ;;
        vaporPressure <- GetVapPresFromHumRatio humidityRatio pressure ;;
        saturationHumidityRatio <- GetSatHumRatio dryBulb pressure ;;
        ret (Some {| st_dryBulb := dryBulb;
                     st_wetBulb := wetBulb;
                     st_dewPoint := dewPoint;
                     st_relativeHumidity := relativeHumidity;
                     st_humidityRatio := humidityRatio;
                     st_enthalpy := enthalpy;
                     st_specificVolume := specificVolume;
                     st_density := density;
                     st_vaporPressure := vaporPressure;
                     st_saturationHumidityRatio := saturationHumidityRatio |}))
       (ret None)).

(** One sample of a relative-humidity curve: the body of the [for]. *)
Definition relativeHumiditySample (pressure level t : num)
    (points : list CurvePoint) : M (list CurvePoint) :=
  tryCatch
    (humidityRatio <- GetHumRatioFromRelHum t level pressure ;;
     enthalpy <- GetMoistAirEnthalpy t humidityRatio ;;
     ret (points ++ [mkPoint t humidityRatio enthalpy]))
    (* skip invalid combinations near saturation limits *)
    (ret points).

(** The callback of [levels.map]: the curve of one level. *)
Definition relativeHumidityCurve (fuel : nat) (pressure : num)
    (dryBulbRange : num * num) (step level : num) : M Curve :=
  points <- forLoop fuel (fun t => t <=? snd dryBulbRange) (fun t => t + step)
              (relativeHumiditySample pressure level) (fst dryBulbRange) [] ;;
  ret {| id := [Lit "rh-"; Num (Math_round (level * ofZ 100))];
         label := [Num (Math_round (level * ofZ 100)); Lit "% RH"];
         level := level;
         points := points |}.

Definition defaultRelativeHumidityLevels : list num :=
  [dec 1 10; dec 2 10; dec 3 10; dec 4 10; dec 5 10;
   dec 6 10; dec 7 10; dec 8 10; dec 9 10].

Definition generateRelativeHumidityCurves (fuel : nat) (system : UnitSystem)
    (pressure : num) (dryBulbRange : num * num)
    (levels : option (list num)) (step : option num) : M (list Curve) :=
  let levels := orDefault levels defaultRelativeHumidityLevels in
  let step := orDefault step (match system with si => ofZ 1 | ip => ofZ 2 end) in
  withUnitSystem system
    (mapM (relativeHumidityCurve fuel pressure dryBulbRange step) levels).

(** One sample of an enthalpy line. *)
Definition enthalpySample (dryBulbRange : num * num) (enthalpyTarget humidityRatio : num)
    (points : list CurvePoint) : M (list CurvePoint) :=
  tryCatch
    (dryBulb <- GetTDryBulbFromEnthalpyAndHumRatio enthalpyTarget humidityRatio ;;
     if (dryBulb >=? fst dryBulbRange) && (dryBulb <=? snd dryBulbRange)
     then ret (points ++ [mkPoint dryBulb humidityRatio enthalpyTarget])
     else ret points)
    (* ignore out of domain *)
    (ret points).

(** The callback of [enthalpyValues.map]: the line of one target. *)
Definition enthalpyLine (fuel : nat) (system : UnitSystem)
    (dryBulbRange : num * num) (step enthalpyTarget : num) : M Curve :=
  points <- forLoop fuel (fun humidityRatio => humidityRatio <=? dec 6 100)
              (fun humidityRatio => humidityRatio + step)
              (enthalpySample dryBulbRange enthalpyTarget) (ofZ 0) [] ;;
  ret {| id := [Lit "h-"; Num (Math_round enthalpyTarget)];
         label := [Num (Math_round enthalpyTarget); Lit " ";
                   Lit (match system with si => "kJ/kg" | ip => "Btu/lb" end)];
         level := enthalpyTarget;
         points := points |}.

Definition defaultEnthalpyValues (system : UnitSystem) : list num :=
  match system with
  | si => [ofZ 10; ofZ 20; ofZ 40; ofZ 60; ofZ 80; ofZ 100]
  | ip => [ofZ 10; ofZ 20; ofZ 30; ofZ 40; ofZ 50]
  end.

Definition generateEnthalpyLines (fuel : nat) (system : UnitSystem)
    (pressure : num) (dryBulbRange : num * num)
    (enthalpyValues : option (list num)) (step : option num) : M (list Curve) :=
  let enthalpyValues := orDefault enthalpyValues (defaultEnthalpyValues system) in
  let step := orDefault step (match system with si => dec 5 1000 | ip => dec 5 1000 end) in
  withUnitSystem system
    (mapM (enthalpyLine fuel system dryBulbRange step) enthalpyValues).

(** One sample of a wet-bulb line. *)
Definition wetBulbSample (pressure wetBulbTarget dryBulb : num)
    (points : list CurvePoint) : M (list CurvePoint) :=
  tryCatch
    (humidityRatio <- GetHumRatioFromTWetBulb dryBulb wetBulbTarget pressure ;;
     if negb (isFinite humidityRatio) then ret points (* continue *)
     else
       enthalpy <- GetMoistAirEnthalpy dryBulb humidityRatio ;;
       ret (points ++ [mkPoint dryBulb humidityRatio enthalpy]))
    (ret points).

(** The callback of [wetBulbValues.map]: the line of one target. *)
Definition wetBulbLine (fuel : nat) (pressure : num) (dryBulbRange : num * num)
    (step wetBulbTarget : num) : M Curve :=
  if negb (isFinite wetBulbTarget) then
    ret {| id := [Lit "tw-"; Num wetBulbTarget];
           label := [Num wetBulbTarget];
           level := wetBulbTarget;
           points := [] |}
  else
    let start := Math_max wetBulbTarget (fst dryBulbRange) in
    points <- forLoop fuel (fun dryBulb => dryBulb <=? snd dryBulbRange)
                (fun dryBulb => dryBulb + step)
                (wetBulbSample pressure wetBulbTarget) start [] ;;
    ret {| id := [Lit "tw-"; Num wetBulbTarget];
           label := [Num wetBulbTarget; Lit "Â°"];
           level := wetBulbTarget;
           points := points |}.

(** Generates constant wet-bulb temperature curves.
    Guards against invalid psychrolib responses to avoid propagating NaNs. *)
Definition generateWetBulbLines (fuel : nat) (system : UnitSystem)
    (pressure : num) (dryBulbRange : num * num)
    (wetBulbValues : list num) (step : num) : M (list Curve) :=
  withUnitSystem system
    (mapM (wetBulbLine fuel pressure dryBulbRange step) wetBulbValues).

(** The iteration budget of the specific-volume search. *)
Definition bisectionSteps : nat := 25.

(** The inner [for (let i = 0; i < 25; i += 1)] of the specific-volume
    search, with [n] iterations left; the result is the value of
    [humidityRatio] when the loop is left (by [break] or by exhaustion). *)
Fixpoint bisect (n : nat) (pressure targetVolume tolerance dryBulb : num)
    (low high humidityRatio : num) : M num :=
  match n with
  | O => ret humidityRatio
  | Datatypes.S n' =>
      let mid := (low + high) / ofZ 2 in
      volume <- GetMoistAirVolume dryBulb mid pressure ;;
      if negb (isFinite volume) then ret humidityRatio (* break *)
      else if Math_abs (volume - targetVolume) <=? tolerance then ret mid (* break *)
      else if volume >? targetVolume
      then bisect n' pressure targetVolume tolerance dryBulb low mid mid
      else bisect n' pressure targetVolume tolerance dryBulb mid high mid
  end.

(** One sample of a specific-volume line. *)
Definition specificVolumeSample (pressure targetVolume tolerance dryBulb : num)
    (points : list CurvePoint) : M (list CurvePoint) :=
  tryCatch
    (satHum <- GetSatHumRatio dryBulb pressure ;;
     if negb (isFinite satHum) || (satHum <=? ofZ 0) then ret points (* continue *)
     else
       humidityRatio <- bisect bisectionSteps pressure targetVolume tolerance dryBulb
                          (ofZ 0) satHum satHum ;;
       if (humidityRatio >? ofZ 0) && (humidityRatio <=? satHum) then
         enthalpy <- GetMoistAirEnthalpy dryBulb humidityRatio ;;
         ret (points ++ [mkPoint dryBulb humidityRatio enthalpy])
       else ret points)
    (ret points).

(** The callback of [specificVolumeValues.map]: the line of one target. *)
Definition specificVolumeLine (fuel : nat) (system : UnitSystem) (pressure : num)
    (dryBulbRange : num * num) (dryBulbStep tolerance targetVolume : num) : M Curve :=
  let digits := match system with si => 2%nat | ip => 3%nat end in
  if negb (isFinite targetVolume) || (targetVolume <=? ofZ 0) then
    ret {| id := [Lit "sv-"; Num targetVolume];
           label := [Fixed digits targetVolume];
           level := targetVolume;
           points := [] |}
  else
    points <- forLoop fuel (fun dryBulb => dryBulb <=? snd dryBulbRange)
                (fun dryBulb => dryBulb + dryBulbStep)
                (specificVolumeSample pressure targetVolume tolerance)
                (fst dryBulbRange) [] ;;
    ret {| id := [Lit "sv-"; Num targetVolume];
           label := [Fixed digits targetVolume];
           level := targetVolume;
           points := points |}.

(** Generates constant specific-volume curves using a bounded binary search.
    Returns empty curves when the requested volume is outside the feasible
    domain. *)
Definition generateSpecificVolumeLines (fuel : nat) (system : UnitSystem)
    (pressure : num) (dryBulbRange : num * num)
    (specificVolumeValues : list num) (dryBulbStep : num)
    (tolerance : option num) : M (list Curve) :=
  let tolerance := orDefault tolerance (dec 1 10000) in
  withUnitSystem system
    (mapM (specificVolumeLine fuel system pressure dryBulbRange dryBulbStep tolerance)
       specificVolumeValues).

(** One sample of the saturation curve. *)
Definition saturationSample (pressure t : num)
    (points : list CurvePoint) : M (list CurvePoint) :=
  tryCatch
    (humidityRatio <- GetSatHumRatio t pressure ;;
     enthalpy <- GetMoistAirEnthalpy t humidityRatio ;;
     ret (points ++ [mkPoint t humidityRatio enthalpy]))
    (* ignore *)
    (ret points).

Definition generateSaturationCurve (fuel : nat) (system : UnitSystem)
    (pressure : num) (dryBulbRange : num * num) (step : option num)
    : M SaturationCurve :=
  let step := orDefault step (match system with si => dec 1 2 | ip => ofZ 1 end) in
  withUnitSystem system
    (points <- forLoop fuel (fun t => t <=? snd dryBulbRange) (fun t => t + step)
                 (saturationSample pressure) (fst dryBulbRange) [] ;;
     ret {| sat_id := [Lit "saturation"];
            sat_label := [Lit "100% RH"];
            sat_points := points |}).

End WithSolver.

End Psychrometrics.
Import Psychrometrics.

(* ================================================================== *)
(** ** [src/components/psychro-chart.tsx]: level of detail

    The level lists are computed on binary64 floats, as the component
    computes them. *)

Module Lod.

Local Open Scope float_scope.
Local Notation "x >? y" := (PrimFloat.ltb y x) (at level 70) : float_scope.

(** Equality of [Set] members ([SameValueZero]). *)
Definition sameValueZero (x y : float) : bool :=
  (x =? y) || (is_nan x && is_nan y).

(** A [Set<number>], as its members in insertion order. *)
Definition Set_add (x : float) (set : list float) : list float :=
  if existsb (sameValueZero x) set then set else set ++ [x].

Definition Set_new (items : list float) : list float :=
  fold_left (fun set x => Set_add x set) items [].

(** [array.sort((a, b) => a - b)]: an insertion sort driven by the sign of
    the comparator. *)
Fixpoint sort_insert (x : float) (sorted : list float) : list float :=
  match sorted with
  | [] => [x]
  | y :: rest => if (x - y) <? 0 then x :: sorted else y :: sort_insert x rest
  end.

Definition sort_ascending (items : list float) : list float :=
  fold_left (fun sorted x => sort_insert x sorted) items [].

Definition float_of_Z (z : Z) : float := of_uint63 (Uint63.of_Z z).

(** [Number(x.toFixed(digits))].  For a finite [x = m * 2^e], [toFixed]
    takes the integer [n] nearest to [x * 10^digits] (the larger of two
    equally near), computed here exactly on [m] and [e], and prints
    [n / 10^digits]; [Number] reads that decimal back as the nearest
    double, which is the correctly rounded quotient of the two integers
    (exact for [n] below [2^53]).  Beyond [1e21], and for non-finite
    values, the value is printed and read back unchanged. *)
Definition Number_toFixed (digits : nat) (x : float) : float :=
  match Prim2SF x with
  | S754_finite s m e =>
      let scale := (10 ^ Z.of_nat digits)%Z in
      let scaled := (Zpos m * scale)%Z in
      let n := if (e <? 0)%Z
               then ((2 * scaled + 2 ^ (- e)) / 2 ^ (1 - e))%Z
               else (scaled * 2 ^ e)%Z in
      if (10 ^ 21 * scale <=? n)%Z then x
      else
        let r := float_of_Z n / float_of_Z scale in
        if s then - r else r
  | S754_zero _ => 0
  | _ => x
  end.

(** [for (let v = init; v < bound; v += step) set.add(Number(v.toFixed(2)))];
    [None] when the fuel runs out. *)
Fixpoint addRange (fuel : nat) (v bound step : float) (set : list float)
    : option (list float) :=
  match fuel with
  | O => None
  | S fuel' =>
      if v <? bound
      then addRange fuel' (v + step) bound step (Set_add (Number_toFixed 2 v) set)
      else Some set
  end.

Definition loopFuel : nat := 1000.

Definition relativeHumidityLevels (zoomLevel : float) : option (list float) :=
  let base := [0.1; 0.2; 0.3; 0.4; 0.5; 0.6; 0.7; 0.8; 0.9; 0.98] in
  let set := Some (Set_new base) in
  let set :=
    if zoomLevel >? 1.8
    then match set with Some s => addRange loopFuel 0.05 0.95 0.1 s | None => None end
    else set in
  let set :=
    if zoomLevel >? 3.5
    then match set with Some s => addRange loopFuel 0.02 0.98 0.04 s | None => None end
    else set in
  let set :=
    if zoomLevel >? 5
    then match set with Some s => addRange loopFuel 0.01 0.99 0.02 s | None => None end
    else set in
  option_map sort_ascending set.

Definition humidityCurveStep (unitSystem : UnitSystem) (zoomLevel : float) : float :=
  match unitSystem with
  | si => if zoomLevel >? 5 then 0.15 else if zoomLevel >? 3.5 then 0.3 else 0.5
  | ip => if zoomLevel >? 5 then 0.3 else if zoomLevel >? 3.5 then 0.6 else 1
  end.

(** [base.forEach((val) => set.add(f(val)))] *)
Definition addEach (f : float -> float) (base set : list float) : list float :=
  fold_left (fun set val => Set_add (f val) set) base set.

Definition enthalpyValues (unitSystem : UnitSystem) (zoomLevel : float) : list float :=
  let base :=
    match unitSystem with
    | si => [0; 10; 20; 30; 40; 50; 60; 80; 100; 120]
    | ip => [0; 10; 20; 30; 40; 50]
    end in
  let set := Set_new base in
  let set :=
    if zoomLevel >? 1.8
    then addEach (fun val => val + match unitSystem with si => 5 | ip => 5 end) base set
    else set in
  let set :=
    if zoomLevel >? 3.5
    then addEach (fun val => val + match unitSystem with si => 2.5 | ip => 2.5 end) base set
    else set in
  sort_ascending set.

Definition enthalpyStep (zoomLevel : float) : float :=
  if zoomLevel >? 4 then 0.002 else if zoomLevel >? 2 then 0.004 else 0.006.

Definition wetBulbValues (unitSystem : UnitSystem) (zoomLevel : float) : list float :=
  let base :=
    match unitSystem with
    | si => [-10; -5; 0; 5; 10; 15; 20; 25; 30]
    | ip => [10; 20; 30; 40; 50; 60; 70]
    end in
  let set := Set_new base in
  let set :=
    if zoomLevel >? 1.8
    then addEach (fun v => v + match unitSystem with si => 2.5 | ip => 5 end) base set
    else set in
  let set :=
    if zoomLevel >? 3.5
    then addEach (fun v => v + match unitSystem with si => 1.25 | ip => 2.5 end) base set
    else set in
  sort_ascending set.

Definition wetBulbStep (unitSystem : UnitSystem) (zoomLevel : float) : float :=
  match unitSystem with
  | si => if zoomLevel >? 4 then 0.4 else if zoomLevel >? 2 then 0.6 else 0.8
  | ip => if zoomLevel >? 4 then 0.8 else if zoomLevel >? 2 then 1.2 else 1.6
  end.

Definition specificVolumeValues (unitSystem : UnitSystem) (zoomLevel : float) : list float :=
  let base :=
    match unitSystem with
    | si => [0.75; 0.8; 0.85; 0.9; 0.95; 1.0; 1.05; 1.1]
    | ip => [12.5; 13; 13.5; 14; 14.5; 15]
    end in
  let set := Set_new base in
  let set :=
    if zoomLevel >? 1.8
    then addEach (fun val =>
           Number_toFixed 3 (val + match unitSystem with si => 0.025 | ip => 0.2 end))
           base set
    else set in
  let set :=
    if zoomLevel >? 3.5
    then addEach (fun val =>
           Number_toFixed 3 (val + match unitSystem with si => 0.012 | ip => 0.1 end))
           base set
    else set in
  sort_ascending set.

Definition specificVolumeStep (unitSystem : UnitSystem) (zoomLevel : float) : float :=
  match unitSystem with
  | si => if zoomLevel >? 4 then 0.4 else 0.6
  | ip => if zoomLevel >? 4 then 0.6 else 1
  end.

(** The four families whose levels depend on the zoom. *)
Inductive Family : Type :=
| RelativeHumidity
| Enthalpy
| WetBulb
| SpecificVolume.

Definition levelsOf (family : Family) (unitSystem : UnitSystem) (zoomLevel : float)
    : option (list float) :=
  match family with
  | RelativeHumidity => relativeHumidityLevels zoomLevel
  | Enthalpy => Some (enthalpyValues unitSystem zoomLevel)
  | WetBulb => Some (wetBulbValues unitSystem zoomLevel)
  | SpecificVolume => Some (specificVolumeValues unitSystem zoomLevel)
  end.

(** The levels every zoom shows: the family's base list, sorted. *)
Definition baseLevels (family : Family) (unitSystem : UnitSystem) : list float :=
  match family, unitSystem with
  | RelativeHumidity, _ => [0.1; 0.2; 0.3; 0.4; 0.5; 0.6; 0.7; 0.8; 0.9; 0.98]
  | Enthalpy, si => [0; 10; 20; 30; 40; 50; 60; 80; 100; 120]
  | Enthalpy, ip => [0; 10; 20; 30; 40; 50]
  | WetBulb, si => [-10; -5; 0; 5; 10; 15; 20; 25; 30]
  | WetBulb, ip => [10; 20; 30; 40; 50; 60; 70]
  | SpecificVolume, si => [0.75; 0.8; 0.85; 0.9; 0.95; 1.0; 1.05; 1.1]
  | SpecificVolume, ip => [12.5; 13; 13.5; 14; 14.5; 15]
  end.

End Lod.


(* ================================================================== *)
(** ** [src/components/psychro-chart.tsx]: scales and zoom *)

Module Chart.

(** *** d3-scale and d3-zoom

    The scales and the zoom behaviour are the external packages d3-scale
    and d3-zoom, which are not under src/.  They are modelled here from the
    spec's description and with the structure of those packages, so that
    what the component builds from them can be stated. *)

(** Modelled from the spec: d3-scale's [scaleLinear] (absent from src/),
    "two independent linear scales, one per axis, mapping the fixed domain
    onto the pixel extent of the plotting rectangle".  A scale is its
    two-point domain and range. *)
Record LinearScale : Type := mkScale {
  domain : num * num;
  range : num * num
}.

(** Modelled from the spec: the truth value JavaScript gives a number,
    which d3-scale (absent from src/) tests to detect an empty interval. *)
Definition truthy (a : num) : bool :=
  match a with
  | NaN => false
  | Fin q => negb (Qeq_bool q 0)
  | _ => true
  end.

(** Modelled from the spec: d3-scale's normalisation (absent from src/),
    the position of [x] in the interval from [a] to [b] as a fraction. *)
Definition normalize (a b x : num) : num :=
  let b := b - a in
  if truthy b then (x - a) / b
  else if isNaN b then NaN else Fin (1 # 2).

(** Modelled from the spec: d3-interpolate's number interpolation (absent
    from src/), the point at fraction [t] between [a] and [b]. *)
Definition interpolateNumber (a b t : num) : num :=
  a * (ofZ 1 - t) + b * t.

(** Modelled from the spec: d3-scale's two-point map (absent from src/):
    normalise in the first interval, oriented so that it increases, then
    interpolate in the second. *)
Definition bimap (domain range : num * num) (x : num) : num :=
  let '(d0, d1) := domain in
  let '(r0, r1) := range in
  if d1 <? d0
  then interpolateNumber r1 r0 (normalize d1 d0 x)
  else interpolateNumber r0 r1 (normalize d0 d1 x).

(** Modelled from the spec: applying a d3 scale (absent from src/), domain
    to range: the forward mapping of one axis. *)
Definition scale_apply (s : LinearScale) (x : num) : num :=
  bimap (domain s) (range s) x.

(** Modelled from the spec: [scale.invert] of d3-scale (absent from src/),
    range to domain: the inverse mapping of one axis. *)
Definition scale_invert (s : LinearScale) (y : num) : num :=
  bimap (range s) (domain s) y.

(** Modelled from the spec: d3-zoom's transform (absent from src/), "a
    zoom/pan transform (translateX, translateY, scale k)". *)
Record ZoomTransform : Type := mkTransform {
  k : num;
  x : num;
  y : num
}.

(** Modelled from the spec: d3-zoom's [zoomIdentity] (absent from src/),
    "identity (k=1, translate=0)". *)
Definition zoomIdentity : ZoomTransform := mkTransform (ofZ 1) (ofZ 0) (ofZ 0).

(** Modelled from the spec: [transform.invertX] and [transform.invertY] of
    d3-zoom (absent from src/): the untransformed coordinate shown at a
    pixel. *)
Definition invertX (t : ZoomTransform) (px : num) : num := (px - x t) / k t.
Definition invertY (t : ZoomTransform) (py : num) : num := (py - y t) / k t.

(** Modelled from the spec: [transform.applyX] and [transform.applyY] of
    d3-zoom (absent from src/), "translate + k * base". *)
Definition applyX (t : ZoomTransform) (vx : num) : num := vx * k t + x t.
Definition applyY (t : ZoomTransform) (vy : num) : num := vy * k t + y t.

(** Modelled from the spec: [transform.invert] of d3-zoom (absent from
    src/), on a point. *)
Definition transform_invert (t : ZoomTransform) (p : num * num) : num * num :=
  (invertX t (fst p), invertY t (snd p)).

(** Modelled from the spec: [transform.rescaleX] and [transform.rescaleY]
    of d3-zoom (absent from src/), the transform "composed with the base
    scale by rescaling": the base scale with its domain replaced by what
    the transform shows of it. *)
Definition rescaleX (t : ZoomTransform) (s : LinearScale) : LinearScale :=
  mkScale (scale_invert s (invertX t (fst (range s))),
           scale_invert s (invertX t (snd (range s))))
          (range s).

Definition rescaleY (t : ZoomTransform) (s : LinearScale) : LinearScale :=
  mkScale (scale_invert s (invertY t (fst (range s))),
           scale_invert s (invertY t (snd (range s))))
          (range s).

(** Modelled from the spec: [transform.translate] of d3-zoom (absent from
    src/): shift the view by [(dx, dy)] in untransformed coordinates. *)
Definition transform_translate (t : ZoomTransform) (dx dy : num) : ZoomTransform :=
  mkTransform (k t) (x t + k t * dx) (y t + k t * dy).

(** Modelled from the spec: the settings of a d3-zoom behaviour (absent
    from src/): "k is bounded to [1, 12]" by the scale extent, and the
    translation by the translate extent over the viewport extent. *)
Record ZoomBehavior : Type := mkZoom {
  scaleExtent : num * num;
  translateExtent : (num * num) * (num * num);
  extent : (num * num) * (num * num)
}.

(** Modelled from the spec: how d3-zoom (absent from src/) sets a new
    scale: clamped to the scale extent. *)
Definition zoom_scale (z : ZoomBehavior) (t : ZoomTransform) (k' : num) : ZoomTransform :=
  let k' := Math_max (fst (scaleExtent z)) (Math_min (snd (scaleExtent z)) k') in
  mkTransform k' (x t) (y t).

(** Modelled from the spec: how d3-zoom (absent from src/) keeps the chart
    point [p1] under the pixel [p0]. *)
Definition zoom_translate (t : ZoomTransform) (p0 p1 : num * num) : ZoomTransform :=
  mkTransform (k t) (fst p0 - fst p1 * k t) (snd p0 - snd p1 * k t).

(** Modelled from the spec: JavaScript's [a || b] on numbers, which the
    translate-extent clamp of d3-zoom (absent from src/) uses. *)
Definition orElse (a b : num) : num := if truthy a then a else b.

(** Modelled from the spec: d3-zoom's default constraint (absent from
    src/), the 'standard "translate extent" clamp': "translation is bounded
    so the transformed domain's visible window never exceeds the original
    plotting rectangle in either direction".  On each axis the view is
    shifted by the overshoot of the window past the translate extent, or
    centred when the window is wider than the extent. *)
Definition constrain (z : ZoomBehavior) (t : ZoomTransform) : ZoomTransform :=
  let e := extent z in
  let te := translateExtent z in
  let dx0 := invertX t (fst (fst e)) - fst (fst te) in
  let dx1 := invertX t (fst (snd e)) - fst (snd te) in
  let dy0 := invertY t (snd (fst e)) - snd (fst te) in
  let dy1 := invertY t (snd (snd e)) - snd (snd te) in
  transform_translate t
    (if dx1 >? dx0 then (dx0 + dx1) / ofZ 2
     else orElse (Math_min (ofZ 0) dx0) (Math_max (ofZ 0) dx1))
    (if dy1 >? dy0 then (dy0 + dy1) / ofZ 2
     else orElse (Math_min (ofZ 0) dy0) (Math_max (ofZ 0) dy1)).

(** Modelled from the spec: the "pan/zoom gestures" d3-zoom (absent from
    src/) turns into transforms: a wheel step multiplying the scale by
    [factor] about the pointer [p]; a drag that brings the grabbed chart
    point [p1] under the pointer [p0]; a step to the requested scale [k']
    that brings [p1] under [p0] (a pinch, or a wheel step continuing a
    gesture); and the double click, whose end state is the identity. *)
Inductive Gesture : Type :=
| Wheel (factor : num) (p : num * num)
| Drag (p0 p1 : num * num)
| Pinch (k' : num) (p0 p1 : num * num)
| DoubleClick.

(** Modelled from the spec: the transform d3-zoom (absent from src/)
    reports after a gesture: the scale clamped, the point kept under the
    pointer, then the translation constrained. *)
Definition gesture_step (z : ZoomBehavior) (t : ZoomTransform) (g : Gesture)
    : ZoomTransform :=
  match g with
  | Wheel factor p =>
      constrain z (zoom_translate (zoom_scale z t (k t * factor)) p (transform_invert t p))
  | Drag p0 p1 => constrain z (zoom_translate t p0 p1)
  | Pinch k' p0 p1 => constrain z (zoom_translate (zoom_scale z t k') p0 p1)
  | DoubleClick => zoomIdentity
  end.

(** *** The component *)

Definition MARGINS_top : num := ofZ 32.
Definition MARGINS_right : num := ofZ 36.
Definition MARGINS_bottom : num := ofZ 68.
Definition MARGINS_left : num := ofZ 88.

Definition innerWidth (width : num) : num :=
  Math_max (width - (MARGINS_left + MARGINS_right)) (ofZ 40).

Definition innerHeight (height : num) : num :=
  Math_max (height - (MARGINS_top + MARGINS_bottom)) (ofZ 40).

Definition humidityDomainDisplay (unitSystem : UnitSystem) : num * num :=
  let extents := getChartExtents unitSystem in
  (humidityRatioToDisplay unitSystem (fst (ext_humidityRatio extents)),
   humidityRatioToDisplay unitSystem (snd (ext_humidityRatio extents))).

Definition xBaseScale (unitSystem : UnitSystem) (width : num) : LinearScale :=
  mkScale (ext_dryBulb (getChartExtents unitSystem)) (ofZ 0, innerWidth width).

Definition yBaseScale (unitSystem : UnitSystem) (height : num) : LinearScale :=
  mkScale (humidityDomainDisplay unitSystem) (innerHeight height, ofZ 0).

Definition xScale (unitSystem : UnitSystem) (width : num) (transform : ZoomTransform)
    : LinearScale :=
  rescaleX transform (xBaseScale unitSystem width).

Definition yScale (unitSystem : UnitSystem) (height : num) (transform : ZoomTransform)
    : LinearScale :=
  rescaleY transform (yBaseScale unitSystem height).

Definition zoomBehavior (width height : num) : ZoomBehavior :=
  mkZoom (ofZ 1, ofZ 12)
         ((ofZ 0, ofZ 0), (innerWidth width, innerHeight height))
         ((ofZ 0, ofZ 0), (innerWidth width, innerHeight height)).

(** The transform after a sequence of gestures, from the initial identity. *)
Definition afterGestures (width height : num) (gs : list Gesture) : ZoomTransform :=
  fold_left (gesture_step (zoomBehavior width height)) gs zoomIdentity.

(** Forward mapping, as the line generators place a point: physical
    (dry bulb, humidity ratio) to pixel. *)
Definition forward (unitSystem : UnitSystem) (width height : num)
    (transform : ZoomTransform) (dryBulb humidityRatio : num) : num * num :=
  (scale_apply (xScale unitSystem width transform) dryBulb,
   scale_apply (yScale unitSystem height transform)
     (humidityRatioToDisplay unitSystem humidityRatio)).

(** Inverse mapping, as the pointer handlers start: pixel to physical
    (dry bulb, displayed humidity ratio), by the inverted scales. *)
Definition inverse (unitSystem : UnitSystem) (width height : num)
    (transform : ZoomTransform) (pixel : num * num) : num * num :=
  (scale_invert (xScale unitSystem width transform) (fst pixel),
   scale_invert (yScale unitSystem height transform) (snd pixel)).

(** What a pointer position resolves to ([handlePointerUp],
    [handlePointerMove]): the inverse mapping, clamped to the chart
    extents, and the humidity ratio behind the displayed one. *)
Record Resolved : Type := mkResolved {
  clampedDryBulb : num;
  clampedHumidityDisplay : num;
  resolvedHumidityRatio : num
}.

Definition resolvePointer (unitSystem : UnitSystem) (width height : num)
    (transform : ZoomTransform) (pixel : num * num) : Resolved :=
  let extents := getChartExtents unitSystem in
  let dryBulb := scale_invert (xScale unitSystem width transform) (fst pixel) in
  let humidityDisplay := scale_invert (yScale unitSystem height transform) (snd pixel) in
  let clampedDryBulb :=
    Math_min (Math_max dryBulb (fst (ext_dryBulb extents))) (snd (ext_dryBulb extents)) in
  let clampedHumidityDisplay :=
    Math_min (Math_max humidityDisplay (fst (humidityDomainDisplay unitSystem)))
             (snd (humidityDomainDisplay unitSystem)) in
  mkResolved clampedDryBulb clampedHumidityDisplay
             (humidityRatioFromDisplay unitSystem clampedHumidityDisplay).

(** [event.currentTarget.getBoundingClientRect()], as far as the handlers
    read it. *)
Record ClientRect : Type := mkRect {
  rect_left : num;
  rect_top : num;
  rect_width : num;
  rect_height : num
}.

(** [resolvePointerPosition]: the pointer relative to the interaction
    rectangle, clamped to it. *)
Definition resolvePointerPosition (bounds : ClientRect) (clientX clientY : num)
    : num * num :=
  (Math_min (Math_max (clientX - rect_left bounds) (ofZ 0)) (rect_width bounds),
   Math_min (Math_max (clientY - rect_top bounds) (ofZ 0)) (rect_height bounds)).

(** The crosshair marker the handlers set. *)
Record Marker : Type := mkMarker {
  cx : num;
  cy : num;
  marker_dryBulb : num;
  marker_humidityDisplay : num
}.

(** [handlePointerUp].  [onSelectState] tells whether the callback was
    given; the result is what the handler passes on: the marker it sets and
    the state it hands to the callback, or [None] when it returns without
    selecting. *)
Definition handlePointerUp (psychrolib : Psychrolib) (onSelectState : bool)
    (unitSystem : UnitSystem) (pressure width height : num)
    (transform : ZoomTransform) (bounds : ClientRect) (clientX clientY : num)
    : M (option (Marker * PsychroState)) :=
  if negb onSelectState then ret None
  else
    let pixel := resolvePointerPosition bounds clientX clientY in
    let resolved := resolvePointer unitSystem width height transform pixel in
    tryCatch
      (let humidityRatio := resolvedHumidityRatio resolved in
       if negb (isFinite humidityRatio) then ret None
       else
         state <- computePsychrometricsFromHumRatio psychrolib
                    {| hin_dryBulb := clampedDryBulb resolved;
                       hin_humidityRatio := humidityRatio;
                       hin_pressure := pressure |}
                    unitSystem ;;
         match state with
         | Some state =>
             let markerPayload :=
               {| cx := scale_apply (xScale unitSystem width transform)
                          (clampedDryBulb resolved);
                  cy := scale_apply (yScale unitSystem height transform)
                          (clampedHumidityDisplay resolved);
                  marker_dryBulb := clampedDryBulb resolved;
                  marker_humidityDisplay := clampedHumidityDisplay resolved |} in
             ret (Some (markerPayload, state))
         | None => ret None
         end)
      (ret None).

(** [nextMarker] of [handlePointerMove]: the crosshair a pointer move
    asks for, when the crosshair is shown. *)
Definition nextMarker (unitSystem : UnitSystem) (width height : num)
    (transform : ZoomTransform) (bounds : ClientRect) (clientX clientY : num) : Marker :=
  let pixel := resolvePointerPosition bounds clientX clientY in
  let resolved := resolvePointer unitSystem width height transform pixel in
  {| cx := scale_apply (xScale unitSystem width transform) (clampedDryBulb resolved);
     cy := scale_apply (yScale unitSystem height transform)
             (clampedHumidityDisplay resolved);
     marker_dryBulb := clampedDryBulb resolved;
     marker_humidityDisplay := clampedHumidityDisplay resolved |}.

End Chart.


(* ================================================================== *)
(** ** [src/app/page.tsx]: the inputs, the saved points and the processes

    The page keeps its state in React hooks; each handler is the function
    from the state before the event to the state after it.  Identifiers
    come from [Math.random] ([createId]): a handler that creates one takes
    it as an argument. *)

Module JsMap.

(** A [Map<string, V>]: its entries in insertion order.  Setting a key
    that is present replaces the value in place. *)
Fixpoint Map_set {V} (key : string) (value : V) (m : list (string * V))
    : list (string * V) :=
  match m with
  | [] => [(key, value)]
  | (k, v) :: rest =>
      if String.eqb k key then (k, value) :: rest
      else (k, v) :: Map_set key value rest
  end.

(** [new Map(entries)] *)
Definition Map_new {V} (entries : list (string * V)) : list (string * V) :=
  fold_left (fun m entry => Map_set (fst entry) (snd entry) m) entries [].

(** [map.get(key)]; [undefined] is [None]. *)
Fixpoint Map_get {V} (m : list (string * V)) (key : string) : option V :=
  match m with
  | [] => None
  | (k, v) :: rest => if String.eqb k key then Some v else Map_get rest key
  end.

End JsMap.
Import JsMap.

Module Page.

Definition PA_PER_PSI : num := dec 6894757293168 1000000000.

Definition clamp (value min max : num) : num :=
  Math_min (Math_max value min) max.

(** [Number.parseFloat(value.toFixed(digits))], also written
    [Number(value.toFixed(digits))].  [toFixed] prints the integer [n]
    nearest to [|value| * 10^digits] (the larger of two equally near)
    over [10^digits], with the sign of [value]; from [1e21] on it prints
    the number in full, and [NaN] and the infinities by name.  Reading the
    string back gives the number printed.  The value is the exact
    rational of the model: where the source holds the double nearest to a
    decimal that is a tie at [digits] (0.35 at one digit), the double lies
    on one side of the tie and [toFixed] rounds to that side, which is
    not represented here. *)
Definition parseFloat_toFixed (digits : nat) (value : num) : num :=
  match value with
  | Fin q =>
      if Qle_bool (inject_Z (10 ^ 21)) (Qabs q) then value
      else
        let scale := (10 ^ Z.of_nat digits)%Z in
        let n := Qfloor (Qabs q * inject_Z scale + (1 # 2)) in
        Fin (Qred (inject_Z (if (Qnum q <? 0)%Z then - n else n) / inject_Z scale))
  | _ => value
  end.

Definition UnitSystem_eqb (a b : UnitSystem) : bool :=
  match a, b with
  | si, si | ip, ip => true
  | _, _ => false
  end.

Definition convertInputs (inputs : PsychroInputs) (from to : UnitSystem)
    : PsychroInputs :=
  if UnitSystem_eqb from to then inputs
  else if UnitSystem_eqb from ip && UnitSystem_eqb to si then
    {| in_pressure := Math_round (in_pressure inputs * PA_PER_PSI);
       in_dryBulb :=
         parseFloat_toFixed 1 (((in_dryBulb inputs - ofZ 32) * ofZ 5) / ofZ 9);
       in_relativeHumidity := in_relativeHumidity inputs |}
  else if UnitSystem_eqb from si && UnitSystem_eqb to ip then
    {| in_pressure := parseFloat_toFixed 3 (in_pressure inputs / PA_PER_PSI);
       in_dryBulb :=
         parseFloat_toFixed 1 ((in_dryBulb inputs * ofZ 9) / ofZ 5 + ofZ 32);
       in_relativeHumidity := in_relativeHumidity inputs |}
  else inputs.

Definition toCelsius (value : num) (system : UnitSystem) : num :=
  match system with
  | si => value
  | ip => ((value - ofZ 32) * ofZ 5) / ofZ 9
  end.

Definition fromCelsius (value : num) (system : UnitSystem) : num :=
  match system with
  | si => value
  | ip => value * (ofZ 9 / ofZ 5) + ofZ 32
  end.

Definition toPressureSI (value : num) (system : UnitSystem) : num :=
  match system with
  | si => value
  | ip => value * PA_PER_PSI
  end.

(** [generateLabel]: a letter for the first 26 points, then [P1], [P2],
    and so on. *)
Definition generateLabel (count : nat) : string :=
  let alphabet := "ABCDEFGHIJKLMNOPQRSTUVWXYZ"%string in
  if (count <? String.length alphabet)%nat then String.substring count 1 alphabet
  else ("P" ++ NilEmpty.string_of_uint
                 (Nat.to_uint (count - String.length alphabet + 1)))%string.

Inductive ProcessKind : Type := heating | cooling | humidifying | mixing.

Record SavedPoint : Type := mkSavedPoint {
  sp_id : string;
  sp_label : string;
  sp_color : string;
  sp_dryBulbSI : num;
  sp_relativeHumidity : num;
  sp_humidityRatio : num;
  sp_pressureSI : num
}.

Record ProcessLink : Type := mkProcessLink {
  pl_id : string;
  pl_fromId : string;
  pl_toId : string;
  pl_kind : ProcessKind
}.

Record ChartStatePoint : Type := mkChartStatePoint {
  csp_id : string;
  csp_label : string;
  csp_color : string;
  csp_dryBulb : num;
  csp_humidityRatio : num
}.

Record ChartProcess : Type := mkChartProcess {
  cp_id : string;
  cp_color : string;
  cp_label : string;
  cp_points : list (num * num)
}.

Definition POINT_COLORS : list string :=
  ["#22d3ee"; "#38bdf8"; "#c084fc"; "#f472b6"; "#f97316"; "#a3e635"]%string.

Definition PROCESS_COLORS (kind : ProcessKind) : string :=
  match kind with
  | heating => "#f97316"
  | cooling => "#0ea5e9"
  | humidifying => "#22c55e"
  | mixing => "#eab308"
  end%string.

Record ProcessDraft : Type := mkDraft {
  draft_fromId : string;
  draft_toId : string;
  draft_kind : ProcessKind
}.

(** The state of [Home] that the handlers below read and set. *)
Record Home : Type := mkHome {
  unitSystem : UnitSystem;
  inputs : PsychroInputs;
  savedPoints : list SavedPoint;
  processes : list ProcessLink;
  processDraft : ProcessDraft
}.

Definition initialHome : Home :=
  {| unitSystem := si;
     inputs := DEFAULT_INPUTS si;
     savedPoints := [];
     processes := [];
     processDraft := mkDraft "" "" heating |}.

Definition setInputs (next : PsychroInputs) (home : Home) : Home :=
  mkHome (unitSystem home) next (savedPoints home) (processes home) (processDraft home).

Definition handleReset (home : Home) : Home :=
  setInputs (DEFAULT_INPUTS (unitSystem home)) home.

Definition handleUnitToggle (next : bool) (home : Home) : Home :=
  let nextSystem := if next then ip else si in
  let prev := inputs home in
  let converted := convertInputs prev (unitSystem home) nextSystem in
  let nextExtents := getChartExtents nextSystem in
  mkHome nextSystem
    {| in_pressure := Math_max (in_pressure converted) (ofZ 0);
       in_dryBulb :=
         parseFloat_toFixed 1
           (clamp (in_dryBulb converted) (fst (ext_dryBulb nextExtents))
              (snd (ext_dryBulb nextExtents)));
       in_relativeHumidity :=
         parseFloat_toFixed 1 (clamp (in_relativeHumidity converted) (ofZ 0) (ofZ 100)) |}
    (savedPoints home) (processes home) (processDraft home).

Inductive InputKey : Type := pressure | dryBulb | relativeHumidity.

Definition getInput (prev : PsychroInputs) (key : InputKey) : num :=
  match key with
  | pressure => in_pressure prev
  | dryBulb => in_dryBulb prev
  | relativeHumidity => in_relativeHumidity prev
  end.

Definition setInput (prev : PsychroInputs) (key : InputKey) (value : num)
    : PsychroInputs :=
  match key with
  | pressure => mkInputs value (in_dryBulb prev) (in_relativeHumidity prev)
  | dryBulb => mkInputs (in_pressure prev) value (in_relativeHumidity prev)
  | relativeHumidity => mkInputs (in_pressure prev) (in_dryBulb prev) value
  end.

(** [handleInputChange(key)] on an event whose text parses to [value]. *)
Definition handleInputChange (key : InputKey) (value : num) (home : Home) : Home :=
  let chartExtents := getChartExtents (unitSystem home) in
  let prev := inputs home in
  setInputs
    (setInput prev key
       (if negb (isFinite value) then getInput prev key
        else
          match key with
          | pressure => Math_max value (ofZ 0)
          | dryBulb =>
              parseFloat_toFixed 1
                (clamp value (fst (ext_dryBulb chartExtents))
                   (snd (ext_dryBulb chartExtents)))
          | relativeHumidity => parseFloat_toFixed 1 (clamp value (ofZ 0) (ofZ 100))
          end))
    home.

(** The [onValueChange] of the two sliders. *)
Definition handleSliderChange (key : InputKey) (value : num) (home : Home) : Home :=
  let chartExtents := getChartExtents (unitSystem home) in
  let prev := inputs home in
  match key with
  | dryBulb =>
      setInputs
        (setInput prev dryBulb
           (parseFloat_toFixed 1
              (clamp value (fst (ext_dryBulb chartExtents))
                 (snd (ext_dryBulb chartExtents)))))
        home
  | relativeHumidity =>
      setInputs
        (setInput prev relativeHumidity
           (parseFloat_toFixed 1 (clamp value (ofZ 0) (ofZ 100))))
        home
  | pressure => home
  end.

(** [handleChartState], the chart's [onSelectState]. *)
Definition handleChartState (state : PsychroState) (home : Home) : Home :=
  let chartExtents := getChartExtents (unitSystem home) in
  let prev := inputs home in
  setInputs
    {| in_pressure := in_pressure prev;
       in_dryBulb :=
         parseFloat_toFixed 3
           (clamp (st_dryBulb state) (fst (ext_dryBulb chartExtents))
              (snd (ext_dryBulb chartExtents)));
       in_relativeHumidity :=
         parseFloat_toFixed 3 (clamp (st_relativeHumidity state) (ofZ 0) (ofZ 100)) |}
    home.

(** [handleCaptureState]: [psychroState] is the memoised result of
    [computePsychrometrics] on the current inputs, [newId] the identifier
    [createId] draws. *)
Definition handleCaptureState (psychroState : option PsychroState) (newId : string)
    (home : Home) : Home :=
  match psychroState with
  | None => home
  | Some psychroState =>
      let count := List.length (savedPoints home) in
      let newPoint :=
        {| sp_id := newId;
           sp_label := generateLabel count;
           sp_color := nth (count mod List.length POINT_COLORS) POINT_COLORS ""%string;
           sp_dryBulbSI := toCelsius (st_dryBulb psychroState) (unitSystem home);
           sp_relativeHumidity :=
             clamp (st_relativeHumidity psychroState) (ofZ 0) (ofZ 100);
           sp_humidityRatio := st_humidityRatio psychroState;
           sp_pressureSI := toPressureSI (in_pressure (inputs home)) (unitSystem home) |} in
      mkHome (unitSystem home) (inputs home) (savedPoints home ++ [newPoint])
        (processes home) (processDraft home)
  end.

Definition handlePointLabelChange (id label : string) (home : Home) : Home :=
  mkHome (unitSystem home) (inputs home)
    (map (fun point =>
            if String.eqb (sp_id point) id
            then mkSavedPoint (sp_id point) label (sp_color point) (sp_dryBulbSI point)
                   (sp_relativeHumidity point) (sp_humidityRatio point)
                   (sp_pressureSI point)
            else point)
         (savedPoints home))
    (processes home) (processDraft home).

Definition handleRemovePoint (id : string) (home : Home) : Home :=
  let prev := processDraft home in
  mkHome (unitSystem home) (inputs home)
    (filter (fun point => negb (String.eqb (sp_id point) id)) (savedPoints home))
    (filter (fun process =>
               negb (String.eqb (pl_fromId process) id)
               && negb (String.eqb (pl_toId process) id))
            (processes home))
    {| draft_fromId := if String.eqb (draft_fromId prev) id then ""%string
                       else draft_fromId prev;
       draft_toId := if String.eqb (draft_toId prev) id then ""%string
                     else draft_toId prev;
       draft_kind := draft_kind prev |}.

(** The field of the draft a select changes, with the value chosen. *)
Inductive DraftChange : Type :=
| SetFromId (value : string)
| SetToId (value : string)
| SetKind (value : ProcessKind).

Definition handleProcessDraftChange (change : DraftChange) (home : Home) : Home :=
  let prev := processDraft home in
  mkHome (unitSystem home) (inputs home) (savedPoints home) (processes home)
    match change with
    | SetFromId value => mkDraft value (draft_toId prev) (draft_kind prev)
    | SetToId value => mkDraft (draft_fromId prev) value (draft_kind prev)
    | SetKind value => mkDraft (draft_fromId prev) (draft_toId prev) value
    end.

(** The truth value of a string: false when empty. *)
Definition truthy (s : string) : bool := negb (String.eqb s "").

Definition handleAddProcess (newId : string) (home : Home) : Home :=
  let fromId := draft_fromId (processDraft home) in
  let toId := draft_toId (processDraft home) in
  let kind := draft_kind (processDraft home) in
  if negb (truthy fromId) || negb (truthy toId) || String.eqb fromId toId then home
  else
    mkHome (unitSystem home) (inputs home) (savedPoints home)
      (processes home ++ [mkProcessLink newId fromId toId kind])
      (mkDraft fromId ""%string kind).

Definition handleRemoveProcess (id : string) (home : Home) : Home :=
  mkHome (unitSystem home) (inputs home) (savedPoints home)
    (filter (fun process => negb (String.eqb (pl_id process) id)) (processes home))
    (processDraft home).

Definition chartStatePoints (home : Home) : list ChartStatePoint :=
  map (fun point =>
         {| csp_id := sp_id point;
            csp_label := sp_label point;
            csp_color := sp_color point;
            csp_dryBulb := fromCelsius (sp_dryBulbSI point) (unitSystem home);
            csp_humidityRatio := sp_humidityRatio point |})
      (savedPoints home).

(** [array.map(f).filter(Boolean)] for an [f] that answers an object or
    [null]. *)
Definition filterMap {A B} (f : A -> option B) (items : list A) : list B :=
  flat_map (fun item => match f item with Some b => [b] | None => [] end) items.

Definition chartProcesses (home : Home) : list ChartProcess :=
  let map := Map_new (List.map (fun point => (csp_id point, point)) (chartStatePoints home)) in
  filterMap
    (fun process =>
       match Map_get map (pl_fromId process), Map_get map (pl_toId process) with
       | Some from, Some to =>
           Some {| cp_id := pl_id process;
                   cp_color := PROCESS_COLORS (pl_kind process);
                   cp_label := (csp_label from ++ " → " ++ csp_label to)%string;
                   cp_points := [(csp_dryBulb from, csp_humidityRatio from);
                                 (csp_dryBulb to, csp_humidityRatio to)] |}
       | _, _ => None
       end)
    (processes home).

End Page.
(* ================================================================== *)
(** ** Vocabulary of the statements *)

Module Spec.

(** A computation that always returns. *)
Definition total {A} (m : M A) : Prop :=
  forall w, exists a w', m w = (Ret a, w').

(** A computation that returns or throws, but never runs out of fuel. *)
Definition halts {A} (m : M A) : Prop :=
  forall w, fst (m w) <> Diverge.

(** [a] is the finite number whose value is the rational [q]. *)
Definition hasValue (a : num) (q : Q) : Prop :=
  exists q', a = Fin q' /\ (q' == q)%Q.

(** A transform within the zoom limits of a [W] by [H] plotting
    rectangle: scale in [1, 12], and a translation that keeps the visible
    window inside the rectangle. *)
Definition validTransform (W H : Q) (t : Chart.ZoomTransform) : Prop :=
  exists K X Y,
    hasValue (Chart.k t) K /\ hasValue (Chart.x t) X /\ hasValue (Chart.y t) Y /\
    (1 <= K <= 12)%Q /\
    (W * (1 - K) <= X <= 0)%Q /\
    (H * (1 - K) <= Y <= 0)%Q.

Definition finitePoint (p : num * num) : Prop :=
  isFinite (fst p) = true /\ isFinite (snd p) = true.

(** A gesture whose pointer positions and scale factors are finite
    numbers. *)
Definition finiteGesture (g : Chart.Gesture) : Prop :=
  match g with
  | Chart.Wheel factor p => isFinite factor = true /\ finitePoint p
  | Chart.Drag p0 p1 => finitePoint p0 /\ finitePoint p1
  | Chart.Pinch k' p0 p1 => isFinite k' = true /\ finitePoint p0 /\ finitePoint p1
  | Chart.DoubleClick => True
  end.

(** The dry-bulb and displayed humidity-ratio domains of each unit system,
    and the display factor of the humidity ratio, as rationals. *)
Definition dryBulbDomain (unitSystem : UnitSystem) : Q * Q :=
  match unitSystem with
  | si => (-(20), 60)
  | ip => (-(4), 140)
  end%Q.

Definition displayDomain (unitSystem : UnitSystem) : Q * Q :=
  match unitSystem with
  | si => (0, 35)
  | ip => (0, 210)
  end%Q.

Definition displayFactor (unitSystem : UnitSystem) : Q :=
  match unitSystem with
  | si => 1000
  | ip => 7000
  end%Q.

(** The domain value a scale with domain [D0, D1] and range starting at
    [R0] shows at the range position [R] once zoomed by [K] and translated
    by [T]. *)
Definition shownEnd (D0 D1 R0 K T : Q) (R1 R : Q) : Q :=
  (D0 + ((R - T) / K - R0) * (D1 - D0) / (R1 - R0))%Q.

(** The value of a loop variable after [n] updates [v += step] from
    [start]. *)
Fixpoint stepped (n : nat) (start step : num) : num :=
  match n with
  | O => start
  | S n' => stepped n' start step + step
  end.

(** Whatever the solver, the unit system and the calls made before, the
    first query [computePsychrometrics] makes on [inputs] asks for the
    humidity ratio at the relative-humidity fraction [fraction]. *)
Definition firstQueryFraction (inputs : PsychroInputs) (fraction : num) : Prop :=
  forall (lib : Psychrolib) (system : UnitSystem) (w : World),
  exists later,
    calls (snd (computePsychrometrics lib inputs system w)) =
    later ++ mkCall FnGetHumRatioFromRelHum
               [in_dryBulb inputs; fraction; in_pressure inputs] :: calls w.

(** The solver's inversion of enthalpy agrees with its enthalpy within
    [tol] on finite values: the finite dry bulb it answers for a finite
    enthalpy [h] at [w] has enthalpy [h] at [w], up to [tol]. *)
Definition inversion_consistent (lib : Psychrolib) (system : UnitSystem) (tol : num)
    : Prop :=
  forall h w t e,
    isFinite h = true -> isFinite t = true ->
    lib_GetTDryBulbFromEnthalpyAndHumRatio lib system h w = Some t ->
    lib_GetMoistAirEnthalpy lib system t w = Some e ->
    (Math_abs (e - h) <=? tol) = true.

(** What holds of a point kept on the enthalpy line of [target]: it
    carries the target; its humidity ratio was reached from 0 by repeated
    increments and is not above 0.06; its dry bulb is the solver's
    inversion of the target at that humidity ratio, inside [lo, hi]; so on
    a finite domain and for a finite target the solver's enthalpy there is
    the target within any tolerance the solver's inversion honours. *)
Definition onEnthalpyLine (lib : Psychrolib) (system : UnitSystem)
    (lo hi inc target : num) (p : CurvePoint) : Prop :=
  enthalpy p = target /\
  (exists n, humidityRatio p = stepped n (ofZ 0) inc) /\
  (humidityRatio p <=? dec 6 100) = true /\
  lib_GetTDryBulbFromEnthalpyAndHumRatio lib system target (humidityRatio p)
    = Some (dryBulb p) /\
  (lo <=? dryBulb p) = true /\ (dryBulb p <=? hi) = true /\
  forall tol e,
    inversion_consistent lib system tol ->
    isFinite target = true -> isFinite lo = true -> isFinite hi = true ->
    lib_GetMoistAirEnthalpy lib system (dryBulb p) (humidityRatio p) = Some e ->
    (Math_abs (e - target) <=? tol) = true.

(** What one sample of an enthalpy line leaves in [points]: the point of
    the solver's inversion when it answers inside [lo, hi]. *)
Definition enthalpySampled (lib : Psychrolib) (system : UnitSystem)
    (lo hi target humidityRatio : num) (points : list CurvePoint)
    : list CurvePoint :=
  match lib_GetTDryBulbFromEnthalpyAndHumRatio lib system target humidityRatio with
  | Some dryBulb =>
      if (lo <=? dryBulb) && (dryBulb <=? hi)
      then points ++ [mkPoint dryBulb humidityRatio target]
      else points
  | None => points
  end.

(** The solver's saturation humidity ratio does not decrease with the dry
    bulb over [lo, hi] at [pressure]: the physics the saturation curve
    relies on. *)
Definition saturation_monotone (lib : Psychrolib) (system : UnitSystem)
    (pressure lo hi : num) : Prop :=
  forall t1 t2 w1 w2,
    (lo <=? t1) = true -> (t1 <=? t2) = true -> (t2 <=? hi) = true ->
    lib_GetSatHumRatio lib system t1 pressure = Some w1 ->
    lib_GetSatHumRatio lib system t2 pressure = Some w2 ->
    (w1 <=? w2) = true.

Definition dryBulb_lt (p q : CurvePoint) : Prop :=
  (dryBulb p <? dryBulb q) = true.

Definition humidityRatio_le (p q : CurvePoint) : Prop :=
  (humidityRatio p <=? humidityRatio q) = true.

(** A point of the saturation curve: a sample of the walk from [lo] by
    [step], inside [lo, hi], with the solver's saturation humidity ratio
    and the solver's enthalpy there. *)
Definition onSaturationCurve (lib : Psychrolib) (system : UnitSystem)
    (pressure lo hi step : num) (p : CurvePoint) : Prop :=
  (exists n, dryBulb p = stepped n lo step) /\
  (lo <=? dryBulb p) = true /\
  (dryBulb p <=? hi) = true /\
  lib_GetSatHumRatio lib system (dryBulb p) pressure = Some (humidityRatio p) /\
  lib_GetMoistAirEnthalpy lib system (dryBulb p) (humidityRatio p) = Some (enthalpy p).

(** A computation that lets no thrown error out: it returns, or it is
    still running when the fuel is spent. *)
Definition neverThrows {A} (m : M A) : Prop :=
  forall w, fst (m w) <> Throw.

(** What holds of a point kept on a specific-volume line: its humidity
    ratio is the estimate the search ended with, inside the bracket
    (0, saturation]. *)
Definition inBracket (lib : Psychrolib) (system : UnitSystem) (pressure : num)
    (p : CurvePoint) : Prop :=
  exists satHum,
    lib_GetSatHumRatio lib system (dryBulb p) pressure = Some satHum /\
    isFinite satHum = true /\
    (ofZ 0 <? humidityRatio p) = true /\
    (humidityRatio p <=? satHum) = true.

(** The solver calls made between two worlds. *)
Definition callsBetween (w w' : World) (later : list Call) : Prop :=
  calls w' = later ++ calls w.

(** How many of some calls query the specific volume. *)
Definition volumeQueries (cs : list Call) : nat :=
  List.length (filter (fun c => match call_fn c with
                                | FnGetMoistAirVolume => true
                                | _ => false
                                end) cs).

(** The world while enthalpy lines are generated from [w0]: the unit mode
    is set and the only solver calls made are inversions of enthalpy. *)
Definition inv_world (system : UnitSystem) (w0 w : World) : Prop :=
  units w = Some system /\
  exists later,
    callsBetween w0 w later /\
    Forall (fun c => call_fn c = FnGetTDryBulbFromEnthalpyAndHumRatio) later.

End Spec.
Import Spec.

Infix "=~" := hasValue (at level 70).

(* ================================================================== *)
(** ** Vocabulary of the level-of-detail statements *)

Module LodSpec.

Local Open Scope float_scope.

(** How many of the three refinement thresholds the zoom has crossed. *)
Definition regime (zoomLevel : float) : nat :=
  if 5 <? zoomLevel then 3
  else if 3.5 <? zoomLevel then 2
  else if 1.8 <? zoomLevel then 1
  else 0.

(** A zoom in each regime. *)
Definition zoomAt (r : nat) : float :=
  match r with
  | O => 1
  | S O => 2
  | S (S O) => 4
  | _ => 6
  end.

(** Strictly ascending: sorted and without duplicates. *)
Definition ascending (levels : list float) : Prop :=
  StronglySorted (fun a b => (a <? b) = true) levels.

Fixpoint ascendingb (levels : list float) : bool :=
  match levels with
  | [] => true
  | a :: rest => forallb (fun b => a <? b) rest && ascendingb rest
  end.

Definition memb (a : float) (levels : list float) : bool :=
  existsb (Leibniz.eqb a) levels.

Definition inclb (l1 l2 : list float) : bool :=
  forallb (fun a => memb a l2) l1.

(** The checks of the refinement from regime [r1] to regime [r2]. *)
Definition refines (family : Lod.Family) (unitSystem : UnitSystem) (r1 r2 : nat)
    : bool :=
  match Lod.levelsOf family unitSystem (zoomAt r1),
        Lod.levelsOf family unitSystem (zoomAt r2) with
  | Some l1, Some l2 =>
      inclb l1 l2 && inclb (Lod.baseLevels family unitSystem) l1 &&
      ascendingb l1 && ascendingb l2
  | _, _ => false
  end.

End LodSpec.
Import LodSpec.

(* ================================================================== *)
(** ** Solvers to run the generators on *)

Module Examples.

(** A solver given by one table of answers; [None] is a thrown error. *)
Definition solverOf (answer : SolverFn -> list num -> option num) : Psychrolib :=
  mkPsychrolib
    (fun _ t rh p => answer FnGetHumRatioFromRelHum [t; rh; p])
    (fun _ t w p => answer FnGetTWetBulbFromHumRatio [t; w; p])
    (fun _ t w p => answer FnGetTDewPointFromHumRatio [t; w; p])
    (fun _ t w => answer FnGetMoistAirEnthalpy [t; w])
    (fun _ t w p => answer FnGetMoistAirVolume [t; w; p])
    (fun _ t w p => answer FnGetMoistAirDensity [t; w; p])
    (fun _ w p => answer FnGetVapPresFromHumRatio [w; p])
    (fun _ t p => answer FnGetSatHumRatio [t; p])
    (fun _ t w p => answer FnGetRelHumFromHumRatio [t; w; p])
    (fun _ h w => answer FnGetTDryBulbFromEnthalpyAndHumRatio [h; w])
    (fun _ t twb p => answer FnGetHumRatioFromTWetBulb [t; twb; p]).

(** Every function answers [v]. *)
Definition constantSolver (v : num) : Psychrolib :=
  solverOf (fun _ _ => Some v).

(** Moist-air enthalpy [1.006 t + w (2501 + 1.86 t)] with its exact
    inverse in [t], which rejects a humidity ratio that is not a
    non-negative number; every other function answers [1]. *)
Definition enthalpySolver : Psychrolib :=
  solverOf (fun fn args =>
    match fn, args with
    | FnGetMoistAirEnthalpy, [t; w] =>
        Some (dec 1006 1000 * t + w * (ofZ 2501 + dec 186 100 * t))
    | FnGetTDryBulbFromEnthalpyAndHumRatio, [h; w] =>
        if isFinite h && isFinite w && (ofZ 0 <=? w)
        then Some ((h - ofZ 2501 * w) / (dec 1006 1000 + dec 186 100 * w))
        else None
    | _, _ => Some (ofZ 1)
    end).

(** A saturation humidity ratio that rises with the dry bulb,
    [(t + 30) / 1000], and is refused outside finite temperatures; the
    enthalpy is [t + w]. *)
Definition saturationSolver : Psychrolib :=
  solverOf (fun fn args =>
    match fn, args with
    | FnGetSatHumRatio, [t; p] =>
        if isFinite t then Some ((t + ofZ 30) / ofZ 1000) else None
    | FnGetMoistAirEnthalpy, [t; w] => Some (t + w)
    | _, _ => Some (ofZ 1)
    end).

(** As [saturationSolver], but at dry bulb 1 the humidity ratio (at
    saturation, from a relative humidity or from a wet bulb) is [NaN]: a
    non-physical sample that is answered, not thrown. *)
Definition nanAtOneSolver : Psychrolib :=
  solverOf (fun fn args =>
    match fn, args with
    | FnGetSatHumRatio, [t; p] =>
        if isFinite t && (t <=? ofZ 1) && (ofZ 1 <=? t) then Some NaN
        else if isFinite t then Some ((t + ofZ 30) / ofZ 1000) else None
    | FnGetHumRatioFromRelHum, [t; rh; p] =>
        if isFinite t && (t <=? ofZ 1) && (ofZ 1 <=? t) then Some NaN
        else if isFinite t then Some (rh * (t + ofZ 30) / ofZ 1000) else None
    | FnGetHumRatioFromTWetBulb, [t; twb; p] =>
        if isFinite t && (t <=? ofZ 1) && (ofZ 1 <=? t) then Some NaN
        else if isFinite t then Some ((twb + ofZ 30) / ofZ 1000) else None
    | FnGetMoistAirEnthalpy, [t; w] => Some (t + w)
    | _, _ => Some (ofZ 1)
    end).

(** Saturation humidity ratio [0.02] everywhere and a specific volume
    [(0.8 + w) * 101325 / p] that grows with the humidity ratio: between
    [0.8] and [0.82] at standard pressure, infinite at pressure 0. *)
Definition volumeSolver : Psychrolib :=
  solverOf (fun fn args =>
    match fn, args with
    | FnGetSatHumRatio, [t; p] => Some (dec 2 100)
    | FnGetMoistAirVolume, [t; w; p] => Some ((dec 8 10 + w) * ofZ 101325 / p)
    | FnGetMoistAirEnthalpy, [t; w] => Some (t + w)
    | _, _ => Some (ofZ 1)
    end).

End Examples.
Import Examples.


(* ================================================================== *)
(** ** Vocabulary of the statements about states and curves *)

Module StateSpec.

Definition answered (r : option num) : bool :=
  match r with
  | Some _ => true
  | None => false
  end.

(** Whether the solver answers (does not throw) the seven queries both
    state functions make at a dry bulb and a humidity ratio. *)
Definition solverAnswers (lib : Psychrolib) (system : UnitSystem)
    (dryBulb humidityRatio pressure : num) : bool :=
  answered (lib_GetTWetBulbFromHumRatio lib system dryBulb humidityRatio pressure) &&
  answered (lib_GetTDewPointFromHumRatio lib system dryBulb humidityRatio pressure) &&
  answered (lib_GetMoistAirEnthalpy lib system dryBulb humidityRatio) &&
  answered (lib_GetMoistAirVolume lib system dryBulb humidityRatio pressure) &&
  answered (lib_GetMoistAirDensity lib system dryBulb humidityRatio pressure) &&
  answered (lib_GetVapPresFromHumRatio lib system humidityRatio pressure) &&
  answered (lib_GetSatHumRatio lib system dryBulb pressure).

(** A state whose derived fields are the solver's answers at the state's
    own dry bulb and humidity ratio and at [pressure]. *)
Definition consistentState (lib : Psychrolib) (system : UnitSystem) (pressure : num)
    (st : PsychroState) : Prop :=
  let t := st_dryBulb st in
  let w := st_humidityRatio st in
  lib_GetTWetBulbFromHumRatio lib system t w pressure = Some (st_wetBulb st) /\
  lib_GetTDewPointFromHumRatio lib system t w pressure = Some (st_dewPoint st) /\
  lib_GetMoistAirEnthalpy lib system t w = Some (st_enthalpy st) /\
  lib_GetMoistAirVolume lib system t w pressure = Some (st_specificVolume st) /\
  lib_GetMoistAirDensity lib system t w pressure = Some (st_density st) /\
  lib_GetVapPresFromHumRatio lib system w pressure = Some (st_vaporPressure st) /\
  lib_GetSatHumRatio lib system t pressure = Some (st_saturationHumidityRatio st).

(** The functions called between two worlds, first call first. *)
Definition functionsCalled (w w' : World) (fns : list SolverFn) : Prop :=
  exists later, callsBetween w w' later /\ map call_fn (rev later) = fns.

(** A dry bulb and a humidity ratio inside the chart extents of a unit
    system. *)
Definition inExtents (system : UnitSystem) (dryBulb humidityRatio : num) : Prop :=
  let extents := getChartExtents system in
  (fst (ext_dryBulb extents) <=? dryBulb) = true /\
  (dryBulb <=? snd (ext_dryBulb extents)) = true /\
  (fst (ext_humidityRatio extents) <=? humidityRatio) = true /\
  (humidityRatio <=? snd (ext_humidityRatio extents)) = true.

(** A pointer event with finite coordinates on a rectangle with finite
    position and size. *)
Definition finitePointer (bounds : Chart.ClientRect) (clientX clientY : num) : Prop :=
  isFinite clientX = true /\ isFinite clientY = true /\
  isFinite (Chart.rect_left bounds) = true /\ isFinite (Chart.rect_top bounds) = true /\
  isFinite (Chart.rect_width bounds) = true /\ isFinite (Chart.rect_height bounds) = true.

End StateSpec.
Import StateSpec.

Module CurveSpec.

(** A point sampled on the walk of the dry bulb from [start] by [step], not
    above [hi]. *)
Definition onWalk (start hi step : num) (p : CurvePoint) : Prop :=
  (exists n, dryBulb p = stepped n start step) /\
  (start <=? dryBulb p) = true /\
  (dryBulb p <=? hi) = true.

(** A point of the relative-humidity curve of [level]: the solver's
    humidity ratio and enthalpy at the point's dry bulb. *)
Definition onRelativeHumidityCurve (lib : Psychrolib) (system : UnitSystem)
    (pressure level : num) (p : CurvePoint) : Prop :=
  lib_GetHumRatioFromRelHum lib system (dryBulb p) level pressure
    = Some (humidityRatio p) /\
  lib_GetMoistAirEnthalpy lib system (dryBulb p) (humidityRatio p) = Some (enthalpy p).

(** A point of the wet-bulb line of [target]: the solver's humidity ratio,
    a finite number, and enthalpy at the point's dry bulb. *)
Definition onWetBulbLine (lib : Psychrolib) (system : UnitSystem)
    (pressure target : num) (p : CurvePoint) : Prop :=
  lib_GetHumRatioFromTWetBulb lib system (dryBulb p) target pressure
    = Some (humidityRatio p) /\
  isFinite (humidityRatio p) = true /\
  lib_GetMoistAirEnthalpy lib system (dryBulb p) (humidityRatio p) = Some (enthalpy p).

(** A point of a specific-volume line: a humidity ratio inside the bracket
    of the search, with the solver's enthalpy. *)
Definition onSpecificVolumeLine (lib : Psychrolib) (system : UnitSystem)
    (pressure : num) (p : CurvePoint) : Prop :=
  inBracket lib system pressure p /\
  lib_GetMoistAirEnthalpy lib system (dryBulb p) (humidityRatio p) = Some (enthalpy p).

(** The curves answer the levels one to one and in order, each with the
    level it was asked for, its points in strictly increasing order of dry
    bulb, and every point as [good] says for that level. *)
Definition curvesOf (good : num -> CurvePoint -> Prop) (levels : list num)
    (curves : list Curve) : Prop :=
  Forall2 (fun target curve =>
             level curve = target /\
             StronglySorted dryBulb_lt (points curve) /\
             Forall (good target) (points curve))
          levels curves.

(** Curves without a point. *)
Definition noPoints (curves : list Curve) : Prop :=
  Forall (fun curve => points curve = []) curves.

(** The world after a run that set the unit system and called nothing. *)
Definition onlyUnitsSet (system : UnitSystem) (w : World) : World :=
  mkWorld (Some system) (calls w).

(** A run that never returns: its outcome is [Diverge] whatever the fuel. *)
Definition neverReturns {A} (run : nat -> M A) (w : World) : Prop :=
  forall fuel, fst (run fuel w) = Diverge.

End CurveSpec.
Import CurveSpec.

Module LevelSpec.

Local Open Scope float_scope.

(** A float that is neither [NaN] nor infinite. *)
Definition finiteLevel (v : float) : bool := abs v <? infinity.

(** A float that is finite and positive. *)
Definition positiveLevel (v : float) : bool := (0 <? v) && finiteLevel v.

End LevelSpec.
Import LevelSpec.

Module PageSpec.

(** The nearest integer, the larger of two equally near. *)
Definition nearest (x : Q) : Z := Qfloor (x + (1 # 2)).

(** Inputs the solver can be asked about: a pressure that is not negative,
    a dry bulb inside the chart extents of the unit system and a relative
    humidity between 0 and 100. *)
Definition validInputs (system : UnitSystem) (i : PsychroInputs) : Prop :=
  (ofZ 0 <=? in_pressure i) = true /\
  (fst (ext_dryBulb (getChartExtents system)) <=? in_dryBulb i) = true /\
  (in_dryBulb i <=? snd (ext_dryBulb (getChartExtents system))) = true /\
  (ofZ 0 <=? in_relativeHumidity i) = true /\
  (in_relativeHumidity i <=? ofZ 100) = true.

(** The events that change the inputs. *)
Inductive InputEvent : Type :=
| Reset
| UnitToggle (next : bool)
| InputChange (key : Page.InputKey) (value : num)
| SliderChange (key : Page.InputKey) (value : num)
| ChartState (state : PsychroState).

Definition handleInputEvent (home : Page.Home) (event : InputEvent) : Page.Home :=
  match event with
  | Reset => Page.handleReset home
  | UnitToggle next => Page.handleUnitToggle next home
  | InputChange key value => Page.handleInputChange key value home
  | SliderChange key value => Page.handleSliderChange key value home
  | ChartState state => Page.handleChartState state home
  end.

(** An event that carries numbers: a slider value, and the dry bulb and
    relative humidity of a selected state, that are not [NaN].  A typed
    value may be anything. *)
Definition carriesNumbers (event : InputEvent) : Prop :=
  match event with
  | SliderChange _ value => isNaN value = false
  | ChartState state =>
      isNaN (st_dryBulb state) = false /\ isNaN (st_relativeHumidity state) = false
  | _ => True
  end.

(** The events that change the saved points and the processes. *)
Inductive PointEvent : Type :=
| CaptureState (psychroState : option PsychroState) (newId : string)
| PointLabelChange (id label : string)
| RemovePoint (id : string)
| ProcessDraftChange (change : Page.DraftChange)
| AddProcess (newId : string)
| RemoveProcess (id : string).

Definition handlePointEvent (home : Page.Home) (event : PointEvent) : Page.Home :=
  match event with
  | CaptureState psychroState newId => Page.handleCaptureState psychroState newId home
  | PointLabelChange id label => Page.handlePointLabelChange id label home
  | RemovePoint id => Page.handleRemovePoint id home
  | ProcessDraftChange change => Page.handleProcessDraftChange change home
  | AddProcess newId => Page.handleAddProcess newId home
  | RemoveProcess id => Page.handleRemoveProcess id home
  end.

Definition pointIds (home : Page.Home) : list string :=
  map Page.sp_id (Page.savedPoints home).

(** An identifier the process form can hold: none, or a saved point's. *)
Definition selectable (home : Page.Home) (id : string) : Prop :=
  id = ""%string \/ In id (pointIds home).

(** An event the page can receive in a state: the two selects of the
    process form offer the saved points and the empty choice. *)
Definition offered (home : Page.Home) (event : PointEvent) : Prop :=
  match event with
  | ProcessDraftChange (Page.SetFromId value) => selectable home value
  | ProcessDraftChange (Page.SetToId value) => selectable home value
  | _ => True
  end.

(** A run of events, each offered in the state it arrives in. *)
Inductive reaches : Page.Home -> list PointEvent -> Page.Home -> Prop :=
| reaches_nil home : reaches home [] home
| reaches_cons home event events home' :
    offered home event ->
    reaches (handlePointEvent home event) events home' ->
    reaches home (event :: events) home'.

(** Each event of a run is offered in the state it arrives in. *)
Fixpoint offeredAlong (home : Page.Home) (events : list PointEvent) : Prop :=
  match events with
  | [] => True
  | event :: events' =>
      offered home event /\ offeredAlong (handlePointEvent home event) events'
  end.

(** Every process joins two different saved points. *)
Definition linked (home : Page.Home) : Prop :=
  Forall (fun process =>
            In (Page.pl_fromId process) (pointIds home) /\
            In (Page.pl_toId process) (pointIds home) /\
            Page.pl_fromId process <> Page.pl_toId process)
         (Page.processes home).

(** The process form holds identifiers it could have been given. *)
Definition draftSelectable (home : Page.Home) : Prop :=
  selectable home (Page.draft_fromId (Page.processDraft home)) /\
  selectable home (Page.draft_toId (Page.processDraft home)).

(** A chart process drawn for a process: same identifier, from the chart
    point of the first saved point's identifier to that of the second. *)
Definition draws (home : Page.Home) (process : Page.ProcessLink)
    (drawn : Page.ChartProcess) : Prop :=
  Page.cp_id drawn = Page.pl_id process /\
  Page.cp_color drawn = Page.PROCESS_COLORS (Page.pl_kind process) /\
  exists from to,
    In from (Page.chartStatePoints home) /\ In to (Page.chartStatePoints home) /\
    Page.csp_id from = Page.pl_fromId process /\
    Page.csp_id to = Page.pl_toId process /\
    Page.cp_points drawn =
      [(Page.csp_dryBulb from, Page.csp_humidityRatio from);
       (Page.csp_dryBulb to, Page.csp_humidityRatio to)].

End PageSpec.
Import PageSpec.
(* ================================================================== *)
(** * Properties *)

(** ** Numbers *)

Module NumFacts.

Lemma leb_Fin (a b : Q) : (Fin a <=? Fin b) = true <-> (a <= b)%Q.
Proof. simpl. apply Qle_bool_iff. Qed.

Lemma ltb_Fin (a b : Q) : (Fin a <? Fin b) = true <-> (a < b)%Q.
Proof.
  simpl. rewrite negb_true_iff. split; intro H.
  - apply Qnot_le_lt. intro Hle. apply Qle_bool_iff in Hle. congruence.
  - destruct (Qle_bool b a) eqn:E; [|reflexivity].
    apply Qle_bool_iff in E. exfalso. eapply Qlt_not_le; eassumption.
Qed.

Lemma leb_Fin_false (a b : Q) : (Fin a <=? Fin b) = false <-> (b < a)%Q.
Proof.
  rewrite <- ltb_Fin. simpl. destruct (Qle_bool a b); simpl; split; congruence.
Qed.

Lemma ltb_Fin_false (a b : Q) : (Fin a <? Fin b) = false <-> (b <= a)%Q.
Proof.
  rewrite <- leb_Fin. simpl. destruct (Qle_bool b a); simpl; split; congruence.
Qed.

Lemma isFinite_Fin (a : num) : isFinite a = true <-> exists q, a = Fin q.
Proof.
  split.
  - destruct a; simpl; try discriminate. intros _. eexists. reflexivity.
  - intros [q ->]. reflexivity.
Qed.

Lemma ltb_leb (a b : num) : (a <? b) = true -> (a <=? b) = true.
Proof.
  destruct a, b; simpl; try congruence. intro H.
  apply Qle_bool_iff. apply Qlt_le_weak. apply (proj1 (ltb_Fin _ _)). exact H.
Qed.

Lemma leb_trans (a b c : num) :
  (a <=? b) = true -> (b <=? c) = true -> (a <=? c) = true.
Proof.
  destruct a, b, c; simpl; try congruence. intros H1 H2.
  apply Qle_bool_iff in H1, H2. apply Qle_bool_iff. eapply Qle_trans; eassumption.
Qed.

Lemma ltb_leb_trans (a b c : num) :
  (a <? b) = true -> (b <=? c) = true -> (a <? c) = true.
Proof.
  destruct a, b, c; simpl; try congruence. intros H1 H2.
  apply (proj1 (ltb_Fin _ _)) in H1. apply Qle_bool_iff in H2.
  apply (proj2 (ltb_Fin _ _)). eapply Qlt_le_trans; eassumption.
Qed.

(** Adding a positive finite step to a finite value moves it up. *)
Lemma add_pos_ltb (t s : Q) : (0 < s)%Q -> (Fin t <? Fin t + Fin s) = true.
Proof.
  intro Hs. apply (proj2 (ltb_Fin _ _)). rewrite Qred_correct. lra.
Qed.

(** [clamp] of anything but [NaN] lands between its bounds. *)
Lemma clamp_bounds (v lo hi : num) :
  isNaN v = false -> (lo <=? hi) = true ->
  (lo <=? clamp v lo hi) = true /\ (clamp v lo hi <=? hi) = true.
Proof.
  unfold clamp, Math_max, Math_min.
  destruct v as [| | |v], lo as [| | |lo], hi as [| | |hi]; simpl;
    try congruence; intros _ H; try (split; reflexivity);
    repeat match goal with
           | |- context [Qle_bool ?a ?b] => destruct (Qle_bool a b) eqn:?; simpl
           end;
    repeat match goal with
           | H : Qle_bool _ _ = true |- _ => apply Qle_bool_iff in H
           | H : Qle_bool _ _ = false |- _ => apply (proj1 (leb_Fin_false _ _)) in H
           end;
    split; try reflexivity; try (apply Qle_bool_iff; lra); try lra.
Qed.

End NumFacts.

(** ** Effects: binds, loops and maps *)

Module EffectFacts.

Lemma bind_Ret_inv {A B} (m : M A) (f : A -> M B) w b w' :
  bind m f w = (Ret b, w') ->
  exists a w1, m w = (Ret a, w1) /\ f a w1 = (Ret b, w').
Proof.
  unfold bind. destruct (m w) as [[a| |] w1]; intro H; try discriminate.
  exists a, w1. split; [reflexivity | exact H].
Qed.

Lemma halts_ret {A} (a : A) : halts (ret a).
Proof. intros w. discriminate. Qed.

Lemma halts_invoke fn args f : halts (invoke fn args f).
Proof.
  intros w. unfold invoke. simpl.
  destruct (units w) as [u|].
  - destruct (f u); simpl; discriminate.
  - simpl. discriminate.
Qed.

Lemma halts_bind {A B} (m : M A) (f : A -> M B) :
  halts m -> (forall a, halts (f a)) -> halts (bind m f).
Proof.
  intros Hm Hf w. unfold bind. specialize (Hm w).
  destruct (m w) as [[a| |] w1]; simpl in *; [apply Hf | congruence | congruence].
Qed.

Lemma halts_if {A} (b : bool) (m1 m2 : M A) :
  halts m1 -> halts m2 -> halts (if b then m1 else m2).
Proof. destruct b; auto. Qed.

(** [try { m } catch { return x }] always returns when [m] halts. *)
Lemma total_tryCatch_ret {A} (m : M A) (x : A) :
  halts m -> total (tryCatch m (ret x)).
Proof.
  intros Hm w. unfold tryCatch, ret. specialize (Hm w).
  destruct (m w) as [[a| |] w1]; simpl in *; try congruence; eauto.
Qed.

(** Partial correctness of a loop: an invariant of the body holds on exit,
    where the condition is false. *)
Lemma forLoop_inv {S} (I : num -> S -> World -> Prop)
    (cond : num -> bool) (update : num -> num) (body : num -> S -> M S) :
  (forall t s w s' w',
      cond t = true -> I t s w -> body t s w = (Ret s', w') -> I (update t) s' w') ->
  forall fuel t s w r w',
    I t s w -> forLoop fuel cond update body t s w = (Ret r, w') ->
    exists t', cond t' = false /\ I t' r w'.
Proof.
  intros Hbody fuel. induction fuel as [|fuel IH]; intros t s w r w' HI Hrun.
  - discriminate.
  - simpl in Hrun. destruct (cond t) eqn:Hc.
    + apply bind_Ret_inv in Hrun. destruct Hrun as (s1 & w1 & Hb & Hrest).
      eapply IH; [|exact Hrest]. eapply Hbody; eassumption.
    + inversion Hrun; subst. exists t. split; assumption.
Qed.

(** A loop whose variable sits at a value the update leaves alone, with
    the condition true there, does not return. *)
Lemma forLoop_fixed {S} (cond : num -> bool) (update : num -> num)
    (body : num -> S -> M S) (t : num) :
  update t = t -> cond t = true ->
  forall fuel s w r w', forLoop fuel cond update body t s w <> (Ret r, w').
Proof.
  intros Hfix Hc fuel. induction fuel as [|fuel IH]; intros s w r w' Hrun.
  - discriminate.
  - simpl in Hrun. rewrite Hc in Hrun.
    apply bind_Ret_inv in Hrun. destruct Hrun as (s1 & w1 & _ & Hrest).
    rewrite Hfix in Hrest. exact (IH _ _ _ _ Hrest).
Qed.

(** Partial correctness of [map]: an invariant of the world which every
    callback keeps, and a relation it establishes between item and result. *)
Lemma mapM_inv {A B} (f : A -> M B) (P : A -> B -> Prop) (J : World -> Prop) :
  (forall x w y w', J w -> f x w = (Ret y, w') -> P x y /\ J w') ->
  forall xs w ys w',
    J w -> mapM f xs w = (Ret ys, w') -> Forall2 P xs ys /\ J w'.
Proof.
  intros Hf xs. induction xs as [|x xs IH]; intros w ys w' HJ Hrun; simpl in Hrun.
  - inversion Hrun; subst. split; [constructor | assumption].
  - apply bind_Ret_inv in Hrun. destruct Hrun as (y & w1 & Hy & Hrun).
    apply bind_Ret_inv in Hrun. destruct Hrun as (ys' & w2 & Hys & Hrun).
    inversion Hrun; subst.
    destruct (Hf _ _ _ _ HJ Hy) as [HP HJ1].
    destruct (IH _ _ _ HJ1 Hys) as [HF HJ2].
    split; [constructor; assumption | assumption].
Qed.

End EffectFacts.

(** ** Constant-enthalpy lines *)

Module EnthalpyFacts.
Import EffectFacts.

Section Enthalpy.

Variable lib : Psychrolib.
Variable system : UnitSystem.
Variables lo hi inc : num.

Lemma inv_world_call (w0 w : World) (args : list num) :
  inv_world system w0 w ->
  inv_world system w0 (mkWorld (units w)
                  (mkCall FnGetTDryBulbFromEnthalpyAndHumRatio args :: calls w)).
Proof.
  intros [Hu (later & Hl & Hf)]. split; [exact Hu|].
  exists (mkCall FnGetTDryBulbFromEnthalpyAndHumRatio args :: later).
  unfold callsBetween in *. simpl. rewrite Hl. split; [reflexivity|].
  constructor; [reflexivity | exact Hf].
Qed.

(** One sample: exactly one inversion call, whatever it answers; the
    point is kept exactly when the solver answers inside the domain. *)
Lemma enthalpySample_run (target h : num) (points : list CurvePoint) (w : World) :
  units w = Some system ->
  enthalpySample lib (lo, hi) target h points w =
  (Ret (enthalpySampled lib system lo hi target h points),
   mkWorld (units w)
     (mkCall FnGetTDryBulbFromEnthalpyAndHumRatio [target; h] :: calls w)).
Proof.
  intros Hu. unfold enthalpySample, enthalpySampled, tryCatch, bind,
    GetTDryBulbFromEnthalpyAndHumRatio, invoke, ret. simpl. rewrite Hu.
  destruct (lib_GetTDryBulbFromEnthalpyAndHumRatio lib system target h) as [d|];
    [|reflexivity].
  unfold geb. destruct (lo <=? d); destruct (d <=? hi); reflexivity.
Qed.

Lemma enthalpySample_Ret (target h : num) (points points' : list CurvePoint)
    (w w' : World) :
  units w = Some system ->
  enthalpySample lib (lo, hi) target h points w = (Ret points', w') ->
  w' = mkWorld (units w)
         (mkCall FnGetTDryBulbFromEnthalpyAndHumRatio [target; h] :: calls w) /\
  (points' = points \/
   exists d,
     lib_GetTDryBulbFromEnthalpyAndHumRatio lib system target h = Some d /\
     (lo <=? d) = true /\ (d <=? hi) = true /\
     points' = points ++ [mkPoint d h target]).
Proof.
  intros Hu Hrun. rewrite (@enthalpySample_run target h points w Hu) in Hrun.
  inversion Hrun; subst. split; [reflexivity|].
  unfold enthalpySampled.
  destruct (lib_GetTDryBulbFromEnthalpyAndHumRatio lib system target h) as [d|];
    [|left; reflexivity].
  destruct (lo <=? d) eqn:H1; destruct (d <=? hi) eqn:H2; simpl;
    try (left; reflexivity).
  right. exists d. auto.
Qed.

Lemma enthalpySample_total (target h : num) (points : list CurvePoint) :
  total (enthalpySample lib (lo, hi) target h points).
Proof.
  apply total_tryCatch_ret. apply halts_bind; [apply halts_invoke|].
  intro d. apply halts_if; apply halts_ret.
Qed.

Lemma enthalpyLine_Ret (fuel : nat) (target : num) (w0 w w' : World) (curve : Curve) :
  inv_world system w0 w ->
  enthalpyLine lib fuel system (lo, hi) inc target w = (Ret curve, w') ->
  (level curve = target /\
   Forall (onEnthalpyLine lib system lo hi inc target) (points curve)) /\
  inv_world system w0 w'.
Proof.
  intros HJ Hrun. unfold enthalpyLine in Hrun.
  apply bind_Ret_inv in Hrun. destruct Hrun as (pts & w1 & Hloop & Hret).
  inversion Hret; subst; clear Hret. simpl.
  pose (I := fun (t : num) (ps : list CurvePoint) (w : World) =>
               inv_world system w0 w /\ (exists n, t = stepped n (ofZ 0) inc) /\
               Forall (onEnthalpyLine lib system lo hi inc target) ps).
  destruct (forLoop_inv I (fun h => h <=? dec 6 100) (fun h => h + inc)
              (enthalpySample lib (lo, hi) target)) with
    (fuel := fuel) (t := ofZ 0) (s := @nil CurvePoint) (w := w) (r := pts) (w' := w')
    as (t' & _ & (HJ' & _ & HF)).
  - intros t ps wa ps' wb Hc (HJa & (n & Hn) & HFa) Hb.
    destruct (enthalpySample_Ret _ _ _ _ (proj1 HJa) Hb) as [-> Hcases].
    split; [apply inv_world_call; exact HJa|].
    split; [exists (S n); simpl; rewrite Hn; reflexivity|].
    destruct Hcases as [->|(d & Hd & H1 & H2 & ->)]; [exact HFa|].
    apply Forall_app. split; [exact HFa|]. constructor; [|constructor].
    unfold onEnthalpyLine. simpl.
    repeat split; eauto.
    intros tol e Hcons Ht Hlo Hhi He.
    apply (Hcons target t d e); auto.
    destruct d, lo, hi; simpl in *; congruence.
  - split; [exact HJ|]. split; [exists O; reflexivity | constructor].
  - exact Hloop.
  - auto.
Qed.

End Enthalpy.

(** Claim C8.  Each sample of an enthalpy line makes exactly one
    inversion call of the solver (no search) and keeps its point exactly
    when the dry bulb answered lies in [lo, hi].  Whatever
    [generateEnthalpyLines] returns has one curve per target, whose level
    is the target and whose every point was produced by such a call at a
    humidity ratio reached from 0 by repeated increments and not above
    0.06, has its dry bulb in [lo, hi], carries the target as its enthalpy
    exactly, and, for a finite target on a finite domain, has the target
    as solver enthalpy within any tolerance the solver's inversion
    honours; and the only solver calls made are those inversions. *)
Theorem generateEnthalpyLines_points
    (lib : Psychrolib) (system : UnitSystem) (pressure lo hi : num)
    (enthalpyValues : option (list num)) (step : option num) (w : World) :
  let targets := orDefault enthalpyValues (defaultEnthalpyValues system) in
  let inc := orDefault step (dec 5 1000) in
  (forall target humidityRatio points w0,
     units w0 = Some system ->
     enthalpySample lib (lo, hi) target humidityRatio points w0 =
     (Ret (enthalpySampled lib system lo hi target humidityRatio points),
      mkWorld (units w0)
        (mkCall FnGetTDryBulbFromEnthalpyAndHumRatio [target; humidityRatio]
           :: calls w0))) /\
  (forall fuel curves w',
     generateEnthalpyLines lib fuel system pressure (lo, hi) enthalpyValues step w
       = (Ret curves, w') ->
     Forall2 (fun target curve =>
                level curve = target /\
                Forall (onEnthalpyLine lib system lo hi inc target) (points curve))
             targets curves /\
     exists later,
       callsBetween w w' later /\
       Forall (fun c => call_fn c = FnGetTDryBulbFromEnthalpyAndHumRatio) later).
Proof.
  intros targets inc.
  split; [intros target h points w0 Hu; apply enthalpySample_run; exact Hu|].
  intros fuel curves w' Hrun.
  assert (Hinc : orDefault step
                   (match system with si => dec 5 1000 | ip => dec 5 1000 end) = inc).
  { subst inc. destruct system; reflexivity. }
  unfold generateEnthalpyLines, withUnitSystem in Hrun. rewrite Hinc in Hrun.
  apply bind_Ret_inv in Hrun. destruct Hrun as ([] & w0 & Hset & Hmap).
  unfold SetUnitSystem in Hset. inversion Hset; subst w0; clear Hset.
  destruct (mapM_inv
              (enthalpyLine lib fuel system (lo, hi) inc)
              (fun target curve =>
                 level curve = target /\
                 Forall (onEnthalpyLine lib system lo hi inc target) (points curve))
              (inv_world system w))
    with (xs := targets) (w := mkWorld (Some system) (calls w))
         (ys := curves) (w' := w') as [HF [_ HJ]].
  - intros x wa y wb HJa Hb. eapply enthalpyLine_Ret; eassumption.
  - split; [reflexivity|]. exists []. split; [reflexivity | constructor].
  - exact Hmap.
  - split; assumption.
Qed.

End EnthalpyFacts.

(** ** [computePsychrometrics] *)

Module ComputeFacts.
Import NumFacts.

Lemma suffix_step (c : Call) (l rest : list Call) (first : Call) :
  (exists later, l = later ++ first :: rest) ->
  exists later, c :: l = later ++ first :: rest.
Proof. intros [later ->]. exists (c :: later). reflexivity. Qed.

Lemma suffix_here (rest : list Call) (first : Call) :
  exists later, first :: rest = later ++ first :: rest.
Proof. exists []. reflexivity. Qed.

(** What the clamp makes of a relative humidity: a percentage below 0
    gives 0 and one above 100 gives 1; anything but [NaN] lands in [0, 1];
    [NaN] stays [NaN]. *)
Lemma fraction_cases (rh : num) :
  let fraction := clamp (rh / ofZ 100) (ofZ 0) (ofZ 1) in
  ((rh <? ofZ 0) = true -> fraction = ofZ 0) /\
  ((rh >? ofZ 100) = true -> fraction = ofZ 1) /\
  (isNaN rh = false ->
     (ofZ 0 <=? fraction) = true /\ (fraction <=? ofZ 1) = true /\
     (ofZ 0 <=? fraction * ofZ 100) = true /\
     (fraction * ofZ 100 <=? ofZ 100) = true) /\
  (isNaN rh = true -> fraction = NaN).
Proof.
  intro fraction.
  split; [|split; [|split]].
  - subst fraction. unfold clamp.
    destruct rh as [| | |q]; simpl; try congruence; try (intros _; reflexivity).
    intro H. apply (proj1 (ltb_Fin _ _)) in H.
    unfold Math_max, Math_min, ofZ, inject_Z in *. simpl.
    assert (E : Qle_bool (Qred (q / (100 # 1))) 0 = true).
    { apply Qle_bool_iff. rewrite Qred_correct.
      apply Qle_shift_div_r; [reflexivity|]. lra. }
    rewrite E. reflexivity.
  - subst fraction. unfold clamp.
    destruct rh as [| | |q]; simpl; try congruence; try (intros _; reflexivity).
    unfold gtb. intro H. apply (proj1 (ltb_Fin _ _)) in H.
    unfold Math_max, Math_min, ofZ, inject_Z in *. simpl.
    assert (Hq : (1 < Qred (q / (100 # 1)))%Q).
    { rewrite Qred_correct. apply Qlt_shift_div_l; [reflexivity|]. lra. }
    assert (E1 : Qle_bool (Qred (q / (100 # 1))) 0 = false).
    { apply (proj2 (leb_Fin_false _ _)). lra. }
    rewrite E1. simpl.
    assert (E2 : Qle_bool (Qred (q / (100 # 1))) 1 = false).
    { apply (proj2 (leb_Fin_false _ _)). exact Hq. }
    rewrite E2. reflexivity.
  - intro Hnan.
    assert (Hdiv : isNaN (rh / ofZ 100) = false).
    { destruct rh; simpl in *; congruence. }
    destruct (clamp_bounds (rh / ofZ 100) (ofZ 0) (ofZ 1) Hdiv eq_refl) as [Hlo Hhi].
    fold fraction in Hlo, Hhi.
    split; [exact Hlo|]. split; [exact Hhi|].
    destruct fraction as [| | |f]; simpl in Hlo, Hhi; try congruence.
    apply Qle_bool_iff in Hlo, Hhi. simpl.
    unfold inject_Z in *.
    split; apply Qle_bool_iff; rewrite Qred_correct; lra.
  - subst fraction. destruct rh; simpl; try congruence; intros _; reflexivity.
Qed.

(** Claim C10, amended.  For every input and every solver,
    [computePsychrometrics] divides the relative-humidity percentage by
    100, passes the quotient through [clamp (., 0, 1)] and hands the result
    to the solver in its first call; the result is [null] or a state whose
    [relativeHumidity] is that fraction times 100.  A percentage below 0
    gives the fraction 0 and one above 100 the fraction 1.  For every
    relative humidity but [NaN] the fraction lies in [0, 1] and a state
    returned has its [relativeHumidity] in [0, 100].  [NaN] passes the
    clamp unchanged: the solver is asked about a fraction [NaN], and the
    result is [null] whenever the solver refuses that query. *)
Theorem computePsychrometrics_relativeHumidity
    (lib : Psychrolib) (inputs : PsychroInputs) (system : UnitSystem) (w : World) :
  let rh := in_relativeHumidity inputs in
  let fraction := clamp (rh / ofZ 100) (ofZ 0) (ofZ 1) in
  let run := computePsychrometrics lib inputs system w in
  (exists later,
     calls (snd run) =
     later ++ mkCall FnGetHumRatioFromRelHum
                [in_dryBulb inputs; fraction; in_pressure inputs] :: calls w) /\
  (fst run = Ret None \/
   exists st, fst run = Ret (Some st) /\
     st_relativeHumidity st = fraction * ofZ 100) /\
  ((rh <? ofZ 0) = true -> fraction = ofZ 0) /\
  ((rh >? ofZ 100) = true -> fraction = ofZ 1) /\
  (isNaN rh = false ->
     (ofZ 0 <=? fraction) = true /\ (fraction <=? ofZ 1) = true /\
     forall st, fst run = Ret (Some st) ->
       (ofZ 0 <=? st_relativeHumidity st) = true /\
       (st_relativeHumidity st <=? ofZ 100) = true) /\
  (isNaN rh = true ->
     fraction = NaN /\
     (lib_GetHumRatioFromRelHum lib system (in_dryBulb inputs) NaN (in_pressure inputs)
        = None ->
      fst run = Ret None)).
Proof.
  intros rh fraction run.
  destruct (fraction_cases rh) as (Hneg & Hbig & Hrange & Hnan).
  fold fraction in Hneg, Hbig, Hrange, Hnan.
  assert (Hrun :
    (exists later,
       calls (snd run) =
       later ++ mkCall FnGetHumRatioFromRelHum
                  [in_dryBulb inputs; fraction; in_pressure inputs] :: calls w) /\
    (fst run = Ret None \/
     exists st, fst run = Ret (Some st) /\
       st_relativeHumidity st = fraction * ofZ 100) /\
    (lib_GetHumRatioFromRelHum lib system (in_dryBulb inputs) fraction
       (in_pressure inputs) = None -> fst run = Ret None)).
  { subst run. unfold computePsychrometrics. fold rh. fold fraction.
    unfold withUnitSystem, SetUnitSystem, tryCatch, bind,
      GetHumRatioFromRelHum, GetTWetBulbFromHumRatio, GetTDewPointFromHumRatio,
      GetMoistAirEnthalpy, GetMoistAirVolume, GetMoistAirDensity,
      GetVapPresFromHumRatio, GetSatHumRatio, invoke, ret.
    simpl.
    destruct (lib_GetHumRatioFromRelHum lib system (in_dryBulb inputs) fraction
                (in_pressure inputs)) as [hr|]; simpl.
    - repeat match goal with
             | |- context [match ?f lib system ?a ?b ?c with _ => _ end] =>
                 destruct (f lib system a b c); simpl
             | |- context [match ?f lib system ?a ?b with _ => _ end] =>
                 destruct (f lib system a b); simpl
             end;
        (split; [ repeat first [ apply suffix_here | apply suffix_step ] | ]);
        (split; [|discriminate]);
        try (left; reflexivity).
      right. eexists. split; reflexivity.
    - split; [apply suffix_here|]. split; [left; reflexivity | reflexivity]. }
  destruct Hrun as (Hcall & Hres & Hnone).
  split; [exact Hcall|]. split; [exact Hres|].
  split; [exact Hneg|]. split; [exact Hbig|].
  split.
  - intro H. destruct (Hrange H) as (H0 & H1 & H2 & H3).
    split; [exact H0|]. split; [exact H1|].
    intros st Hst. destruct Hres as [Hn|(st' & Hs & Hrh)]; [congruence|].
    rewrite Hs in Hst. inversion Hst; subst st'. rewrite Hrh. split; assumption.
  - intro H. specialize (Hnan H). split; [exact Hnan|].
    rewrite Hnan in Hnone. exact Hnone.
Qed.

(** Claim C10 as stated fails on a relative humidity of [NaN], whatever
    the solver: the clamp lets [NaN] through, so the fraction handed to the
    solver's first call is [NaN], which is not in [0, 1]. *)
Lemma computePsychrometrics_nan_reaches_solver :
  clamp (NaN / ofZ 100) (ofZ 0) (ofZ 1) = NaN /\
  ((ofZ 0 <=? NaN) && (NaN <=? ofZ 1)) = false /\
  firstQueryFraction (mkInputs (ofZ 101325) (ofZ 26) NaN) NaN.
Proof.
  split; [reflexivity|]. split; [reflexivity|].
  intros lib system w.
  unfold computePsychrometrics.
  unfold withUnitSystem, SetUnitSystem, tryCatch, bind,
    GetHumRatioFromRelHum, GetTWetBulbFromHumRatio, GetTDewPointFromHumRatio,
    GetMoistAirEnthalpy, GetMoistAirVolume, GetMoistAirDensity,
    GetVapPresFromHumRatio, GetSatHumRatio, invoke, ret.
  simpl.
  repeat match goal with
         | |- context [match ?f lib system ?a ?b ?c with _ => _ end] =>
             destruct (f lib system a b c); simpl
         | |- context [match ?f lib system ?a ?b with _ => _ end] =>
             destruct (f lib system a b); simpl
         end;
    repeat first [ apply suffix_here | apply suffix_step ].
Qed.

End ComputeFacts.

(** ** Invalid target levels *)

Module TargetFacts.

Section Targets.

Variable lib : Psychrolib.
Variable fuel : nat.
Variable system : UnitSystem.
Variable pressure : num.
Variable dryBulbRange : num * num.
Variables step tolerance : num.

Lemma wetBulbLine_not_finite (target : num) (w : World) :
  isFinite target = false ->
  exists curve,
    wetBulbLine lib fuel pressure dryBulbRange step target w = (Ret curve, w) /\
    level curve = target /\ points curve = [].
Proof.
  intro H. unfold wetBulbLine. rewrite H. simpl.
  eexists. split; [reflexivity|]. split; reflexivity.
Qed.

Lemma specificVolumeLine_invalid (target : num) (w : World) :
  isFinite target = false \/ (target <=? ofZ 0) = true ->
  exists curve,
    specificVolumeLine lib fuel system pressure dryBulbRange step tolerance target w
      = (Ret curve, w) /\
    level curve = target /\ points curve = [].
Proof.
  intro H. unfold specificVolumeLine.
  assert (E : negb (isFinite target) || (target <=? ofZ 0) = true).
  { destruct H as [H|H]; rewrite H; [reflexivity | apply orb_true_r]. }
  rewrite E. eexists. split; [reflexivity|]. split; reflexivity.
Qed.

(** A [map] whose callback returns at once on every item leaves the world
    as it found it. *)
Lemma mapM_untouched (f : num -> M Curve) (invalid : num -> Prop)
    (targets : list num) (w : World) :
  (forall target w0, invalid target ->
     exists curve, f target w0 = (Ret curve, w0) /\
                   level curve = target /\ points curve = []) ->
  Forall invalid targets ->
  exists curves,
    mapM f targets w = (Ret curves, w) /\
    Forall2 (fun target curve => level curve = target /\ points curve = [])
            targets curves.
Proof.
  intros Hf Hall. induction Hall as [|target targets Ht _ IH]; simpl.
  - exists []. split; [reflexivity | constructor].
  - destruct (Hf target w Ht) as (curve & Hc & Hl & Hp).
    destruct IH as (curves & Hcs & HF).
    exists (curve :: curves). unfold bind. rewrite Hc, Hcs.
    split; [reflexivity|]. constructor; auto.
Qed.

End Targets.

(** Claim C4, amended.  A wet-bulb target that is not finite ([NaN]
    included), and a specific-volume target that is not finite or not
    positive, gets an empty curve at once: the callback returns without
    touching the world, so no solver call is made for that level; and a
    generator given only such targets returns one empty curve per target
    having made no solver call at all. *)
Theorem invalid_target_short_circuits
    (lib : Psychrolib) (fuel : nat) (system : UnitSystem) (pressure : num)
    (dryBulbRange : num * num) (step : num) (tolerance : option num) (w : World) :
  (forall target, isFinite target = false ->
     exists curve,
       wetBulbLine lib fuel pressure dryBulbRange step target w = (Ret curve, w) /\
       level curve = target /\ points curve = []) /\
  (forall target, isFinite target = false \/ (target <=? ofZ 0) = true ->
     exists curve,
       specificVolumeLine lib fuel system pressure dryBulbRange step
         (orDefault tolerance (dec 1 10000)) target w = (Ret curve, w) /\
       level curve = target /\ points curve = []) /\
  (forall targets, Forall (fun target => isFinite target = false) targets ->
     exists curves,
       generateWetBulbLines lib fuel system pressure dryBulbRange targets step w
         = (Ret curves, mkWorld (Some system) (calls w)) /\
       Forall2 (fun target curve => level curve = target /\ points curve = [])
               targets curves) /\
  (forall targets,
     Forall (fun target => isFinite target = false \/ (target <=? ofZ 0) = true)
            targets ->
     exists curves,
       generateSpecificVolumeLines lib fuel system pressure dryBulbRange targets step
         tolerance w = (Ret curves, mkWorld (Some system) (calls w)) /\
       Forall2 (fun target curve => level curve = target /\ points curve = [])
               targets curves).
Proof.
  split; [|split; [|split]].
  - intros target H. apply wetBulbLine_not_finite. exact H.
  - intros target H. apply specificVolumeLine_invalid. exact H.
  - intros targets H. unfold generateWetBulbLines, withUnitSystem, bind, SetUnitSystem.
    apply mapM_untouched with (invalid := fun target => isFinite target = false).
    + intros target w0 Ht. apply wetBulbLine_not_finite. exact Ht.
    + exact H.
  - intros targets H.
    unfold generateSpecificVolumeLines, withUnitSystem, bind, SetUnitSystem.
    apply mapM_untouched
      with (invalid := fun target => isFinite target = false \/ (target <=? ofZ 0) = true).
    + intros target w0 Ht. apply specificVolumeLine_invalid. exact Ht.
    + exact H.
Qed.

(** A wet-bulb target of [NaN] and a specific-volume target of [-1], on a
    solver that answers 1. *)
Lemma invalid_target_short_circuits_witness :
  isFinite NaN = false /\
  (isFinite (ofZ (-1)) = false \/ (ofZ (-1) <=? ofZ 0) = true) /\
  (exists curve,
     wetBulbLine (constantSolver (ofZ 1)) 5 (ofZ 101325) (ofZ 0, ofZ 1) (ofZ 1) NaN
       initialWorld = (Ret curve, initialWorld) /\
     level curve = NaN /\ points curve = []) /\
  (exists curve,
     specificVolumeLine (constantSolver (ofZ 1)) 5 si (ofZ 101325) (ofZ 0, ofZ 1)
       (ofZ 1) (orDefault None (dec 1 10000)) (ofZ (-1)) initialWorld
       = (Ret curve, initialWorld) /\
     level curve = ofZ (-1) /\ points curve = []).
Proof.
  pose proof (invalid_target_short_circuits (constantSolver (ofZ 1)) 5 si (ofZ 101325)
                (ofZ 0, ofZ 1) (ofZ 1) None initialWorld) as H.
  split; [reflexivity|].
  split; [right; reflexivity|].
  split.
  - exact (proj1 H NaN eq_refl).
  - exact (proj1 (proj2 H) (ofZ (-1)) (or_intror eq_refl)).
Defined.

(** Claim C4 as stated fails for a non-positive wet-bulb target: at the
    target [-5] (a level the chart requests) the wet-bulb generator samples
    the domain, calls the solver and returns points. *)
Lemma wetBulb_nonpositive_target_is_sampled :
  exists curve w',
    generateWetBulbLines (constantSolver (ofZ 1)) 5 si (ofZ 101325) (ofZ 0, ofZ 1)
      [ofZ (-5)] (ofZ 1) initialWorld = (Ret [curve], w') /\
    (level curve <=? ofZ 0) = true /\
    List.length (points curve) = 2%nat /\
    List.length (calls w') = 4%nat.
Proof.
  eexists. eexists. split; [vm_compute; reflexivity|].
  split; [|split]; reflexivity.
Qed.

End TargetFacts.

(** ** The saturation curve *)

Module SaturationFacts.
Import EffectFacts NumFacts.

Lemma num_ltb_trans (a b c : num) :
  (a <? b) = true -> (b <? c) = true -> (a <? c) = true.
Proof.
  intros H1 H2. eapply ltb_leb_trans; [exact H1 | apply ltb_leb; exact H2].
Qed.

Lemma StronglySorted_snoc {A} (R : A -> A -> Prop) (l : list A) (x : A) :
  StronglySorted R l -> Forall (fun y => R y x) l -> StronglySorted R (l ++ [x]).
Proof.
  intros Hs Hf. induction Hs as [|a l Hs IH Ha]; simpl.
  - constructor; constructor.
  - inversion Hf; subst. constructor; [apply IH; assumption|].
    apply Forall_app. split; [assumption | constructor; [assumption | constructor]].
Qed.

Lemma StronglySorted_weaken {A} (P : A -> Prop) (R R' : A -> A -> Prop) (l : list A) :
  (forall x y, P x -> P y -> R x y -> R' x y) ->
  Forall P l -> StronglySorted R l -> StronglySorted R' l.
Proof.
  intros HR HP Hs. induction Hs as [|a l Hs IH Ha].
  - constructor.
  - inversion HP; subst. constructor; [apply IH; assumption|].
    rewrite Forall_forall in *. intros y Hy. apply HR; auto.
Qed.

Section Saturation.

Variable lib : Psychrolib.
Variable system : UnitSystem.
Variable pressure : num.

(** One sample: on success the point pushed has the sample as dry bulb and
    the solver's saturation humidity ratio, whatever that number is. *)
Lemma saturationSample_Ret (t : num) (points points' : list CurvePoint)
    (w w' : World) :
  units w = Some system ->
  saturationSample lib pressure t points w = (Ret points', w') ->
  units w' = Some system /\
  (points' = points \/
   exists hr e,
     lib_GetSatHumRatio lib system t pressure = Some hr /\
     lib_GetMoistAirEnthalpy lib system t hr = Some e /\
     points' = points ++ [mkPoint t hr e]).
Proof.
  intro Hu. unfold saturationSample, tryCatch, bind, GetSatHumRatio,
    GetMoistAirEnthalpy, invoke, ret. simpl. rewrite Hu.
  destruct (lib_GetSatHumRatio lib system t pressure) as [hr|] eqn:Hhr; simpl.
  - destruct (lib_GetMoistAirEnthalpy lib system t hr) as [e|] eqn:He; simpl;
      intro H; inversion H; subst; simpl; (split; [reflexivity|]); auto.
    right. exists hr, e. auto.
  - intro H. inversion H; subst. simpl. auto.
Qed.

Lemma saturationSample_total (t : num) (points : list CurvePoint) :
  total (saturationSample lib pressure t points).
Proof.
  apply total_tryCatch_ret. apply halts_bind; [apply halts_invoke|].
  intro hr. apply halts_bind; [apply halts_invoke|]. intro e. apply halts_ret.
Qed.

Variables lo hi : num.
Variable s : Q.
Hypothesis s_pos : (0 < s)%Q.

Let good (p : CurvePoint) : Prop :=
  onSaturationCurve lib system pressure lo hi (Fin s) p.

(** The loop from a finite start: the loop variable stays at or above
    [lo], the points stay below it and in increasing order of dry bulb. *)
Lemma saturationLoop_finite (fuel : nat) (l : Q) (w w' : World)
    (points : list CurvePoint) :
  lo = Fin l ->
  units w = Some system ->
  forLoop fuel (fun t => t <=? hi) (fun t => t + Fin s)
    (saturationSample lib pressure) lo [] w = (Ret points, w') ->
  StronglySorted dryBulb_lt points /\ Forall good points.
Proof.
  intros Hlo Hu Hrun.
  pose (I := fun (t : num) (ps : list CurvePoint) (wa : World) =>
               units wa = Some system /\
               (exists n q, t = Fin q /\ t = stepped n lo (Fin s)) /\
               (lo <=? t) = true /\
               Forall (fun p => (dryBulb p <? t) = true) ps /\
               StronglySorted dryBulb_lt ps /\ Forall good ps).
  destruct (forLoop_inv I (fun t => t <=? hi) (fun t => t + Fin s)
              (saturationSample lib pressure)) with
    (fuel := fuel) (t := lo) (s := @nil CurvePoint) (w := w) (r := points) (w' := w')
    as (t' & _ & (_ & _ & _ & _ & Hs & Hg)).
  - intros t ps wa ps' wb Hc (Hua & (n & q & Hq & Hn) & Hge & Hlt & Hs & Hg) Hb.
    destruct (saturationSample_Ret _ _ _ Hua Hb) as [Hub Hcases].
    assert (Hup : (t <? t + Fin s) = true).
    { rewrite Hq. apply add_pos_ltb. exact s_pos. }
    assert (Hlt' : Forall (fun p => (dryBulb p <? t + Fin s) = true) ps).
    { eapply Forall_impl; [|exact Hlt]. intros p Hp. simpl in Hp.
      eapply num_ltb_trans; eassumption. }
    split; [exact Hub|].
    split.
    { exists (S n), (Qred (q + s)). split; [rewrite Hq; reflexivity|].
      simpl. rewrite <- Hn. reflexivity. }
    split.
    { eapply leb_trans; [exact Hge | apply ltb_leb; exact Hup]. }
    destruct Hcases as [->|(hr & e & Hhr & He & ->)].
    + repeat split; assumption.
    + split; [|split].
      * apply Forall_app. split; [exact Hlt'|]. constructor; [exact Hup | constructor].
      * apply StronglySorted_snoc; [exact Hs|].
        eapply Forall_impl; [|exact Hlt]. intros p Hp. exact Hp.
      * apply Forall_app. split; [exact Hg|]. constructor; [|constructor].
        unfold good, onSaturationCurve. simpl.
        split; [exists n; exact Hn|]. split; [exact Hge|]. split; [exact Hc|].
        split; [exact Hhr | exact He].
  - split; [exact Hu|]. split; [exists O, l; split; [exact Hlo | reflexivity]|].
    split; [rewrite Hlo; apply (proj2 (leb_Fin _ _)); apply Qle_refl|].
    repeat split; constructor.
  - exact Hrun.
  - split; assumption.
Qed.

(** From a start that is not finite the loop never moves, so it returns
    only when it does not run at all. *)
Lemma saturationLoop_not_finite (fuel : nat) (w w' : World)
    (points : list CurvePoint) :
  isFinite lo = false ->
  forLoop fuel (fun t => t <=? hi) (fun t => t + Fin s)
    (saturationSample lib pressure) lo [] w = (Ret points, w') ->
  points = [].
Proof.
  intros Hlo Hrun.
  destruct (lo <=? hi) eqn:Hc.
  - exfalso.
    pose (I := fun (t : num) (ps : list CurvePoint) (wa : World) => t = lo).
    destruct (forLoop_inv I (fun t => t <=? hi) (fun t => t + Fin s)
                (saturationSample lib pressure)) with
      (fuel := fuel) (t := lo) (s := @nil CurvePoint) (w := w) (r := points) (w' := w')
      as (t' & Hc' & Ht').
    + intros t ps wa ps' wb _ Ht _. unfold I in *. subst t.
      destruct lo; simpl in *; congruence.
    + reflexivity.
    + exact Hrun.
    + unfold I in Ht'. subst t'. congruence.
  - destruct fuel as [|fuel]; [discriminate|].
    simpl in Hrun. rewrite Hc in Hrun. inversion Hrun. reflexivity.
Qed.

Lemma saturationLoop_sorted (fuel : nat) (w w' : World) (points : list CurvePoint) :
  units w = Some system ->
  forLoop fuel (fun t => t <=? hi) (fun t => t + Fin s)
    (saturationSample lib pressure) lo [] w = (Ret points, w') ->
  StronglySorted dryBulb_lt points /\ Forall good points.
Proof.
  intros Hu Hrun. destruct (isFinite lo) eqn:Hf.
  - apply isFinite_Fin in Hf. destruct Hf as [l Hl].
    eapply saturationLoop_finite; eassumption.
  - assert (E : points = []) by (eapply saturationLoop_not_finite; eassumption).
    rewrite E. split; constructor.
Qed.

End Saturation.

(** With the step [+Infinity] the loop takes the sample at [lo] and
    leaves, or never returns (when [hi] is [+Infinity] too). *)
Lemma saturationLoop_infinite_step (lib : Psychrolib) (system : UnitSystem)
    (pressure lo hi : num) (fuel : nat) (w w' : World) (points : list CurvePoint) :
  units w = Some system ->
  forLoop fuel (fun t => t <=? hi) (fun t => t + PInf)
    (saturationSample lib pressure) lo [] w = (Ret points, w') ->
  StronglySorted dryBulb_lt points /\
  Forall (onSaturationCurve lib system pressure lo hi PInf) points.
Proof.
  intros Hu Hrun.
  destruct fuel as [|fuel]; [discriminate|]. simpl in Hrun.
  destruct (lo <=? hi) eqn:Hc.
  - apply bind_Ret_inv in Hrun. destruct Hrun as (ps1 & w1 & Hb & Hrest).
    destruct (@saturationSample_Ret lib system pressure lo [] ps1 w w1 Hu Hb)
      as [_ Hcases].
    destruct (lo + PInf <=? hi) eqn:Hc1.
    + exfalso.
      assert (E : lo + PInf = PInf).
      { destruct lo, hi; simpl in *; try discriminate; reflexivity. }
      rewrite E in Hrest, Hc1.
      exact (@forLoop_fixed _ (fun t => t <=? hi) (fun t => t + PInf)
               (saturationSample lib pressure) PInf eq_refl Hc1 _ _ _ _ _ Hrest).
    + destruct fuel as [|fuel]; [discriminate|]. simpl in Hrest.
      rewrite Hc1 in Hrest. inversion Hrest; subst.
      destruct Hcases as [->|(hr & e & Hhr & He & ->)].
      * split; constructor.
      * split; [repeat constructor|].
        constructor; [|constructor]. unfold onSaturationCurve. simpl.
        split; [exists O; reflexivity|].
        split; [destruct lo, hi; simpl in *; try discriminate; try reflexivity;
                apply Qle_bool_iff; apply Qle_refl|].
        split; [exact Hc|]. split; [exact Hhr | exact He].
  - inversion Hrun; subst. split; constructor.
Qed.

(** Every positive step, finite or not. *)
Lemma saturationLoop_positive_step (lib : Psychrolib) (system : UnitSystem)
    (pressure lo hi step : num) (fuel : nat) (w w' : World)
    (points : list CurvePoint) :
  (ofZ 0 <? step) = true ->
  units w = Some system ->
  forLoop fuel (fun t => t <=? hi) (fun t => t + step)
    (saturationSample lib pressure) lo [] w = (Ret points, w') ->
  StronglySorted dryBulb_lt points /\
  Forall (onSaturationCurve lib system pressure lo hi step) points.
Proof.
  intros Hstep Hu Hrun. destruct step as [| | |s]; simpl in Hstep; try discriminate.
  - eapply saturationLoop_infinite_step; eassumption.
  - assert (Hs : (0 < s)%Q) by (apply (proj1 (ltb_Fin _ _)); exact Hstep).
    eapply saturationLoop_sorted; eassumption.
Qed.

(** X19.  For every solver, unit system, pressure, domain and positive
    step (the infinite one included), whatever [generateSaturationCurve]
    returns has its points in the order they were sampled (no sort is
    made), with strictly increasing dry bulb; each point is a sample of
    the walk from [lo], inside [lo, hi], and carries the solver's
    saturation humidity ratio and enthalpy at its dry bulb, whatever
    numbers they are; so the humidity ratios do not decrease whenever the
    solver's saturation humidity ratio does not decrease with the dry bulb
    over [lo, hi] at that pressure. *)
Theorem generateSaturationCurve_points
    (lib : Psychrolib) (system : UnitSystem) (pressure lo hi : num)
    (step : option num) (fuel : nat) (w w' : World) (curve : SaturationCurve) :
  let inc := orDefault step (match system with si => dec 1 2 | ip => ofZ 1 end) in
  (ofZ 0 <? inc) = true ->
  generateSaturationCurve lib fuel system pressure (lo, hi) step w = (Ret curve, w') ->
  StronglySorted dryBulb_lt (sat_points curve) /\
  Forall (onSaturationCurve lib system pressure lo hi inc) (sat_points curve) /\
  (saturation_monotone lib system pressure lo hi ->
   StronglySorted humidityRatio_le (sat_points curve)).
Proof.
  intros inc Hstep Hrun.
  unfold generateSaturationCurve, withUnitSystem in Hrun. fold inc in Hrun.
  apply bind_Ret_inv in Hrun. destruct Hrun as ([] & w0 & Hset & Hrun).
  unfold SetUnitSystem in Hset. inversion Hset; subst w0; clear Hset.
  apply bind_Ret_inv in Hrun. destruct Hrun as (pts & w1 & Hloop & Hret).
  inversion Hret; subst; clear Hret. simpl in *.
  destruct (@saturationLoop_positive_step lib system pressure lo hi inc fuel
              (mkWorld (Some system) (calls w)) _ _ Hstep eq_refl Hloop)
    as [Hsorted Hgood].
  split; [exact Hsorted|]. split; [exact Hgood|].
  intro Hmono.
  eapply StronglySorted_weaken with
    (P := onSaturationCurve lib system pressure lo hi inc); [|exact Hgood|exact Hsorted].
  intros p q (_ & Hlp & _ & Hp & _) (_ & _ & Hqh & Hq & _) Hpq.
  unfold humidityRatio_le.
  eapply Hmono; [exact Hlp | apply ltb_leb; exact Hpq | exact Hqh | exact Hp | exact Hq].
Qed.

End SaturationFacts.

Module SaturationWitness.
Import SaturationFacts NumFacts.

Lemma saturationSolver_monotone (pressure lo hi : num) :
  saturation_monotone saturationSolver si pressure lo hi.
Proof.
  intros t1 t2 w1 w2 _ Hle _ H1 H2. simpl in H1, H2.
  destruct t1 as [| | |a], t2 as [| | |b]; simpl in *; try discriminate.
  inversion H1; inversion H2; subst. apply Qle_bool_iff in Hle.
  apply Qle_bool_iff. rewrite !Qred_correct.
  unfold Qdiv. apply Qmult_le_compat_r; [|discriminate].
  unfold inject_Z. lra.
Qed.

(** Three samples from 0 to 2 by steps of 1 on [saturationSolver]. *)
Lemma generateSaturationCurve_points_witness :
  exists curve w',
    generateSaturationCurve saturationSolver 4 si (ofZ 101325) (ofZ 0, ofZ 2)
      (Some (ofZ 1)) initialWorld = (Ret curve, w') /\
    map dryBulb (sat_points curve) = [ofZ 0; ofZ 1; ofZ 2] /\
    map humidityRatio (sat_points curve) = [dec 30 1000; dec 31 1000; dec 32 1000] /\
    StronglySorted dryBulb_lt (sat_points curve) /\
    StronglySorted humidityRatio_le (sat_points curve).
Proof.
  assert (H1 : (ofZ 0 <? orDefault (Some (ofZ 1)) (dec 1 2)) = true) by reflexivity.
  eexists. eexists.
  split; [vm_compute; reflexivity|].
  split; [vm_compute; reflexivity|].
  split; [vm_compute; reflexivity|].
  assert (Hrun :
    generateSaturationCurve saturationSolver 4 si (ofZ 101325) (ofZ 0, ofZ 2)
      (Some (ofZ 1)) initialWorld
    = (Ret (mkSaturationCurve [Lit "saturation"] [Lit "100% RH"]
              [mkPoint (ofZ 0) (dec 30 1000) (dec 30 1000);
               mkPoint (ofZ 1) (dec 31 1000) (dec 1031 1000);
               mkPoint (ofZ 2) (dec 32 1000) (dec 2032 1000)]),
       mkWorld (Some si)
         [mkCall FnGetMoistAirEnthalpy [ofZ 2; dec 32 1000];
          mkCall FnGetSatHumRatio [ofZ 2; ofZ 101325];
          mkCall FnGetMoistAirEnthalpy [ofZ 1; dec 31 1000];
          mkCall FnGetSatHumRatio [ofZ 1; ofZ 101325];
          mkCall FnGetMoistAirEnthalpy [ofZ 0; dec 30 1000];
          mkCall FnGetSatHumRatio [ofZ 0; ofZ 101325]])).
  { vm_compute. reflexivity. }
  pose proof (@generateSaturationCurve_points saturationSolver si (ofZ 101325)
                (ofZ 0) (ofZ 2) (Some (ofZ 1)) 4 initialWorld _ _ H1 Hrun)
    as (Hd & _ & Hh).
  split; [exact Hd|].
  exact (Hh (saturationSolver_monotone (ofZ 101325) (ofZ 0) (ofZ 2))).
Defined.


End SaturationWitness.

(** ** Samples the solver answers with a non-finite number *)

Module NonFiniteFacts.

(** Claim C1 (the code departs from it).  On a solver that answers [NaN]
    for the humidity ratio at dry bulb 1, [generateSaturationCurve] and
    [generateRelativeHumidityCurves] over the samples 0, 1, 2 keep the
    sample at 1: the returned curve has a point whose [humidityRatio] is
    not finite. *)
Theorem saturation_and_relativeHumidity_keep_non_finite :
  (exists curve w',
     generateSaturationCurve nanAtOneSolver 4 si (ofZ 101325) (ofZ 0, ofZ 2)
       (Some (ofZ 1)) initialWorld = (Ret curve, w') /\
     map dryBulb (sat_points curve) = [ofZ 0; ofZ 1; ofZ 2] /\
     map (fun p => isFinite (humidityRatio p)) (sat_points curve)
       = [true; false; true]) /\
  (exists curve w',
     generateRelativeHumidityCurves nanAtOneSolver 4 si (ofZ 101325) (ofZ 0, ofZ 2)
       (Some [dec 5 10]) (Some (ofZ 1)) initialWorld = (Ret [curve], w') /\
     map dryBulb (points curve) = [ofZ 0; ofZ 1; ofZ 2] /\
     map (fun p => isFinite (humidityRatio p)) (points curve)
       = [true; false; true]).
Proof.
  split; eexists; eexists; (split; [vm_compute; reflexivity|]); split; reflexivity.
Qed.

(** The wet-bulb generator on the same solver and samples drops the sample
    at 1, as its guard on [Number.isFinite] intends. *)
Lemma wetBulb_drops_non_finite :
  exists curve w',
    generateWetBulbLines nanAtOneSolver 4 si (ofZ 101325) (ofZ 0, ofZ 2)
      [ofZ 0] (ofZ 1) initialWorld = (Ret [curve], w') /\
    map dryBulb (points curve) = [ofZ 0; ofZ 2] /\
    map (fun p => isFinite (humidityRatio p)) (points curve) = [true; true].
Proof.
  eexists. eexists. split; [vm_compute; reflexivity|]. split; reflexivity.
Qed.

(** Claim C2 (the code departs from it).  On [volumeSolver] at standard
    pressure the specific volume ranges over [0.8, 0.82]; for the target
    1.1 the search never comes within tolerance, and after its 25
    iterations the last midpoint is emitted all the same: the curve has a
    point whose specific volume is farther than 1e-4 from the target. *)
Theorem specificVolume_emits_unconverged_estimate :
  exists p w' v,
    generateSpecificVolumeLines volumeSolver 2 si (ofZ 101325) (ofZ 0, ofZ 0)
      [dec 11 10] (ofZ 1) None initialWorld
      = (Ret [mkCurve [Lit "sv-"; Num (dec 11 10)] [Fixed 2 (dec 11 10)]
                (dec 11 10) [p]], w') /\
    lib_GetMoistAirVolume volumeSolver si (dryBulb p) (humidityRatio p) (ofZ 101325)
      = Some v /\
    (Math_abs (v - dec 11 10) <=? dec 1 10000) = false /\
    List.length (filter (fun c => match call_fn c with
                                  | FnGetMoistAirVolume => true
                                  | _ => false
                                  end) (calls w')) = 25%nat.
Proof.
  eexists. eexists. eexists. split; [vm_compute; reflexivity|].
  split; [vm_compute; reflexivity|]. split; vm_compute; reflexivity.
Qed.

(** Claim C3 (the code departs from it).  On [volumeSolver] at pressure 0
    the specific volume is infinite: the first volume query of the sample
    answers a non-finite number, the search stops after that single query,
    and the sample is not skipped: its point is emitted at the saturation
    humidity ratio. *)
Theorem specificVolume_emits_after_non_finite_volume :
  exists w',
    lib_GetMoistAirVolume volumeSolver si (ofZ 0) ((ofZ 0 + dec 2 100) / ofZ 2) (ofZ 0)
      = Some PInf /\
    generateSpecificVolumeLines volumeSolver 2 si (ofZ 0) (ofZ 0, ofZ 0)
      [dec 81 100] (ofZ 1) None initialWorld
      = (Ret [mkCurve [Lit "sv-"; Num (dec 81 100)] [Fixed 2 (dec 81 100)]
                (dec 81 100) [mkPoint (ofZ 0) (dec 2 100) (dec 2 100)]], w') /\
    filter (fun c => match call_fn c with
                     | FnGetMoistAirVolume => true
                     | _ => false
                     end) (calls w')
      = [mkCall FnGetMoistAirVolume [ofZ 0; dec 1 100; ofZ 0]].
Proof.
  eexists. split; [vm_compute; reflexivity|].
  split; vm_compute; reflexivity.
Qed.

End NonFiniteFacts.

(** ** Thrown errors and solver calls of the five generators *)

Module GeneratorFacts.
Import EffectFacts NumFacts.

Lemma total_neverThrows {A} (m : M A) : total m -> neverThrows m.
Proof.
  intros Hm w. destruct (Hm w) as (a & w' & ->). discriminate.
Qed.

Lemma neverThrows_bind {A B} (m : M A) (f : A -> M B) :
  neverThrows m -> (forall a, neverThrows (f a)) -> neverThrows (bind m f).
Proof.
  intros Hm Hf w. unfold bind. specialize (Hm w).
  destruct (m w) as [[a| |] w1]; simpl in *; [apply Hf | congruence | discriminate].
Qed.

Lemma neverThrows_forLoop {S} (cond : num -> bool) (update : num -> num)
    (body : num -> S -> M S) :
  (forall t s, total (body t s)) ->
  forall fuel t s, neverThrows (forLoop fuel cond update body t s).
Proof.
  intros Hbody fuel. induction fuel as [|fuel IH]; intros t s w; simpl.
  - discriminate.
  - destruct (cond t); [|discriminate].
    unfold bind. destruct (Hbody t s w) as (s1 & w1 & ->). apply IH.
Qed.

Lemma neverThrows_mapM {A B} (f : A -> M B) (xs : list A) :
  (forall x, neverThrows (f x)) -> neverThrows (mapM f xs).
Proof.
  intro Hf. induction xs as [|x xs IH]; simpl.
  - intro w. discriminate.
  - apply neverThrows_bind; [apply Hf|]. intro y.
    apply neverThrows_bind; [exact IH|]. intros ys w. discriminate.
Qed.

Lemma neverThrows_withUnitSystem {A} (system : UnitSystem) (m : M A) :
  neverThrows m -> neverThrows (withUnitSystem system m).
Proof.
  intros Hm w. unfold withUnitSystem, bind, SetUnitSystem. apply Hm.
Qed.

Section Samples.

Variable lib : Psychrolib.
Variables pressure target tolerance : num.

Lemma relativeHumiditySample_total (t : num) (points : list CurvePoint) :
  total (relativeHumiditySample lib pressure target t points).
Proof.
  apply total_tryCatch_ret. apply halts_bind; [apply halts_invoke|].
  intro hr. apply halts_bind; [apply halts_invoke|]. intro e. apply halts_ret.
Qed.

Lemma wetBulbSample_total (t : num) (points : list CurvePoint) :
  total (wetBulbSample lib pressure target t points).
Proof.
  apply total_tryCatch_ret. apply halts_bind; [apply halts_invoke|].
  intro hr. apply halts_if; [apply halts_ret|].
  apply halts_bind; [apply halts_invoke|]. intro e. apply halts_ret.
Qed.

Lemma halts_bisect (n : nat) (t low high hr : num) :
  halts (bisect lib n pressure target tolerance t low high hr).
Proof.
  revert low high hr. induction n as [|n IH]; intros low high hr; simpl.
  - apply halts_ret.
  - apply halts_bind; [apply halts_invoke|]. intro v.
    repeat apply halts_if; try apply halts_ret; apply IH.
Qed.

Lemma specificVolumeSample_total (t : num) (points : list CurvePoint) :
  total (specificVolumeSample lib pressure target tolerance t points).
Proof.
  apply total_tryCatch_ret. apply halts_bind; [apply halts_invoke|].
  intro sat. apply halts_if; [apply halts_ret|].
  apply halts_bind; [apply halts_bisect|]. intro hr.
  apply halts_if; [|apply halts_ret].
  apply halts_bind; [apply halts_invoke|]. intro e. apply halts_ret.
Qed.

Lemma invoke_world (fn : SolverFn) (args : list num) (f : UnitSystem -> option num)
    (w : World) :
  snd (invoke fn args f w) = mkWorld (units w) (mkCall fn args :: calls w).
Proof.
  unfold invoke. destruct (units w) as [u|]; [destruct (f u)|]; reflexivity.
Qed.

Lemma invoke_Ret (fn : SolverFn) (args : list num) (f : UnitSystem -> option num)
    (w w' : World) (r : num) (u : UnitSystem) :
  units w = Some u -> invoke fn args f w = (Ret r, w') -> f u = Some r.
Proof.
  unfold invoke. intros ->. destruct (f u); intro E; inversion E. reflexivity.
Qed.

(** The search makes at most [n] queries, all of the specific volume,
    however it ends. *)
Lemma bisect_calls (n : nat) (t low high hr : num) (w : World) :
  let run := bisect lib n pressure target tolerance t low high hr w in
  units (snd run) = units w /\
  exists later,
    callsBetween w (snd run) later /\ (List.length later <= n)%nat /\
    Forall (fun c => call_fn c = FnGetMoistAirVolume) later.
Proof.
  revert low high hr w. induction n as [|n IH]; intros low high hr w; simpl.
  - split; [reflexivity|].
    exists []. split; [reflexivity|]. split; [apply Nat.le_refl | constructor].
  - unfold bind.
    pose proof (invoke_world FnGetMoistAirVolume [t; (low + high) / ofZ 2; pressure]
                  (fun u => lib_GetMoistAirVolume lib u t ((low + high) / ofZ 2) pressure)
                  w) as Hw.
    fold (GetMoistAirVolume lib t ((low + high) / ofZ 2) pressure) in Hw.
    destruct (GetMoistAirVolume lib t ((low + high) / ofZ 2) pressure w)
      as [[v| |] w1]; simpl in Hw; subst w1.
    + assert (Hstop : forall x,
                let run := ret (A := num) x
                             (mkWorld (units w)
                                (mkCall FnGetMoistAirVolume
                                   [t; (low + high) / ofZ 2; pressure] :: calls w)) in
                units (snd run) = units w /\
                exists later,
                  callsBetween w (snd run) later /\ (List.length later <= S n)%nat /\
                  Forall (fun c => call_fn c = FnGetMoistAirVolume) later).
      { intros x. simpl. split; [reflexivity|].
        eexists [_]. unfold callsBetween. simpl. split; [reflexivity|].
        split; [lia | constructor; [reflexivity | constructor]]. }
      assert (Hgo : forall lo' hi',
                let run := bisect lib n pressure target tolerance t lo' hi'
                             ((low + high) / ofZ 2)
                             (mkWorld (units w)
                                (mkCall FnGetMoistAirVolume
                                   [t; (low + high) / ofZ 2; pressure] :: calls w)) in
                units (snd run) = units w /\
                exists later,
                  callsBetween w (snd run) later /\ (List.length later <= S n)%nat /\
                  Forall (fun c => call_fn c = FnGetMoistAirVolume) later).
      { intros lo' hi'.
        destruct (IH lo' hi' ((low + high) / ofZ 2)
                    (mkWorld (units w)
                       (mkCall FnGetMoistAirVolume
                          [t; (low + high) / ofZ 2; pressure] :: calls w)))
          as [Hu (later & Hl & Hn & Hf)].
        simpl in *. split; [exact Hu|].
        exists (later ++ [mkCall FnGetMoistAirVolume [t; (low + high) / ofZ 2; pressure]]).
        unfold callsBetween in *. simpl in Hl. rewrite Hl, <- app_assoc.
        split; [reflexivity|].
        split; [rewrite length_app; simpl; lia|].
        apply Forall_app. split; [exact Hf | constructor; [reflexivity | constructor]]. }
      destruct (negb (isFinite v)); [apply Hstop|].
      destruct (Math_abs (v - target) <=? tolerance); [apply Hstop|].
      destruct (v >? target); apply Hgo.
    + simpl. split; [reflexivity|].
      eexists [_]. unfold callsBetween. simpl. split; [reflexivity|].
      split; [lia | constructor; [reflexivity | constructor]].
    + simpl. split; [reflexivity|].
      eexists [_]. unfold callsBetween. simpl. split; [reflexivity|].
      split; [lia | constructor; [reflexivity | constructor]].
Qed.

Lemma bisectionSteps_eq : bisectionSteps = 25%nat.
Proof. reflexivity. Qed.

Local Arguments bisect : simpl never.
Local Opaque bisectionSteps.

Lemma volumeQueries_le (cs : list Call) : (volumeQueries cs <= List.length cs)%nat.
Proof. unfold volumeQueries. apply filter_length_le. Qed.

Variable system : UnitSystem.

(** One sample of a specific-volume line makes at most 25 volume queries,
    however it ends. *)
Lemma specificVolumeSample_calls (t : num) (points : list CurvePoint) (w : World) :
  let run := specificVolumeSample lib pressure target tolerance t points w in
  units (snd run) = units w /\
  exists later, callsBetween w (snd run) later /\ (volumeQueries later <= 25)%nat.
Proof.
  unfold specificVolumeSample, tryCatch, bind.
  pose proof (invoke_world FnGetSatHumRatio [t; pressure]
                (fun u => lib_GetSatHumRatio lib u t pressure) w) as Hw.
  fold (GetSatHumRatio lib t pressure) in Hw.
  destruct (GetSatHumRatio lib t pressure w) as [[sat| |] w1]; simpl in Hw; subst w1;
    try (simpl; split; [reflexivity|]; eexists [_]; unfold callsBetween; simpl;
         split; [reflexivity | unfold volumeQueries; simpl; lia]).
  destruct (negb (isFinite sat) || (sat <=? ofZ 0)).
  { simpl. split; [reflexivity|]. eexists [_]. unfold callsBetween. simpl.
    split; [reflexivity | unfold volumeQueries; simpl; lia]. }
  match goal with
  | |- context [bisect ?a ?b ?c ?d ?e ?f ?g ?h ?i ?j] =>
      destruct (bisect_calls bisectionSteps f g h i j) as [Hu (later & Hl & Hn & Hf)];
      destruct (bisect a b c d e f g h i j) as [[hr| |] w2]
  end; simpl in Hu, Hl; unfold callsBetween in Hl; simpl in Hl;
    rewrite bisectionSteps_eq in Hn.
  - assert (Hq : (volumeQueries later <= 25)%nat).
    { eapply Nat.le_trans; [apply volumeQueries_le | exact Hn]. }
    assert (Hfinal : forall extra,
              extra = [] \/ extra = [mkCall FnGetMoistAirEnthalpy [t; hr]] ->
              (volumeQueries (extra ++ later ++ [mkCall FnGetSatHumRatio [t; pressure]])
                 <= 25)%nat).
    { intros extra He. unfold volumeQueries in *.
      rewrite !filter_app, !length_app.
      destruct He as [->| ->]; simpl; lia. }
    destruct ((hr >? ofZ 0) && (hr <=? sat)).
    + pose proof (invoke_world FnGetMoistAirEnthalpy [t; hr]
                    (fun u => lib_GetMoistAirEnthalpy lib u t hr) w2) as Hw.
      fold (GetMoistAirEnthalpy lib t hr) in Hw.
      destruct (GetMoistAirEnthalpy lib t hr w2) as [[e| |] w3]; simpl in Hw; subst w3;
        simpl; (split; [exact Hu|]);
        exists ([mkCall FnGetMoistAirEnthalpy [t; hr]] ++ later
                ++ [mkCall FnGetSatHumRatio [t; pressure]]);
        (split; [unfold callsBetween; simpl; rewrite Hl, <- app_assoc; reflexivity
                | apply Hfinal; right; reflexivity]).
    + simpl. split; [exact Hu|].
      exists ([] ++ later ++ [mkCall FnGetSatHumRatio [t; pressure]]).
      split; [unfold callsBetween; simpl; rewrite Hl, <- app_assoc; reflexivity
             | apply Hfinal; left; reflexivity].
  - simpl. split; [exact Hu|].
    exists (later ++ [mkCall FnGetSatHumRatio [t; pressure]]).
    split; [unfold callsBetween; simpl; rewrite Hl, <- app_assoc; reflexivity|].
    unfold volumeQueries in *. rewrite filter_app, length_app. simpl.
    pose proof (filter_length_le (fun c => match call_fn c with
                                           | FnGetMoistAirVolume => true
                                           | _ => false
                                           end) later). lia.
  - simpl. split; [exact Hu|].
    exists (later ++ [mkCall FnGetSatHumRatio [t; pressure]]).
    split; [unfold callsBetween; simpl; rewrite Hl, <- app_assoc; reflexivity|].
    unfold volumeQueries in *. rewrite filter_app, length_app. simpl.
    pose proof (filter_length_le (fun c => match call_fn c with
                                           | FnGetMoistAirVolume => true
                                           | _ => false
                                           end) later). lia.
Qed.

(** A point is pushed exactly when the estimate the search ended with lies
    in (0, saturation]. *)
Lemma specificVolumeSample_Ret (t : num) (points points' : list CurvePoint)
    (w w' : World) :
  units w = Some system ->
  specificVolumeSample lib pressure target tolerance t points w = (Ret points', w') ->
  points' = points \/
  exists p, points' = points ++ [p] /\ dryBulb p = t /\
            inBracket lib system pressure p.
Proof.
  intros Hu Hrun. unfold specificVolumeSample, tryCatch, bind in Hrun.
  destruct (GetSatHumRatio lib t pressure w) as [[sat| |] w1] eqn:Hsat;
    try (inversion Hrun; subst; left; reflexivity).
  assert (Hsat' : lib_GetSatHumRatio lib system t pressure = Some sat).
  { unfold GetSatHumRatio in Hsat.
    exact (@invoke_Ret _ _ (fun u => lib_GetSatHumRatio lib u t pressure)
             _ _ _ _ Hu Hsat). }
  pose proof (invoke_world FnGetSatHumRatio [t; pressure]
                (fun u => lib_GetSatHumRatio lib u t pressure) w) as Hw1.
  fold (GetSatHumRatio lib t pressure) in Hw1. rewrite Hsat in Hw1. simpl in Hw1.
  destruct (negb (isFinite sat) || (sat <=? ofZ 0)) eqn:Hbad;
    [inversion Hrun; subst; left; reflexivity|].
  apply orb_false_iff in Hbad. destruct Hbad as [Hfin _].
  apply negb_false_iff in Hfin.
  pose proof (bisect_calls bisectionSteps t (ofZ 0) sat sat w1) as [Hu2 _].
  destruct (bisect lib bisectionSteps pressure target tolerance t (ofZ 0) sat sat w1)
    as [[hr| |] w2]; try (inversion Hrun; subst; left; reflexivity).
  simpl in Hu2.
  destruct ((hr >? ofZ 0) && (hr <=? sat)) eqn:Hok;
    [|inversion Hrun; subst; left; reflexivity].
  apply andb_true_iff in Hok. destruct Hok as [Hpos Hle].
  destruct (GetMoistAirEnthalpy lib t hr w2) as [[e| |] w3];
    inversion Hrun; subst; try (left; reflexivity).
  right. exists (mkPoint t hr e). split; [reflexivity|]. split; [reflexivity|].
  exists sat. simpl. repeat split; assumption.
Qed.

Lemma inBracket_finite (p : CurvePoint) :
  inBracket lib system pressure p -> isFinite (humidityRatio p) = true.
Proof.
  intros (sat & _ & Hfin & Hpos & Hle).
  destruct (humidityRatio p), sat; simpl in *; congruence.
Qed.

(** One sample of a wet-bulb line: a point is pushed only with a finite
    humidity ratio. *)
Lemma wetBulbSample_Ret (t : num) (points points' : list CurvePoint) (w w' : World) :
  wetBulbSample lib pressure target t points w = (Ret points', w') ->
  points' = points \/
  exists p, points' = points ++ [p] /\ dryBulb p = t /\
            isFinite (humidityRatio p) = true.
Proof.
  intro Hrun. unfold wetBulbSample, tryCatch, bind in Hrun.
  destruct (GetHumRatioFromTWetBulb lib t target pressure w) as [[hr| |] w1];
    try (inversion Hrun; subst; left; reflexivity).
  destruct (isFinite hr) eqn:Hfin; simpl in Hrun;
    [|inversion Hrun; subst; left; reflexivity].
  destruct (GetMoistAirEnthalpy lib t hr w1) as [[e| |] w2];
    inversion Hrun; subst; try (left; reflexivity).
  right. exists (mkPoint t hr e). repeat split. exact Hfin.
Qed.

End Samples.

Section Generators.

Variable lib : Psychrolib.

Lemma loop_points_inv (P : CurvePoint -> Prop) (fuel : nat) (cond : num -> bool)
    (update : num -> num) (body : num -> list CurvePoint -> M (list CurvePoint))
    (J : World -> Prop) :
  (forall t ps w ps' w',
      J w -> body t ps w = (Ret ps', w') ->
      J w' /\ (ps' = ps \/ exists p, ps' = ps ++ [p] /\ P p)) ->
  forall t w ps w',
    J w -> forLoop fuel cond update body t [] w = (Ret ps, w') ->
    J w' /\ Forall P ps.
Proof.
  intros Hbody t w ps w' HJ Hrun.
  destruct (forLoop_inv (fun (_ : num) (qs : list CurvePoint) (wa : World) =>
                           J wa /\ Forall P qs) cond update body)
    with (fuel := fuel) (t := t) (s := @nil CurvePoint) (w := w) (r := ps) (w' := w')
    as (t' & _ & H).
  - intros ta qs wa qs' wb _ [HJa HF] Hb.
    destruct (Hbody _ _ _ _ _ HJa Hb) as [HJb [->|(p & -> & Hp)]].
    + split; assumption.
    + split; [exact HJb|]. apply Forall_app. split; [exact HF|].
      constructor; [exact Hp | constructor].
  - split; [exact HJ | constructor].
  - exact Hrun.
  - exact H.
Qed.

(** Every point of a returned wet-bulb line or specific-volume line has a
    finite humidity ratio. *)
Lemma guarded_generators_finite (fuel : nat) (system : UnitSystem)
    (pressure : num) (dryBulbRange : num * num) (targets : list num) (step : num)
    (tolerance : option num) (w w' : World) (curves : list Curve) :
  generateWetBulbLines lib fuel system pressure dryBulbRange targets step w
    = (Ret curves, w') \/
  generateSpecificVolumeLines lib fuel system pressure dryBulbRange targets step
    tolerance w = (Ret curves, w') ->
  Forall (fun curve =>
            Forall (fun p => isFinite (humidityRatio p) = true) (points curve))
         curves.
Proof.
  intros [Hrun|Hrun].
  - unfold generateWetBulbLines, withUnitSystem in Hrun.
    apply bind_Ret_inv in Hrun. destruct Hrun as ([] & w0 & _ & Hmap).
    destruct (mapM_inv (wetBulbLine lib fuel pressure dryBulbRange step)
                (fun (_ : num) curve =>
                   Forall (fun p => isFinite (humidityRatio p) = true) (points curve))
                (fun _ => True))
      with (xs := targets) (w := w0) (ys := curves) (w' := w') as [HF _]; auto.
    + intros target wa curve wb _ Hb. split; [|exact I].
      unfold wetBulbLine in Hb. destruct (negb (isFinite target)).
      * inversion Hb; subst. constructor.
      * apply bind_Ret_inv in Hb. destruct Hb as (ps & w1 & Hloop & Hret).
        inversion Hret; subst. simpl.
        assert (Hbody : forall t qs wc qs' wd,
                  True -> wetBulbSample lib pressure target t qs wc = (Ret qs', wd) ->
                  True /\ (qs' = qs \/
                           exists p, qs' = qs ++ [p] /\
                                     isFinite (humidityRatio p) = true)).
        { intros t qs wc qs' wd _ Hs. split; [exact I|].
          destruct (wetBulbSample_Ret _ _ _ _ _ _ Hs) as [->|(p & -> & _ & Hp)];
            [left; reflexivity | right; exists p; auto]. }
        exact (proj2 (@loop_points_inv (fun p => isFinite (humidityRatio p) = true)
                        fuel _ _ _ (fun _ => True) Hbody _ _ _ _ I Hloop)).
    + clear -HF. induction HF; constructor; auto.
  - unfold generateSpecificVolumeLines, withUnitSystem in Hrun.
    apply bind_Ret_inv in Hrun. destruct Hrun as ([] & w0 & Hset & Hmap).
    unfold SetUnitSystem in Hset. inversion Hset; subst w0; clear Hset.
    set (tol := orDefault tolerance (dec 1 10000)) in *.
    assert (Hline : forall target wa curve wb,
              units wa = Some system ->
              specificVolumeLine lib fuel system pressure dryBulbRange step tol target wa
                = (Ret curve, wb) ->
              Forall (fun p => isFinite (humidityRatio p) = true) (points curve) /\
              units wb = Some system).
    { intros target wa curve wb Hu Hb.
      unfold specificVolumeLine in Hb.
      destruct (negb (isFinite target) || (target <=? ofZ 0)).
      - inversion Hb; subst. split; [constructor | exact Hu].
      - apply bind_Ret_inv in Hb. destruct Hb as (ps & w1 & Hloop & Hret).
        inversion Hret; subst. simpl.
        assert (Hbody : forall t qs wc qs' wd,
                  units wc = Some system ->
                  specificVolumeSample lib pressure target tol t qs wc = (Ret qs', wd) ->
                  units wd = Some system /\
                  (qs' = qs \/
                   exists p, qs' = qs ++ [p] /\ isFinite (humidityRatio p) = true)).
        { intros t qs wc qs' wd Huc Hs.
          destruct (specificVolumeSample_calls lib pressure target tol t qs wc)
            as [Hu' _].
          rewrite Hs in Hu'. simpl in Hu'. split; [congruence|].
          destruct (@specificVolumeSample_Ret lib pressure target tol system
                      t qs qs' wc wd Huc Hs) as [->|(p & -> & _ & Hp)];
            [left; reflexivity|].
          right. exists p. split; [reflexivity|]. eapply inBracket_finite; exact Hp. }
        destruct (@loop_points_inv (fun p => isFinite (humidityRatio p) = true)
                    fuel _ _ _ (fun wc => units wc = Some system) Hbody _ _ _ _
                    Hu Hloop) as [HJ HF].
        split; assumption. }
    destruct (mapM_inv (specificVolumeLine lib fuel system pressure dryBulbRange step tol)
                (fun (_ : num) curve =>
                   Forall (fun p => isFinite (humidityRatio p) = true) (points curve))
                (fun wa => units wa = Some system))
      with (xs := targets) (w := mkWorld (Some system) (calls w)) (ys := curves) (w' := w')
      as [HF _]; auto.
    clear -HF. induction HF; constructor; auto.
Qed.

(** X17.  No generator lets a thrown error out, whatever the solver, the
    inputs and the fuel. *)
Lemma generators_never_throw (fuel : nat) (system : UnitSystem) (pressure : num)
    (dryBulbRange : num * num) :
  (forall step, neverThrows
     (generateSaturationCurve lib fuel system pressure dryBulbRange step)) /\
  (forall levels step, neverThrows
     (generateRelativeHumidityCurves lib fuel system pressure dryBulbRange levels step)) /\
  (forall values step, neverThrows
     (generateEnthalpyLines lib fuel system pressure dryBulbRange values step)) /\
  (forall values step, neverThrows
     (generateWetBulbLines lib fuel system pressure dryBulbRange values step)) /\
  (forall values step tolerance, neverThrows
     (generateSpecificVolumeLines lib fuel system pressure dryBulbRange values step
        tolerance)).
Proof.
  assert (Hret : forall A (a : A), neverThrows (ret a)).
  { intros A a w. discriminate. }
  repeat split; intros; apply neverThrows_withUnitSystem.
  - apply neverThrows_bind; [|intro; apply Hret].
    apply neverThrows_forLoop. intros t ps.
    apply SaturationFacts.saturationSample_total.
  - apply neverThrows_mapM. intro level. unfold relativeHumidityCurve.
    apply neverThrows_bind; [|intro; apply Hret].
    apply neverThrows_forLoop. intros t ps. apply relativeHumiditySample_total.
  - apply neverThrows_mapM. intro target. unfold enthalpyLine.
    apply neverThrows_bind; [|intro; apply Hret].
    apply neverThrows_forLoop. intros t ps. destruct dryBulbRange.
    apply EnthalpyFacts.enthalpySample_total.
  - apply neverThrows_mapM. intro target. unfold wetBulbLine.
    destruct (negb (isFinite target)); [apply Hret|].
    apply neverThrows_bind; [|intro; apply Hret].
    apply neverThrows_forLoop. intros t ps. apply wetBulbSample_total.
  - apply neverThrows_mapM. intro target. unfold specificVolumeLine.
    destruct (negb (isFinite target) || (target <=? ofZ 0)); [apply Hret|].
    apply neverThrows_bind; [|intro; apply Hret].
    apply neverThrows_forLoop. intros t ps. apply specificVolumeSample_total.
Qed.

End Generators.

End GeneratorFacts.

(** ** Order on binary64 floats *)

Module FloatFacts.

Lemma SFltb_trans (f1 f2 f3 : spec_float) :
  SFltb f1 f2 = true -> SFltb f2 f3 = true -> SFltb f1 f3 = true.
Proof.
  unfold SFltb, SFcompare.
  destruct f1 as [s1|s1| |s1 m1 e1], f2 as [s2|s2| |s2 m2 e2],
           f3 as [s3|s3| |s3 m3 e3];
    try destruct s1; try destruct s2; try destruct s3;
    try discriminate; try reflexivity;
    change (Pos.compare_cont Eq) with Pos.compare;
    destruct (Z.compare_spec e1 e2); try discriminate;
    destruct (Z.compare_spec e2 e3); try discriminate;
    destruct (Z.compare_spec e1 e3); try reflexivity; try lia;
    subst;
    repeat match goal with
           | |- context [Pos.compare ?a ?b] => destruct (Pos.compare_spec a b)
           end;
    simpl; try discriminate; try reflexivity; intros; lia.
Qed.

Lemma float_ltb_trans (a b c : float) :
  (a <? b)%float = true -> (b <? c)%float = true -> (a <? c)%float = true.
Proof.
  rewrite !ltb_spec. apply SFltb_trans.
Qed.

End FloatFacts.

(** ** Level of detail *)

Module LodFacts.
Import FloatFacts Lod.

Local Open Scope float_scope.

Lemma ascendingb_sound (levels : list float) :
  ascendingb levels = true -> ascending levels.
Proof.
  induction levels as [|a rest IH]; simpl; intro H.
  - constructor.
  - apply andb_true_iff in H. destruct H as [Ha Hr].
    constructor; [apply IH; exact Hr|].
    apply Forall_forall. intros b Hb.
    rewrite forallb_forall in Ha. apply Ha. exact Hb.
Qed.

Lemma inclb_sound (l1 l2 : list float) : inclb l1 l2 = true -> incl l1 l2.
Proof.
  unfold inclb, memb. intros H a Ha.
  rewrite forallb_forall in H. specialize (H a Ha).
  apply existsb_exists in H. destruct H as (b & Hb & Hab).
  apply FloatAxioms.Leibniz.eqb_spec in Hab. subst b. exact Hb.
Qed.

(** The thresholds are nested. *)
Lemma above_5 (k : float) : (5 <? k) = true -> (3.5 <? k) = true.
Proof. apply float_ltb_trans. reflexivity. Qed.

Lemma above_3_5 (k : float) : (3.5 <? k) = true -> (1.8 <? k) = true.
Proof. apply float_ltb_trans. reflexivity. Qed.

Lemma regime_le_3 (k : float) : (regime k <= 3)%nat.
Proof.
  unfold regime. destruct (5 <? k), (3.5 <? k), (1.8 <? k); lia.
Qed.

Lemma regime_mono (k1 k2 : float) :
  (k1 <? k2) = true -> (regime k1 <= regime k2)%nat.
Proof.
  intro H. unfold regime.
  destruct (5 <? k1) eqn:A1.
  { rewrite (float_ltb_trans A1 H). lia. }
  destruct (3.5 <? k1) eqn:B1.
  { rewrite (float_ltb_trans B1 H). destruct (5 <? k2); lia. }
  destruct (1.8 <? k1) eqn:C1.
  { rewrite (float_ltb_trans C1 H). destruct (5 <? k2), (3.5 <? k2); lia. }
  lia.
Qed.

(** The levels depend on the zoom only through the thresholds it has
    crossed. *)
Lemma levelsOf_regime (family : Family) (unitSystem : UnitSystem) (k : float) :
  levelsOf family unitSystem k = levelsOf family unitSystem (zoomAt (regime k)).
Proof.
  unfold regime.
  destruct (5 <? k) eqn:A.
  { pose proof (above_5 A) as B. pose proof (above_3_5 B) as C.
    destruct family, unitSystem;
      unfold levelsOf, relativeHumidityLevels, enthalpyValues, wetBulbValues,
        specificVolumeValues; rewrite ?A, ?B, ?C; vm_compute; reflexivity. }
  destruct (3.5 <? k) eqn:B.
  { pose proof (above_3_5 B) as C.
    destruct family, unitSystem;
      unfold levelsOf, relativeHumidityLevels, enthalpyValues, wetBulbValues,
        specificVolumeValues; rewrite ?A, ?B, ?C; vm_compute; reflexivity. }
  destruct (1.8 <? k) eqn:C;
    destruct family, unitSystem;
    unfold levelsOf, relativeHumidityLevels, enthalpyValues, wetBulbValues,
      specificVolumeValues; rewrite ?A, ?B, ?C; vm_compute; reflexivity.
Qed.

(** Every refinement between regimes, checked by evaluation. *)
Lemma refines_all (family : Family) (unitSystem : UnitSystem) (r1 r2 : nat) :
  (r1 <= r2)%nat -> (r2 <= 3)%nat -> refines family unitSystem r1 r2 = true.
Proof.
  intros H12 H2.
  assert (Hr2 : r2 = 0%nat \/ r2 = 1%nat \/ r2 = 2%nat \/ r2 = 3%nat) by lia.
  assert (Hr1 : r1 = 0%nat \/ r1 = 1%nat \/ r1 = 2%nat \/ r1 = 3%nat) by lia.
  destruct Hr2 as [-> | [-> | [-> | -> ]]]; destruct Hr1 as [-> | [-> | [-> | -> ]]];
    try lia; destruct family, unitSystem; vm_compute; reflexivity.
Qed.

(** Claim C6.  For every family, unit system and zoom the level list is
    defined, contains the family's base levels and is strictly ascending
    (sorted, no duplicates); it is determined by the unit system and by the
    thresholds the zoom has crossed; and for zooms [k1 < k2] every level
    produced at [k1] is produced at [k2]. *)
Theorem levelsOf_monotone (family : Family) (unitSystem : UnitSystem) :
  (forall k,
     levelsOf family unitSystem k = levelsOf family unitSystem (zoomAt (regime k)) /\
     exists levels,
       levelsOf family unitSystem k = Some levels /\
       incl (baseLevels family unitSystem) levels /\
       ascending levels) /\
  (forall k1 k2, (k1 <? k2) = true ->
     exists l1 l2,
       levelsOf family unitSystem k1 = Some l1 /\
       levelsOf family unitSystem k2 = Some l2 /\
       incl l1 l2).
Proof.
  split.
  - intro k. split; [apply levelsOf_regime|].
    rewrite levelsOf_regime.
    pose proof (refines_all family unitSystem (le_n (regime k)) (regime_le_3 k)) as H.
    unfold refines in H.
    destruct (levelsOf family unitSystem (zoomAt (regime k))) as [l|]; [|discriminate].
    exists l. split; [reflexivity|].
    rewrite !andb_true_iff in H. destruct H as [[[_ Hb] Ha] _].
    split; [apply inclb_sound; exact Hb | apply ascendingb_sound; exact Ha].
  - intros k1 k2 Hlt.
    rewrite (levelsOf_regime family unitSystem k1), (levelsOf_regime family unitSystem k2).
    pose proof (refines_all family unitSystem (regime_mono Hlt) (regime_le_3 k2)) as H.
    unfold refines in H.
    destruct (levelsOf family unitSystem (zoomAt (regime k1))) as [l1|]; [|discriminate].
    destruct (levelsOf family unitSystem (zoomAt (regime k2))) as [l2|]; [|discriminate].
    exists l1, l2. split; [reflexivity|]. split; [reflexivity|].
    rewrite !andb_true_iff in H. destruct H as [[[Hi _] _] _].
    apply inclb_sound. exact Hi.
Qed.

(** Relative-humidity levels at the zooms 1.5 and 4. *)
Lemma levelsOf_monotone_witness :
  (1.5 <? 4) = true /\
  exists l1 l2,
    levelsOf RelativeHumidity si 1.5 = Some l1 /\
    levelsOf RelativeHumidity si 4 = Some l2 /\
    incl l1 l2.
Proof.
  split; [reflexivity|].
  exact (proj2 (levelsOf_monotone RelativeHumidity si) 1.5 4 eq_refl).
Defined.

(** The first refinement loop runs ten times, not nine: its variable
    reaches 0.9499999999999998, still below the bound 0.95, so the level
    0.95 belongs to the list from the first threshold on. *)
Lemma relativeHumidityLevels_at_2 :
  relativeHumidityLevels 2 =
  Some [0.05; 0.1; 0.15; 0.2; 0.25; 0.3; 0.35; 0.4; 0.45; 0.5;
        0.55; 0.6; 0.65; 0.7; 0.75; 0.8; 0.85; 0.9; 0.95; 0.98].
Proof. vm_compute. reflexivity. Qed.

End LodFacts.

(** ** Arithmetic on finite numbers *)

Module ValueFacts.
Import NumFacts.

Lemma val_Fin (q : Q) : Fin q =~ q.
Proof. exists q. split; reflexivity. Qed.

Lemma val_ofZ (z : Z) : ofZ z =~ inject_Z z.
Proof. apply val_Fin. Qed.

Lemma val_eq (a : num) (p q : Q) : a =~ p -> (p == q)%Q -> a =~ q.
Proof.
  intros (p' & -> & Hp) Hpq. exists p'. split; [reflexivity|].
  rewrite Hp. exact Hpq.
Qed.

Lemma val_unique (a : num) (p q : Q) : a =~ p -> a =~ q -> (p == q)%Q.
Proof.
  intros (p' & -> & Hp) (q' & E & Hq). inversion E; subst.
  rewrite <- Hp. exact Hq.
Qed.

Lemma val_add (a b : num) (p q : Q) : a =~ p -> b =~ q -> a + b =~ (p + q)%Q.
Proof.
  intros (p' & -> & Hp) (q' & -> & Hq). eexists. split; [reflexivity|].
  rewrite Qred_correct, Hp, Hq. reflexivity.
Qed.

Lemma val_sub (a b : num) (p q : Q) : a =~ p -> b =~ q -> a - b =~ (p - q)%Q.
Proof.
  intros (p' & -> & Hp) (q' & -> & Hq). eexists. split; [reflexivity|].
  rewrite !Qred_correct, Hp, Hq. reflexivity.
Qed.

Lemma val_mul (a b : num) (p q : Q) : a =~ p -> b =~ q -> a * b =~ (p * q)%Q.
Proof.
  intros (p' & -> & Hp) (q' & -> & Hq). eexists. split; [reflexivity|].
  rewrite Qred_correct, Hp, Hq. reflexivity.
Qed.

Lemma val_div (a b : num) (p q : Q) :
  a =~ p -> b =~ q -> ~ (q == 0)%Q -> a / b =~ (p / q)%Q.
Proof.
  intros (p' & -> & Hp) (q' & -> & Hq) Hnz. simpl.
  destruct (Qeq_bool q' 0) eqn:E.
  - apply Qeq_bool_iff in E. exfalso. apply Hnz. rewrite <- Hq. exact E.
  - eexists. split; [reflexivity|]. rewrite Qred_correct, Hp, Hq. reflexivity.
Qed.

Lemma val_leb (a b : num) (p q : Q) :
  a =~ p -> b =~ q -> (a <=? b) = true <-> (p <= q)%Q.
Proof.
  intros (p' & -> & Hp) (q' & -> & Hq). rewrite leb_Fin, Hp, Hq. reflexivity.
Qed.

Lemma val_ltb (a b : num) (p q : Q) :
  a =~ p -> b =~ q -> (a <? b) = true <-> (p < q)%Q.
Proof.
  intros (p' & -> & Hp) (q' & -> & Hq). rewrite ltb_Fin, Hp, Hq. reflexivity.
Qed.

Lemma val_leb_false (a b : num) (p q : Q) :
  a =~ p -> b =~ q -> (a <=? b) = false <-> (q < p)%Q.
Proof.
  intros (p' & -> & Hp) (q' & -> & Hq). rewrite leb_Fin_false, Hp, Hq. reflexivity.
Qed.

Lemma val_ltb_false (a b : num) (p q : Q) :
  a =~ p -> b =~ q -> (a <? b) = false <-> (q <= p)%Q.
Proof.
  intros (p' & -> & Hp) (q' & -> & Hq). rewrite ltb_Fin_false, Hp, Hq. reflexivity.
Qed.

Lemma val_truthy (a : num) (p : Q) : a =~ p -> Chart.truthy a = true <-> ~ (p == 0)%Q.
Proof.
  intros (p' & -> & Hp). unfold Chart.truthy. simpl. rewrite negb_true_iff.
  split.
  - intros E H. rewrite <- Hp in H. apply Qeq_bool_iff in H. congruence.
  - intro H. destruct (Qeq_bool p' 0) eqn:E; [|reflexivity].
    apply Qeq_bool_iff in E. exfalso. apply H. rewrite <- Hp. exact E.
Qed.

(** [Math.max] and [Math.min] of finite numbers are one of the two. *)
Lemma val_max (a b : num) (p q : Q) :
  a =~ p -> b =~ q ->
  ((p <= q)%Q /\ Math_max a b =~ q) \/ ((q < p)%Q /\ Math_max a b =~ p).
Proof.
  intros Ha Hb. pose proof Ha as (p' & -> & Hp). pose proof Hb as (q' & -> & Hq).
  unfold Math_max. destruct (Fin p' <=? Fin q') eqn:E.
  - left. split; [apply (val_leb Ha Hb); exact E | exact Hb].
  - right. split; [apply (val_leb_false Ha Hb); exact E | exact Ha].
Qed.

Lemma val_min (a b : num) (p q : Q) :
  a =~ p -> b =~ q ->
  ((p <= q)%Q /\ Math_min a b =~ p) \/ ((q < p)%Q /\ Math_min a b =~ q).
Proof.
  intros Ha Hb. pose proof Ha as (p' & -> & Hp). pose proof Hb as (q' & -> & Hq).
  unfold Math_min. destruct (Fin p' <=? Fin q') eqn:E.
  - left. split; [apply (val_leb Ha Hb); exact E | exact Ha].
  - right. split; [apply (val_leb_false Ha Hb); exact E | exact Hb].
Qed.

(** Clamping a value that is already between the bounds leaves it. *)
Lemma val_clamp_inside (v lo hi : num) (p l h : Q) :
  v =~ p -> lo =~ l -> hi =~ h -> (l <= p)%Q -> (p <= h)%Q ->
  Math_min (Math_max v lo) hi =~ p.
Proof.
  intros Hv Hlo Hhi Hl Hh.
  destruct (val_max Hv Hlo) as [[H1 Hm]|[H1 Hm]].
  - assert (E : (l == p)%Q) by lra.
    destruct (val_min Hm Hhi) as [[H2 Hn]|[H2 Hn]].
    + eapply val_eq; [exact Hn | exact E].
    + lra.
  - destruct (val_min Hm Hhi) as [[H2 Hn]|[H2 Hn]].
    + exact Hn.
    + lra.
Qed.

End ValueFacts.

(** ** The enthalpy lines on a solver with an exact inversion *)

Module EnthalpyWitness.
Import EnthalpyFacts NumFacts ValueFacts.

Lemma val_dec (n : Z) (d : positive) : dec n d =~ (n # d).
Proof. eexists. split; [reflexivity|]. apply Qred_correct. Qed.

Lemma val_abs (a : num) (p : Q) : a =~ p -> Math_abs a =~ Qabs p.
Proof.
  intros (p' & -> & Hp). eexists. split; [reflexivity|].
  rewrite Qred_correct, Hp. reflexivity.
Qed.

(** The inversion of [enthalpySolver] is exact: the dry bulb it answers
    for [(h, w)] has enthalpy [h] at [w]. *)
Lemma enthalpySolver_consistent : inversion_consistent enthalpySolver si (ofZ 0).
Proof.
  intros h w t e _ _ Ht He.
  cbn [enthalpySolver solverOf lib_GetTDryBulbFromEnthalpyAndHumRatio
       lib_GetMoistAirEnthalpy] in Ht, He.
  destruct (isFinite h) eqn:Hh; [|discriminate].
  destruct (isFinite w) eqn:Hw; [|discriminate].
  destruct (ofZ 0 <=? w) eqn:H0; [|discriminate].
  cbn [andb] in Ht.
  apply isFinite_Fin in Hh, Hw. destruct Hh as [H ->]. destruct Hw as [W ->].
  apply leb_Fin in H0. unfold inject_Z in H0.
  injection Ht as <-. injection He as <-.
  assert (Hden : ~ ((1006 # 1000) + (186 # 100) * W == 0)%Q) by (intro E; lra).
  pose proof (val_div (val_sub (val_Fin H) (val_mul (val_ofZ 2501) (val_Fin W)))
                (val_add (val_dec 1006 1000) (val_mul (val_dec 186 100) (val_Fin W)))
                Hden) as Vt.
  set (t := (Fin H - ofZ 2501 * Fin W) / (dec 1006 1000 + dec 186 100 * Fin W)) in *.
  pose proof (val_add (val_mul (val_dec 1006 1000) Vt)
                (val_mul (val_Fin W)
                   (val_add (val_ofZ 2501) (val_mul (val_dec 186 100) Vt)))) as Ve.
  pose proof (val_abs (val_sub Ve (val_Fin H))) as Va.
  apply (proj2 (val_leb Va (val_ofZ 0))).
  match goal with |- (Qabs ?x <= _)%Q => assert (E : (x == 0)%Q) end.
  { unfold inject_Z. field. exact Hden. }
  rewrite E. discriminate.
Qed.

(** The enthalpy line of 60 kJ/kg by increments of 1/64, on
    [enthalpySolver], between -20 and 60 degrees: the humidity ratios 0,
    1/64 and 2/64 give dry bulbs inside the domain and are kept, 3/64
    gives one below it and is dropped, and 4/64 is above 0.06.  Each kept
    point has the solver's enthalpy 60 exactly. *)
Lemma generateEnthalpyLines_points_witness :
  exists curve w',
    generateEnthalpyLines enthalpySolver 6 si (ofZ 101325) (ofZ (-20), ofZ 60)
      (Some [ofZ 60]) (Some (dec 1 64)) initialWorld = (Ret [curve], w') /\
    map humidityRatio (points curve) = [ofZ 0; dec 1 64; dec 2 64] /\
    List.length (calls w') = 4%nat /\
    Forall (fun p =>
              enthalpy p = ofZ 60 /\
              exists e,
                lib_GetMoistAirEnthalpy enthalpySolver si (dryBulb p) (humidityRatio p)
                  = Some e /\
                (Math_abs (e - ofZ 60) <=? ofZ 0) = true)
           (points curve).
Proof.
  destruct (generateEnthalpyLines enthalpySolver 6 si (ofZ 101325) (ofZ (-20), ofZ 60)
              (Some [ofZ 60]) (Some (dec 1 64)) initialWorld) as [o w'] eqn:Hrun.
  assert (Ho : exists curve, o = Ret [curve] /\
                map humidityRatio (points curve) = [ofZ 0; dec 1 64; dec 2 64] /\
                List.length (calls w') = 4%nat).
  { revert Hrun. vm_compute. intro E. inversion E; subst.
    eexists. split; [reflexivity|]. split; reflexivity. }
  destruct Ho as (curve & -> & Hhr & Hcalls).
  exists curve, w'. split; [reflexivity|]. split; [exact Hhr|]. split; [exact Hcalls|].
  pose proof (proj2 (@generateEnthalpyLines_points enthalpySolver si (ofZ 101325)
                       (ofZ (-20)) (ofZ 60) (Some [ofZ 60]) (Some (dec 1 64))
                       initialWorld) 6%nat [curve] w' Hrun) as [HF _].
  cbn [orDefault] in HF.
  apply Forall2_cons_iff in HF. destruct HF as [[_ Hpts] _].
  eapply Forall_impl; [|exact Hpts].
  intros p (He & _ & _ & Hd & _ & _ & Htol).
  split; [exact He|].
  eexists. split; [reflexivity|].
  apply (Htol (ofZ 0) _ enthalpySolver_consistent); reflexivity.
Defined.

End EnthalpyWitness.

(** ** Scales under zoom *)

Module ScaleFacts.
Import ValueFacts Chart.

Lemma Qmult_nz (a b : Q) : ~ (a == 0)%Q -> ~ (b == 0)%Q -> ~ (a * b == 0)%Q.
Proof.
  intros Ha Hb H. apply Qmult_integral in H. tauto.
Qed.

Ltac nonzero_product Ha Hb :=
  let H := fresh in
  intro H; apply (Qmult_nz Ha Hb); etransitivity; [|exact H]; ring.

Lemma normalize_val (a b x : num) (p q v : Q) :
  a =~ p -> b =~ q -> x =~ v -> ~ (q - p == 0)%Q ->
  normalize a b x =~ ((v - p) / (q - p))%Q.
Proof.
  intros Ha Hb Hx Hnz. unfold normalize.
  pose proof (val_sub Hb Ha) as Hd.
  rewrite (proj2 (val_truthy Hd) Hnz).
  apply val_div; [apply val_sub; assumption | exact Hd | exact Hnz].
Qed.

Lemma interpolateNumber_val (a b t : num) (p q v : Q) :
  a =~ p -> b =~ q -> t =~ v ->
  interpolateNumber a b t =~ (p * (1 - v) + q * v)%Q.
Proof.
  intros Ha Hb Ht. unfold interpolateNumber.
  apply val_add; apply val_mul; try assumption.
  apply (val_sub (val_ofZ 1) Ht).
Qed.

(** A scale with a non-degenerate domain is the affine map that sends the
    ends of the domain to the ends of the range. *)
Lemma bimap_val (d0 d1 r0 r1 x : num) (D0 D1 R0 R1 X : Q) :
  d0 =~ D0 -> d1 =~ D1 -> r0 =~ R0 -> r1 =~ R1 -> x =~ X ->
  ~ (D1 - D0 == 0)%Q ->
  bimap (d0, d1) (r0, r1) x =~ (R0 + (X - D0) * (R1 - R0) / (D1 - D0))%Q.
Proof.
  intros Hd0 Hd1 Hr0 Hr1 Hx Hnz. unfold bimap.
  destruct (d1 <? d0) eqn:E.
  - assert (Hnz' : ~ (D0 - D1 == 0)%Q) by (intro H; apply Hnz; lra).
    eapply val_eq.
    + apply interpolateNumber_val; [exact Hr1 | exact Hr0 |].
      apply normalize_val; [exact Hd1 | exact Hd0 | exact Hx | exact Hnz'].
    + field. split; assumption.
  - eapply val_eq.
    + apply interpolateNumber_val; [exact Hr0 | exact Hr1 |].
      apply normalize_val; [exact Hd0 | exact Hd1 | exact Hx | exact Hnz].
    + field. exact Hnz.
Qed.

Section Rescaled.

(** A base scale with finite, non-degenerate domain and range, and a
    transform with a non-zero finite scale factor. *)
Variable s : LinearScale.
Variables D0 D1 R0 R1 : Q.
Hypothesis dom0 : fst (domain s) =~ D0.
Hypothesis dom1 : snd (domain s) =~ D1.
Hypothesis ran0 : fst (range s) =~ R0.
Hypothesis ran1 : snd (range s) =~ R1.
Hypothesis dom_nz : ~ (D1 - D0 == 0)%Q.
Hypothesis ran_nz : ~ (R1 - R0 == 0)%Q.

Lemma scale_apply_val (x : num) (X : Q) :
  x =~ X -> scale_apply s x =~ (R0 + (X - D0) * (R1 - R0) / (D1 - D0))%Q.
Proof.
  intro Hx. unfold scale_apply.
  pose proof dom0 as H0. pose proof dom1 as H1.
  pose proof ran0 as H2. pose proof ran1 as H3.
  destruct (domain s) as [d0 d1], (range s) as [r0 r1]. simpl in *.
  apply bimap_val; assumption.
Qed.

Lemma scale_invert_val (y : num) (Y : Q) :
  y =~ Y -> scale_invert s y =~ (D0 + (Y - R0) * (D1 - D0) / (R1 - R0))%Q.
Proof.
  intro Hy. unfold scale_invert.
  pose proof dom0 as H0. pose proof dom1 as H1.
  pose proof ran0 as H2. pose proof ran1 as H3.
  destruct (domain s) as [d0 d1], (range s) as [r0 r1]. simpl in *.
  apply bimap_val; assumption.
Qed.

Variables K T : Q.
Hypothesis K_nz : ~ (K == 0)%Q.

Let shown : Q -> Q := shownEnd D0 D1 R0 K T R1.

Lemma shown_width : (shown R1 - shown R0 == (D1 - D0) / K)%Q.
Proof. unfold shown, shownEnd. field. split; assumption. Qed.

Lemma shown_nz : ~ (shown R1 - shown R0 == 0)%Q.
Proof.
  rewrite shown_width. intro H. apply dom_nz.
  assert (E : (D1 - D0 == (D1 - D0) / K * K)%Q) by (field; exact K_nz).
  rewrite E, H. ring.
Qed.

(** Rescaling along one axis by a transform whose scale is [K] and whose
    translation along that axis is [T]. *)
Variable rescaled : LinearScale.
Variable invertT : num -> num.
Hypothesis invertT_val : forall p P, p =~ P -> invertT p =~ ((P - T) / K)%Q.
Hypothesis rescaled_def :
  rescaled = mkScale (scale_invert s (invertT (fst (range s))),
                      scale_invert s (invertT (snd (range s)))) (range s).

Lemma rescaled_dom0 : fst (domain rescaled) =~ shown R0.
Proof.
  rewrite rescaled_def. simpl. apply scale_invert_val. apply invertT_val. exact ran0.
Qed.

Lemma rescaled_dom1 : fst (domain rescaled) =~ shown R0 /\ snd (domain rescaled) =~ shown R1.
Proof.
  split; [exact rescaled_dom0|].
  rewrite rescaled_def. simpl. apply scale_invert_val. apply invertT_val. exact ran1.
Qed.

(** The zoomed scale is the base scale followed by the transform:
    [T + K * base(x)]. *)
Lemma rescaled_apply_val (x : num) (X : Q) :
  x =~ X ->
  scale_apply rescaled x =~ (T + K * (R0 + (X - D0) * (R1 - R0) / (D1 - D0)))%Q.
Proof.
  intro Hx. unfold scale_apply.
  destruct rescaled_dom1 as [H0 H1].
  pose proof ran0 as H2. pose proof ran1 as H3.
  assert (Hr : range rescaled = range s) by (rewrite rescaled_def; reflexivity).
  destruct (domain rescaled) as [d0 d1]. rewrite Hr.
  destruct (range s) as [r0 r1]. simpl in *.
  eapply val_eq.
  - apply bimap_val; try eassumption. exact shown_nz.
  - unfold shown, shownEnd. field. repeat split; try assumption.
    nonzero_product ran_nz dom_nz.
Qed.

(** Its inverse undoes the transform, then the base scale. *)
Lemma rescaled_invert_val (y : num) (Y : Q) :
  y =~ Y ->
  scale_invert rescaled y =~ (D0 + ((Y - T) / K - R0) * (D1 - D0) / (R1 - R0))%Q.
Proof.
  intro Hy. unfold scale_invert.
  destruct rescaled_dom1 as [H0 H1].
  pose proof ran0 as H2. pose proof ran1 as H3.
  assert (Hr : range rescaled = range s) by (rewrite rescaled_def; reflexivity).
  destruct (domain rescaled) as [d0 d1]. rewrite Hr.
  destruct (range s) as [r0 r1]. simpl in *.
  eapply val_eq.
  - apply bimap_val; try eassumption.
  - unfold shown, shownEnd. field. repeat split; assumption.
Qed.

(** Inverse after forward is the identity. *)
Lemma rescaled_round_trip (x : num) (X : Q) :
  x =~ X -> scale_invert rescaled (scale_apply rescaled x) =~ X.
Proof.
  intro Hx. eapply val_eq.
  - apply rescaled_invert_val. apply rescaled_apply_val. exact Hx.
  - field. repeat split; assumption.
Qed.

End Rescaled.

End ScaleFacts.

(** ** Pointer positions and chart points *)

Module RoundTripFacts.
Import ValueFacts Chart ScaleFacts.

Lemma innerWidth_val (width : num) :
  isFinite width = true -> exists W, innerWidth width =~ W /\ (40 <= W)%Q.
Proof.
  intro H. apply NumFacts.isFinite_Fin in H. destruct H as [w ->].
  unfold innerWidth.
  destruct (val_max (val_sub (val_Fin w) (val_add (val_ofZ 88) (val_ofZ 36)))
                    (val_ofZ 40)) as [[H1 Hm]|[H1 Hm]].
  - eexists. split; [exact Hm|]. unfold inject_Z. lra.
  - eexists. split; [exact Hm|]. unfold inject_Z in *. lra.
Qed.

Lemma innerHeight_val (height : num) :
  isFinite height = true -> exists H, innerHeight height =~ H /\ (40 <= H)%Q.
Proof.
  intro H. apply NumFacts.isFinite_Fin in H. destruct H as [w ->].
  unfold innerHeight.
  destruct (val_max (val_sub (val_Fin w) (val_add (val_ofZ 32) (val_ofZ 68)))
                    (val_ofZ 40)) as [[H1 Hm]|[H1 Hm]].
  - eexists. split; [exact Hm|]. unfold inject_Z. lra.
  - eexists. split; [exact Hm|]. unfold inject_Z in *. lra.
Qed.

Lemma dryBulbDomain_val (u : UnitSystem) :
  fst (ext_dryBulb (getChartExtents u)) =~ fst (dryBulbDomain u) /\
  snd (ext_dryBulb (getChartExtents u)) =~ snd (dryBulbDomain u).
Proof. destruct u; split; eexists; (split; [reflexivity|reflexivity]). Qed.

Lemma displayDomain_val (u : UnitSystem) :
  fst (humidityDomainDisplay u) =~ fst (displayDomain u) /\
  snd (humidityDomainDisplay u) =~ snd (displayDomain u).
Proof. destruct u; split; eexists; (split; [reflexivity|reflexivity]). Qed.

Lemma humidityRatioToDisplay_val (u : UnitSystem) (h : num) (H : Q) :
  h =~ H -> humidityRatioToDisplay u h =~ (H * displayFactor u)%Q.
Proof.
  intro Hh. destruct u; unfold humidityRatioToDisplay, displayFactor;
    apply (val_mul Hh (val_ofZ _)).
Qed.

Lemma humidityRatioFromDisplay_val (u : UnitSystem) (c : num) (C : Q) :
  c =~ C -> humidityRatioFromDisplay u c =~ (C / displayFactor u)%Q.
Proof.
  intro Hc. destruct u; unfold humidityRatioFromDisplay, displayFactor;
    apply (val_div Hc (val_ofZ _)); discriminate.
Qed.

(** Claim C5.  For every unit system, finite container size and transform
    with finite translation and scale in [1, 12], and every physical point
    with finite coordinates: mapping the point to its pixel (the zoomed
    scales after the display scaling of the humidity ratio) and mapping
    that pixel back (the inverted zoomed scales, then the display scaling
    undone) recovers the dry bulb, the displayed humidity ratio and the
    humidity ratio, as numbers; and when the point lies inside the chart
    domain, so does what the pointer handlers resolve, whose clamping to
    the chart extents then changes nothing. *)
Theorem inverse_forward
    (unitSystem : UnitSystem) (width height : num) (transform : ZoomTransform)
    (dryBulb humidityRatio : num) (K TX TY D H : Q) :
  isFinite width = true -> isFinite height = true ->
  k transform =~ K -> x transform =~ TX -> y transform =~ TY ->
  (1 <= K <= 12)%Q ->
  dryBulb =~ D -> humidityRatio =~ H ->
  let pixel := forward unitSystem width height transform dryBulb humidityRatio in
  let physical := inverse unitSystem width height transform pixel in
  let resolved := resolvePointer unitSystem width height transform pixel in
  (fst physical =~ D /\
   snd physical =~ (H * displayFactor unitSystem)%Q /\
   humidityRatioFromDisplay unitSystem (snd physical) =~ H) /\
  ((fst (dryBulbDomain unitSystem) <= D <= snd (dryBulbDomain unitSystem))%Q ->
   (fst (displayDomain unitSystem) <= H * displayFactor unitSystem
      <= snd (displayDomain unitSystem))%Q ->
   clampedDryBulb resolved =~ D /\
   clampedHumidityDisplay resolved =~ (H * displayFactor unitSystem)%Q /\
   resolvedHumidityRatio resolved =~ H).
Proof.
  intros Hw Hh HK HTX HTY [HK1 HK12] HD HH pixel physical resolved.
  assert (K_nz : ~ (K == 0)%Q) by (intro E; lra).
  destruct (innerWidth_val _ Hw) as (W & HW & HW40).
  destruct (innerHeight_val _ Hh) as (Hq & HHq & HH40).
  destruct (dryBulbDomain_val unitSystem) as [Hd0 Hd1].
  destruct (displayDomain_val unitSystem) as [Hc0 Hc1].
  assert (Hx :
    scale_invert (xScale unitSystem width transform)
      (scale_apply (xScale unitSystem width transform) dryBulb) =~ D).
  { eapply (@rescaled_round_trip (xBaseScale unitSystem width)
              (fst (dryBulbDomain unitSystem)) (snd (dryBulbDomain unitSystem)) 0 W);
      try eassumption; try reflexivity.
    - apply val_ofZ.
    - destruct unitSystem; simpl; intro E; discriminate E.
    - intro E. assert (W == 0)%Q by lra. lra.
    - intros p P Hp. unfold invertX. apply val_div; [apply val_sub|..]; eassumption. }
  assert (Hy :
    scale_invert (yScale unitSystem height transform)
      (scale_apply (yScale unitSystem height transform)
         (humidityRatioToDisplay unitSystem humidityRatio))
      =~ (H * displayFactor unitSystem)%Q).
  { eapply (@rescaled_round_trip (yBaseScale unitSystem height)
              (fst (displayDomain unitSystem)) (snd (displayDomain unitSystem)) Hq 0);
      try eassumption; try reflexivity.
    - apply val_ofZ.
    - destruct unitSystem; simpl; intro E; discriminate E.
    - intro E. assert (Hq == 0)%Q by lra. lra.
    - intros p P Hp. unfold invertY. apply val_div; [apply val_sub|..]; eassumption.
    - apply humidityRatioToDisplay_val. exact HH. }
  assert (Hfactor : ~ (displayFactor unitSystem == 0)%Q)
    by (destruct unitSystem; discriminate).
  split.
  - subst physical pixel. unfold inverse, forward. simpl.
    split; [exact Hx|]. split; [exact Hy|].
    eapply val_eq; [apply humidityRatioFromDisplay_val; exact Hy|].
    field. exact Hfactor.
  - intros HDin HHin. subst resolved pixel. unfold resolvePointer, forward. simpl.
    assert (Hcd : Math_min (Math_max
                    (scale_invert (xScale unitSystem width transform)
                       (scale_apply (xScale unitSystem width transform) dryBulb))
                    (fst (ext_dryBulb (getChartExtents unitSystem))))
                  (snd (ext_dryBulb (getChartExtents unitSystem))) =~ D).
    { eapply val_clamp_inside; try eassumption; tauto. }
    assert (Hch : Math_min (Math_max
                    (scale_invert (yScale unitSystem height transform)
                       (scale_apply (yScale unitSystem height transform)
                          (humidityRatioToDisplay unitSystem humidityRatio)))
                    (fst (humidityDomainDisplay unitSystem)))
                  (snd (humidityDomainDisplay unitSystem))
                  =~ (H * displayFactor unitSystem)%Q).
    { eapply val_clamp_inside; try eassumption; tauto. }
    split; [exact Hcd|]. split; [exact Hch|].
    eapply val_eq; [apply humidityRatioFromDisplay_val; exact Hch|].
    field. exact Hfactor.
Qed.

(** The zoomed scales are the transform applied to the base scales: the
    pixel of a point is [translate + k * base(point)] on each axis. *)
Lemma forward_is_transformed_base
    (unitSystem : UnitSystem) (width height : num) (transform : ZoomTransform)
    (dryBulb humidityRatio : num) (K TX TY : Q) (bx byv : Q) :
  isFinite width = true -> isFinite height = true ->
  k transform =~ K -> x transform =~ TX -> y transform =~ TY ->
  ~ (K == 0)%Q ->
  scale_apply (xBaseScale unitSystem width) dryBulb =~ bx ->
  scale_apply (yBaseScale unitSystem height)
    (humidityRatioToDisplay unitSystem humidityRatio) =~ byv ->
  isFinite dryBulb = true -> isFinite humidityRatio = true ->
  let pixel := forward unitSystem width height transform dryBulb humidityRatio in
  fst pixel =~ (TX + K * bx)%Q /\ snd pixel =~ (TY + K * byv)%Q.
Proof.
  intros Hw Hh HK HTX HTY K_nz Hbx Hby Hfd Hfh pixel.
  destruct (innerWidth_val _ Hw) as (W & HW & HW40).
  destruct (innerHeight_val _ Hh) as (Hq & HHq & HH40).
  destruct (dryBulbDomain_val unitSystem) as [Hd0 Hd1].
  destruct (displayDomain_val unitSystem) as [Hc0 Hc1].
  apply NumFacts.isFinite_Fin in Hfd, Hfh.
  destruct Hfd as [d ->]. destruct Hfh as [h ->].
  assert (Dnz : ~ (snd (dryBulbDomain unitSystem) - fst (dryBulbDomain unitSystem) == 0)%Q)
    by (destruct unitSystem; simpl; intro E; discriminate E).
  assert (Cnz : ~ (snd (displayDomain unitSystem) - fst (displayDomain unitSystem) == 0)%Q)
    by (destruct unitSystem; simpl; intro E; discriminate E).
  assert (Wnz : ~ (W - 0 == 0)%Q) by (intro E; assert (W == 0)%Q by lra; lra).
  assert (Hnz : ~ (0 - Hq == 0)%Q) by (intro E; assert (Hq == 0)%Q by lra; lra).
  subst pixel. unfold forward. simpl. split.
  - eapply val_eq.
    + eapply (@rescaled_apply_val (xBaseScale unitSystem width)
                (fst (dryBulbDomain unitSystem)) (snd (dryBulbDomain unitSystem)) 0 W)
        with (K := K) (T := TX);
        try eassumption; try reflexivity; try apply val_ofZ; try apply val_Fin.
      intros p P Hp. unfold invertX. apply val_div; [apply val_sub|..]; eassumption.
    + pose proof (@scale_apply_val (xBaseScale unitSystem width) _ _ 0 W
                    Hd0 Hd1 (val_ofZ 0) HW Dnz (Fin d) d (val_Fin d)) as Hb.
      rewrite (val_unique Hbx Hb). reflexivity.
  - eapply val_eq.
    + eapply (@rescaled_apply_val (yBaseScale unitSystem height)
                (fst (displayDomain unitSystem)) (snd (displayDomain unitSystem)) Hq 0)
        with (K := K) (T := TY);
        try eassumption; try reflexivity; try apply val_ofZ.
      * intros p P Hp. unfold invertY. apply val_div; [apply val_sub|..]; eassumption.
      * apply humidityRatioToDisplay_val. apply val_Fin.
    + pose proof (@scale_apply_val (yBaseScale unitSystem height) _ _ Hq 0
                    Hc0 Hc1 HHq (val_ofZ 0) Cnz _ _
                    (humidityRatioToDisplay_val unitSystem (val_Fin h))) as Hb.
      rewrite (val_unique Hby Hb). reflexivity.
Qed.

End RoundTripFacts.

Module RoundTripWitness.
Import ValueFacts Chart RoundTripFacts.

(** The default SI state (26 degrees, 10.5 g/kg) in a 1000 by 700
    container, zoomed twice and panned. *)
Lemma inverse_forward_witness :
  let transform := mkTransform (ofZ 2) (ofZ (-100)) (ofZ (-50)) in
  let pixel := forward si (ofZ 1000) (ofZ 700) transform (ofZ 26) (dec 105 10000) in
  let physical := inverse si (ofZ 1000) (ofZ 700) transform pixel in
  pixel = (Fin (4537 # 5), Fin (790 # 1)) /\
  fst physical =~ 26 /\
  snd physical =~ ((105 # 10000) * displayFactor si)%Q /\
  humidityRatioFromDisplay si (snd physical) =~ (105 # 10000).
Proof.
  split; [vm_compute; reflexivity|].
  apply (@inverse_forward si (ofZ 1000) (ofZ 700)
           (mkTransform (ofZ 2) (ofZ (-100)) (ofZ (-50))) (ofZ 26) (dec 105 10000)
           2 (-(100)) (-(50)) 26 (105 # 10000));
    try reflexivity;
    try (eexists; split; reflexivity);
    split; vm_compute; discriminate.
Defined.

End RoundTripWitness.

(** ** Pan and zoom limits *)

Module ZoomFacts.
Import ValueFacts Chart.

Lemma finite_val (a : num) : isFinite a = true -> exists q, a =~ q.
Proof.
  intro H. apply NumFacts.isFinite_Fin in H. destruct H as [q ->].
  exists q. apply val_Fin.
Qed.

(** The translate-extent clamp along one axis of length [W]: whatever the
    translation was, the new one keeps the window inside [0, W]. *)
Lemma constrain_axis (kv xv w0 : num) (K X W : Q) :
  kv =~ K -> xv =~ X -> w0 =~ W -> (1 <= K)%Q -> (0 < W)%Q ->
  let d0 := (ofZ 0 - xv) / kv - ofZ 0 in
  let d1 := (w0 - xv) / kv - w0 in
  exists X',
    xv + kv * (if d1 >? d0 then (d0 + d1) / ofZ 2
               else orElse (Math_min (ofZ 0) d0) (Math_max (ofZ 0) d1)) =~ X' /\
    (W * (1 - K) <= X' <= 0)%Q.
Proof.
  intros Hk Hx Hw HK HW d0 d1.
  assert (K_nz : ~ (K == 0)%Q) by (intro E; lra).
  assert (Hd0 : d0 =~ ((0 - X) / K - 0)%Q).
  { subst d0. apply val_sub; [|apply val_ofZ].
    apply val_div; [apply val_sub; [apply val_ofZ | exact Hx] | exact Hk | exact K_nz]. }
  assert (Hd1 : d1 =~ ((W - X) / K - W)%Q).
  { subst d1. apply val_sub; [|exact Hw].
    apply val_div; [apply val_sub; assumption | exact Hk | exact K_nz]. }
  set (a := ((0 - X) / K - 0)%Q) in *. set (b := ((W - X) / K - W)%Q) in *.
  assert (Ea : (a * K == - X)%Q) by (subst a; field; exact K_nz).
  assert (Eb : ((b + W) * K == W - X)%Q) by (subst b; field; exact K_nz).
  assert (Hba : (b <= a)%Q) by nra.
  unfold gtb. rewrite (proj2 (val_ltb_false Hd0 Hd1) Hba).
  unfold orElse.
  destruct (val_min (val_ofZ 0) Hd0) as [[H0 Hm]|[H0 Hm]].
  - (* the window does not start before 0 *)
    assert (Ht : truthy (Math_min (ofZ 0) d0) = false).
    { destruct (truthy (Math_min (ofZ 0) d0)) eqn:E; [|reflexivity].
      apply (val_truthy Hm) in E. exfalso. apply E. reflexivity. }
    rewrite Ht.
    destruct (val_max (val_ofZ 0) Hd1) as [[H1 Hn]|[H1 Hn]].
    + exists (X + K * b)%Q. split; [apply val_add; [exact Hx | apply val_mul; assumption]|].
      unfold inject_Z in *. split; nra.
    + exists (X + K * 0)%Q.
      split; [apply val_add; [exact Hx | apply val_mul; assumption]|].
      unfold inject_Z in *. split; nra.
  - (* it does: shift it back to 0 *)
    assert (Ht : truthy (Math_min (ofZ 0) d0) = true).
    { apply (val_truthy Hm). unfold inject_Z in *. intro E. lra. }
    rewrite Ht.
    exists (X + K * a)%Q. split; [apply val_add; [exact Hx | apply val_mul; assumption]|].
    unfold inject_Z in *. split; nra.
Qed.

Section Behavior.

Variables width height : num.
Variables W H : Q.
Hypothesis W_val : innerWidth width =~ W.
Hypothesis H_val : innerHeight height =~ H.
Hypothesis W_pos : (0 < W)%Q.
Hypothesis H_pos : (0 < H)%Q.

Let z : ZoomBehavior := zoomBehavior width height.

Lemma constrain_valid (t : ZoomTransform) (K X Y : Q) :
  k t =~ K -> x t =~ X -> y t =~ Y -> (1 <= K <= 12)%Q ->
  validTransform W H (constrain z t).
Proof.
  intros Hk Hx Hy HK.
  destruct (constrain_axis Hk Hx W_val (proj1 HK) W_pos) as (X' & HX' & HXr).
  destruct (constrain_axis Hk Hy H_val (proj1 HK) H_pos) as (Y' & HY' & HYr).
  exists K, X', Y'. unfold constrain, transform_translate, invertX, invertY. simpl.
  repeat split; try assumption; tauto.
Qed.

Lemma zoom_scale_val (t : ZoomTransform) (k' : num) :
  isFinite k' = true ->
  exists K, k (zoom_scale z t k') =~ K /\ (1 <= K <= 12)%Q /\
            x (zoom_scale z t k') = x t /\ y (zoom_scale z t k') = y t.
Proof.
  intro Hf. destruct (finite_val _ Hf) as [q Hq]. unfold zoom_scale. simpl.
  destruct (val_min (val_ofZ 12) Hq) as [[H1 Hm]|[H1 Hm]];
    destruct (val_max (val_ofZ 1) Hm) as [[H2 Hn]|[H2 Hn]];
    eexists; (split; [exact Hn|]); unfold inject_Z in *;
    (split; [split; lra|]); split; reflexivity.
Qed.

Lemma zoom_translate_val (t : ZoomTransform) (p0 p1 : num * num) (K : Q) :
  k t =~ K -> finitePoint p0 ->
  (exists a, fst p1 =~ a) -> (exists b, snd p1 =~ b) ->
  exists X Y, k (zoom_translate t p0 p1) =~ K /\
              x (zoom_translate t p0 p1) =~ X /\ y (zoom_translate t p0 p1) =~ Y.
Proof.
  intros Hk [Hp0 Hp0'] [a Ha] [b Hb].
  destruct (finite_val _ Hp0) as [u Hu]. destruct (finite_val _ Hp0') as [v Hv].
  unfold zoom_translate. simpl.
  eexists. eexists. split; [exact Hk|].
  split; (apply val_sub; [eassumption | apply val_mul; eassumption]).
Qed.

(** Every gesture with finite parameters takes a transform within the
    limits to one within the limits. *)
Lemma gesture_step_valid (t : ZoomTransform) (g : Gesture) :
  validTransform W H t -> finiteGesture g ->
  validTransform W H (gesture_step z t g).
Proof.
  intros (K & X & Y & Hk & Hx & Hy & HK & HX & HY) Hg.
  assert (K_nz : ~ (K == 0)%Q) by (intro E; lra).
  destruct g as [factor p|p0 p1|k' p0 p1|]; simpl in *.
  - destruct Hg as [Hf [Hp Hp']].
    destruct (finite_val _ Hf) as [f Hfv].
    destruct (finite_val _ Hp) as [u Hu]. destruct (finite_val _ Hp') as [v Hv].
    assert (Hkf : isFinite (k t * factor) = true).
    { destruct (val_mul Hk Hfv) as (q & -> & _). reflexivity. }
    destruct (zoom_scale_val t (k t * factor) Hkf) as (K' & HK' & HK'r & Ex & Ey).
    destruct (@zoom_translate_val (zoom_scale z t (k t * factor)) p
                (transform_invert t p) K' HK' (conj Hp Hp'))
      as (X' & Y' & Hk2 & Hx2 & Hy2).
    + eexists. unfold transform_invert, invertX. simpl.
      apply val_div; [apply val_sub|..]; eassumption.
    + eexists. unfold transform_invert, invertY. simpl.
      apply val_div; [apply val_sub|..]; eassumption.
    + eapply constrain_valid; eassumption.
  - destruct Hg as [Hp0 [Hp1 Hp1']].
    destruct (@zoom_translate_val t p0 p1 K Hk Hp0 (finite_val _ Hp1) (finite_val _ Hp1'))
      as (X' & Y' & Hk2 & Hx2 & Hy2).
    eapply constrain_valid; eassumption.
  - destruct Hg as [Hf [Hp0 [Hp1 Hp1']]].
    destruct (zoom_scale_val t k' Hf) as (K' & HK' & HK'r & Ex & Ey).
    destruct (@zoom_translate_val (zoom_scale z t k') p0 p1 K' HK' Hp0
                (finite_val _ Hp1) (finite_val _ Hp1'))
      as (X' & Y' & Hk2 & Hx2 & Hy2).
    eapply constrain_valid; eassumption.
  - exists 1%Q, 0%Q, 0%Q. unfold zoomIdentity. simpl.
    repeat split; try apply val_ofZ; lra.
Qed.

Lemma gestures_valid (gs : list Gesture) (t : ZoomTransform) :
  validTransform W H t -> Forall finiteGesture gs ->
  validTransform W H (fold_left (gesture_step z) gs t).
Proof.
  revert t. induction gs as [|g gs IH]; intros t Ht Hgs; simpl.
  - exact Ht.
  - inversion Hgs; subst. apply IH; [|assumption].
    apply gesture_step_valid; assumption.
Qed.

(** What being within the limits means for the visible window. *)
Lemma valid_window (t : ZoomTransform) :
  validTransform W H t ->
  (ofZ 1 <=? k t) = true /\ (k t <=? ofZ 12) = true /\
  (ofZ 0 <=? invertX t (ofZ 0)) = true /\
  (invertX t (innerWidth width) <=? innerWidth width) = true /\
  (ofZ 0 <=? invertY t (ofZ 0)) = true /\
  (invertY t (innerHeight height) <=? innerHeight height) = true /\
  (k t =~ 1 -> x t =~ 0 /\ y t =~ 0).
Proof.
  intros (K & X & Y & Hk & Hx & Hy & HK & HX & HY).
  assert (K_nz : ~ (K == 0)%Q) by (intro E; lra).
  assert (Ix0 : invertX t (ofZ 0) =~ ((0 - X) / K)%Q).
  { unfold invertX. apply val_div; [apply val_sub; [apply val_ofZ|]|..]; assumption. }
  assert (Ix1 : invertX t (innerWidth width) =~ ((W - X) / K)%Q).
  { unfold invertX. apply val_div; [apply val_sub|..]; assumption. }
  assert (Iy0 : invertY t (ofZ 0) =~ ((0 - Y) / K)%Q).
  { unfold invertY. apply val_div; [apply val_sub; [apply val_ofZ|]|..]; assumption. }
  assert (Iy1 : invertY t (innerHeight height) =~ ((H - Y) / K)%Q).
  { unfold invertY. apply val_div; [apply val_sub|..]; assumption. }
  assert (Ea : ((0 - X) / K * K == - X)%Q) by (field; exact K_nz).
  assert (Eb : ((W - X) / K * K == W - X)%Q) by (field; exact K_nz).
  assert (Ec : ((0 - Y) / K * K == - Y)%Q) by (field; exact K_nz).
  assert (Ed : ((H - Y) / K * K == H - Y)%Q) by (field; exact K_nz).
  split; [apply (val_leb (val_ofZ 1) Hk); unfold inject_Z; lra|].
  split; [apply (val_leb Hk (val_ofZ 12)); unfold inject_Z; lra|].
  split; [apply (val_leb (val_ofZ 0) Ix0); unfold inject_Z; nra|].
  split; [apply (val_leb Ix1 W_val); nra|].
  split; [apply (val_leb (val_ofZ 0) Iy0); unfold inject_Z; nra|].
  split; [apply (val_leb Iy1 H_val); nra|].
  intro H1. pose proof (val_unique Hk H1) as E.
  split; (eapply val_eq; [eassumption|]); nra.
Qed.

End Behavior.

(** Claim C9.  In a container of finite size, after any sequence of wheel,
    drag, pinch and double-click gestures with finite parameters the
    transform has its scale in [1, 12] and shows a window that lies inside
    the plotting rectangle on both axes; at scale 1 its translation is
    zero. *)
Theorem afterGestures_within_limits (width height : num) (gs : list Gesture) :
  isFinite width = true -> isFinite height = true ->
  Forall finiteGesture gs ->
  let t := afterGestures width height gs in
  (ofZ 1 <=? k t) = true /\ (k t <=? ofZ 12) = true /\
  (ofZ 0 <=? invertX t (ofZ 0)) = true /\
  (invertX t (innerWidth width) <=? innerWidth width) = true /\
  (ofZ 0 <=? invertY t (ofZ 0)) = true /\
  (invertY t (innerHeight height) <=? innerHeight height) = true /\
  (k t =~ 1 -> x t =~ 0 /\ y t =~ 0).
Proof.
  intros Hw Hh Hgs t.
  destruct (RoundTripFacts.innerWidth_val _ Hw) as (W & HW & HW40).
  destruct (RoundTripFacts.innerHeight_val _ Hh) as (H & HH & HH40).
  apply (@valid_window width height W H HW HH); try lra.
  subst t. unfold afterGestures.
  apply gestures_valid; try assumption; try lra.
  exists 1%Q, 0%Q, 0%Q. unfold zoomIdentity. simpl.
  repeat split; try apply val_ofZ; lra.
Qed.

End ZoomFacts.

Module ZoomWitness.
Import ValueFacts Chart ZoomFacts.

(** Zooming 3 times about a point, dragging the chart origin far to the
    right, then pinching beyond the upper limit: the drag is clamped back
    and the scale stops at 12. *)
Lemma afterGestures_within_limits_witness :
  let gs := [Wheel (ofZ 3) (ofZ 400, ofZ 300);
             Drag (ofZ 500, ofZ 500) (ofZ 0, ofZ 0);
             Pinch (ofZ 20) (ofZ 0, ofZ 0) (ofZ 10, ofZ 10)] in
  let t := afterGestures (ofZ 1000) (ofZ 700) gs in
  Forall finiteGesture gs /\
  afterGestures (ofZ 1000) (ofZ 700) [Wheel (ofZ 3) (ofZ 400, ofZ 300);
                                      Drag (ofZ 500, ofZ 500) (ofZ 0, ofZ 0)]
    = mkTransform (ofZ 3) (ofZ 0) (ofZ 0) /\
  t = mkTransform (ofZ 12) (ofZ (-120)) (ofZ (-120)) /\
  (ofZ 1 <=? k t) = true /\ (k t <=? ofZ 12) = true /\
  (ofZ 0 <=? invertX t (ofZ 0)) = true /\
  (invertX t (innerWidth (ofZ 1000)) <=? innerWidth (ofZ 1000)) = true.
Proof.
  intros gs t.
  assert (Hgs : Forall finiteGesture gs).
  { subst gs. repeat constructor. }
  pose proof (@afterGestures_within_limits (ofZ 1000) (ofZ 700) gs eq_refl eq_refl Hgs)
    as (H1 & H2 & H3 & H4 & _).
  split; [exact Hgs|].
  split; [vm_compute; reflexivity|].
  split; [vm_compute; reflexivity|].
  repeat split; assumption.
Defined.

End ZoomWitness.

(** ** The two state functions *)

Module StateFacts.

Lemma later_cons {A} (c : A) (l later rest : list A) :
  l = later ++ rest -> c :: l = (c :: later) ++ rest.
Proof. intros ->. reflexivity. Qed.

Ltac calls_made :=
  repeat (apply later_cons); exact (eq_refl : _ = [] ++ _).

Ltac run_solver lib system :=
  repeat match goal with
         | |- context [match ?f lib system ?a ?b ?c with _ => _ end] =>
             destruct (f lib system a b c) eqn:?; simpl
         | |- context [match ?f lib system ?a ?b with _ => _ end] =>
             destruct (f lib system a b) eqn:?; simpl
         end.

(** The two outcomes of [computePsychrometricsFromHumRatio]. *)
Lemma computePsychrometricsFromHumRatio_cases
    (lib : Psychrolib) (inputs : PsychroHumRatioInputs) (system : UnitSystem) (w : World) :
  let run := computePsychrometricsFromHumRatio lib inputs system w in
  fst run = Ret None \/
  exists st,
    fst run = Ret (Some st) /\
    st_dryBulb st = hin_dryBulb inputs /\
    st_humidityRatio st = hin_humidityRatio inputs /\
    consistentState lib system (hin_pressure inputs) st.
Proof.
  intro run. subst run. unfold computePsychrometricsFromHumRatio.
  unfold withUnitSystem, SetUnitSystem, tryCatch, bind,
    GetRelHumFromHumRatio, GetTWetBulbFromHumRatio, GetTDewPointFromHumRatio,
    GetMoistAirEnthalpy, GetMoistAirVolume, GetMoistAirDensity,
    GetVapPresFromHumRatio, GetSatHumRatio, invoke, ret.
  simpl.
  run_solver lib system; try (left; reflexivity).
  right. eexists. split; [reflexivity|]. simpl.
  unfold consistentState. simpl. repeat split; assumption.
Qed.


(** X2.  [computePsychrometrics] always returns, whatever the solver does,
    and leaves the library in the requested unit system.  It makes at most
    eight solver calls.  The result is [null] exactly when the solver
    throws on the humidity-ratio query or on one of the seven queries that
    follow, the first throw ending the calls; otherwise it is a state with
    the given dry bulb, the solver's humidity ratio at the clamped relative
    humidity, and every other field the solver's answer at that dry bulb
    and humidity ratio. *)
Theorem computePsychrometrics_result
    (lib : Psychrolib) (inputs : PsychroInputs) (system : UnitSystem) (w : World) :
  let t := in_dryBulb inputs in
  let p := in_pressure inputs in
  let fraction := clamp (in_relativeHumidity inputs / ofZ 100) (ofZ 0) (ofZ 1) in
  let run := computePsychrometrics lib inputs system w in
  units (snd run) = Some system /\
  (exists fns, functionsCalled w (snd run) fns /\ (List.length fns <= 8)%nat) /\
  ((fst run = Ret None /\
    (lib_GetHumRatioFromRelHum lib system t fraction p = None \/
     exists hr, lib_GetHumRatioFromRelHum lib system t fraction p = Some hr /\
                solverAnswers lib system t hr p = false)) \/
   (exists st,
      fst run = Ret (Some st) /\
      st_dryBulb st = t /\
      lib_GetHumRatioFromRelHum lib system t fraction p = Some (st_humidityRatio st) /\
      solverAnswers lib system t (st_humidityRatio st) p = true /\
      List.length (calls (snd run)) = (8 + List.length (calls w))%nat /\
      consistentState lib system p st)).
Proof.
  intros t p fraction run. subst run.
  unfold computePsychrometrics, solverAnswers, functionsCalled, callsBetween.
  fold t p fraction.
  unfold withUnitSystem, SetUnitSystem, tryCatch, bind,
    GetHumRatioFromRelHum, GetTWetBulbFromHumRatio, GetTDewPointFromHumRatio,
    GetMoistAirEnthalpy, GetMoistAirVolume, GetMoistAirDensity,
    GetVapPresFromHumRatio, GetSatHumRatio, invoke, ret.
  simpl.
  destruct (lib_GetHumRatioFromRelHum lib system t fraction p) as [hr|] eqn:Hhr; simpl.
  2:{ split; [reflexivity|].
      split; [eexists; split; [eexists; split; [calls_made|reflexivity]|]; simpl; lia|].
      left. split; [reflexivity|]. left. reflexivity. }
  run_solver lib system;
    (split; [reflexivity|]);
    (split; [eexists; split; [eexists; split; [calls_made|reflexivity]|]; simpl; lia|]);
    try (left; split; [reflexivity|]; right; exists hr; split; [reflexivity|];
         repeat match goal with H : _ = _ |- _ => rewrite H; clear H end;
         reflexivity).
  right. eexists. split; [reflexivity|]. simpl.
  split; [reflexivity|]. split; [reflexivity|].
  split; [repeat match goal with H : _ = Some _ |- _ => rewrite H; clear H end;
          reflexivity|].
  split; [reflexivity|].
  unfold consistentState. simpl. repeat split; assumption.
Qed.

End StateFacts.

(** ** The curves that walk the dry bulb *)

Module WalkFacts.
Import EffectFacts NumFacts.

Local Arguments bisect : simpl never.
Local Opaque bisectionSteps.

(** A loop over the dry bulb whose body pushes at most one point, at the
    loop variable. *)
Section Walk.

Variable body : num -> list CurvePoint -> M (list CurvePoint).
Variable J : World -> Prop.
Variable good : CurvePoint -> Prop.

Hypothesis body_Ret : forall t ps w ps' w',
  J w -> body t ps w = (Ret ps', w') ->
  J w' /\ (ps' = ps \/ exists p, ps' = ps ++ [p] /\ dryBulb p = t /\ good p).

Variables start hi : num.
Variable s : Q.
Hypothesis s_pos : (0 < s)%Q.

Let kept (p : CurvePoint) : Prop := onWalk start hi (Fin s) p /\ good p.

Lemma walk_finite (fuel : nat) (l : Q) (w w' : World) (points : list CurvePoint) :
  start = Fin l ->
  J w ->
  forLoop fuel (fun t => t <=? hi) (fun t => t + Fin s) body start [] w
    = (Ret points, w') ->
  J w' /\ StronglySorted dryBulb_lt points /\ Forall kept points.
Proof.
  intros Hstart HJ Hrun.
  pose (I := fun (t : num) (ps : list CurvePoint) (wa : World) =>
               J wa /\
               (exists n q, t = Fin q /\ t = stepped n start (Fin s) /\ (l <= q)%Q) /\
               Forall (fun p => (dryBulb p <? t) = true) ps /\
               StronglySorted dryBulb_lt ps /\ Forall kept ps).
  destruct (forLoop_inv I (fun t => t <=? hi) (fun t => t + Fin s) body) with
    (fuel := fuel) (t := start) (s := @nil CurvePoint) (w := w) (r := points) (w' := w')
    as (t' & _ & (HJ' & _ & _ & Hs & Hk)).
  - intros t ps wa ps' wb Hc (HJa & (n & q & Hq & Hn & Hlq) & Hlt & Hs & Hk) Hb.
    destruct (body_Ret HJa Hb) as [HJb Hcases].
    assert (Hup : (t <? t + Fin s) = true).
    { rewrite Hq. apply add_pos_ltb. exact s_pos. }
    assert (Hlt' : Forall (fun p => (dryBulb p <? t + Fin s) = true) ps).
    { eapply Forall_impl; [|exact Hlt]. intros p Hp. simpl in Hp.
      eapply SaturationFacts.num_ltb_trans; eassumption. }
    split; [exact HJb|].
    split.
    { exists (S n), (Qred (q + s)). split; [rewrite Hq; reflexivity|].
      split; [simpl; rewrite <- Hn; reflexivity|]. rewrite Qred_correct. lra. }
    destruct Hcases as [->|(p & -> & Hp & Hgood)].
    + repeat split; assumption.
    + split; [|split].
      * apply Forall_app. split; [exact Hlt'|].
        constructor; [rewrite Hp; exact Hup | constructor].
      * apply SaturationFacts.StronglySorted_snoc; [exact Hs|].
        eapply Forall_impl; [|exact Hlt]. intros p0 Hp0. unfold dryBulb_lt.
        rewrite Hp. exact Hp0.
      * apply Forall_app. split; [exact Hk|]. constructor; [|constructor].
        split; [|exact Hgood]. unfold onWalk. rewrite Hp.
        split; [exists n; exact Hn|]. split; [|exact Hc].
        rewrite Hstart, Hq. apply leb_Fin. exact Hlq.
  - split; [exact HJ|].
    split; [exists O, l; split; [exact Hstart|]; split; [reflexivity | lra]|].
    repeat split; constructor.
  - exact Hrun.
  - repeat split; assumption.
Qed.

(** From a start that is not finite the loop variable never moves, so the
    loop returns only when it does not run at all. *)
Lemma walk_not_finite (fuel : nat) (w w' : World) (points : list CurvePoint) :
  isFinite start = false ->
  forLoop fuel (fun t => t <=? hi) (fun t => t + Fin s) body start [] w
    = (Ret points, w') ->
  points = [] /\ w' = w.
Proof.
  intros Hstart Hrun.
  destruct (start <=? hi) eqn:Hc.
  - exfalso.
    pose (I := fun (t : num) (ps : list CurvePoint) (wa : World) => t = start).
    destruct (forLoop_inv I (fun t => t <=? hi) (fun t => t + Fin s) body) with
      (fuel := fuel) (t := start) (s := @nil CurvePoint) (w := w) (r := points) (w' := w')
      as (t' & Hc' & Ht').
    + intros t ps wa ps' wb _ Ht _. unfold I in *. subst t.
      destruct start; simpl in *; congruence.
    + reflexivity.
    + exact Hrun.
    + unfold I in Ht'. subst t'. congruence.
  - destruct fuel as [|fuel]; [discriminate|].
    simpl in Hrun. rewrite Hc in Hrun. inversion Hrun. split; reflexivity.
Qed.

Lemma walk_points (fuel : nat) (w w' : World) (points : list CurvePoint) :
  J w ->
  forLoop fuel (fun t => t <=? hi) (fun t => t + Fin s) body start [] w
    = (Ret points, w') ->
  J w' /\ StronglySorted dryBulb_lt points /\ Forall kept points.
Proof.
  intros HJ Hrun. destruct (isFinite start) eqn:Hf.
  - apply isFinite_Fin in Hf. destruct Hf as [l Hl].
    eapply walk_finite; eassumption.
  - destruct (walk_not_finite _ _ Hf Hrun) as [-> ->].
    split; [exact HJ|]. split; constructor.
Qed.

End Walk.

Section Samples.

Variable lib : Psychrolib.
Variable system : UnitSystem.
Variable pressure : num.

Let inSystem (w : World) : Prop := units w = Some system.

Lemma relativeHumiditySample_point (level t : num) (ps : list CurvePoint)
    (w : World) (ps' : list CurvePoint) (w' : World) :
  inSystem w ->
  relativeHumiditySample lib pressure level t ps w = (Ret ps', w') ->
  inSystem w' /\
  (ps' = ps \/
   exists p, ps' = ps ++ [p] /\ dryBulb p = t /\
             onRelativeHumidityCurve lib system pressure level p).
Proof.
  unfold inSystem. intro Hu.
  unfold relativeHumiditySample, tryCatch, bind, GetHumRatioFromRelHum,
    GetMoistAirEnthalpy, invoke, ret. simpl. rewrite Hu.
  destruct (lib_GetHumRatioFromRelHum lib system t level pressure) as [hr|] eqn:Hhr; simpl.
  - destruct (lib_GetMoistAirEnthalpy lib system t hr) as [e|] eqn:He; simpl;
      intro H; inversion H; subst; simpl; (split; [reflexivity|]); auto.
    right. exists (mkPoint t hr e). repeat split; assumption.
  - intro H. inversion H; subst. simpl. auto.
Qed.

Lemma wetBulbSample_point (target t : num) (ps : list CurvePoint)
    (w : World) (ps' : list CurvePoint) (w' : World) :
  inSystem w ->
  wetBulbSample lib pressure target t ps w = (Ret ps', w') ->
  inSystem w' /\
  (ps' = ps \/
   exists p, ps' = ps ++ [p] /\ dryBulb p = t /\
             onWetBulbLine lib system pressure target p).
Proof.
  unfold inSystem. intro Hu.
  unfold wetBulbSample, tryCatch, bind, GetHumRatioFromTWetBulb,
    GetMoistAirEnthalpy, invoke, ret. simpl. rewrite Hu.
  destruct (lib_GetHumRatioFromTWetBulb lib system t target pressure) as [hr|] eqn:Hhr;
    simpl.
  - destruct (isFinite hr) eqn:Hfin; simpl.
    + destruct (lib_GetMoistAirEnthalpy lib system t hr) as [e|] eqn:He; simpl;
        intro H; inversion H; subst; simpl; (split; [reflexivity|]); auto.
      right. exists (mkPoint t hr e). repeat split; assumption.
    + intro H. inversion H; subst. simpl. auto.
  - intro H. inversion H; subst. simpl. auto.
Qed.

Lemma specificVolumeSample_point (target tolerance t : num) (ps : list CurvePoint)
    (w : World) (ps' : list CurvePoint) (w' : World) :
  inSystem w ->
  specificVolumeSample lib pressure target tolerance t ps w = (Ret ps', w') ->
  inSystem w' /\
  (ps' = ps \/
   exists p, ps' = ps ++ [p] /\ dryBulb p = t /\
             onSpecificVolumeLine lib system pressure p).
Proof.
  unfold inSystem. intros Hu Hrun.
  pose proof (GeneratorFacts.specificVolumeSample_calls lib pressure target tolerance
                t ps w) as [Hu' _].
  rewrite Hrun in Hu'. simpl in Hu'. split; [congruence|].
  unfold specificVolumeSample, tryCatch, bind in Hrun.
  destruct (GetSatHumRatio lib t pressure w) as [[sat| |] w1] eqn:Hsat;
    try (inversion Hrun; subst; left; reflexivity).
  assert (Hsat' : lib_GetSatHumRatio lib system t pressure = Some sat).
  { unfold GetSatHumRatio in Hsat.
    exact (@GeneratorFacts.invoke_Ret _ _ (fun u => lib_GetSatHumRatio lib u t pressure)
             _ _ _ _ Hu Hsat). }
  pose proof (GeneratorFacts.invoke_world FnGetSatHumRatio [t; pressure]
                (fun u => lib_GetSatHumRatio lib u t pressure) w) as Hw1.
  fold (GetSatHumRatio lib t pressure) in Hw1. rewrite Hsat in Hw1. simpl in Hw1.
  destruct (negb (isFinite sat) || (sat <=? ofZ 0)) eqn:Hbad;
    [inversion Hrun; subst; left; reflexivity|].
  apply orb_false_iff in Hbad. destruct Hbad as [Hfin _].
  apply negb_false_iff in Hfin.
  pose proof (GeneratorFacts.bisect_calls lib pressure target tolerance
                bisectionSteps t (ofZ 0) sat sat w1) as [Hu2 _].
  destruct (bisect lib bisectionSteps pressure target tolerance t (ofZ 0) sat sat w1)
    as [[hr| |] w2]; try (inversion Hrun; subst; left; reflexivity).
  simpl in Hu2. rewrite Hw1 in Hu2. simpl in Hu2. rewrite Hu in Hu2.
  destruct ((hr >? ofZ 0) && (hr <=? sat)) eqn:Hok;
    [|inversion Hrun; subst; left; reflexivity].
  apply andb_true_iff in Hok. destruct Hok as [Hpos Hle].
  destruct (GetMoistAirEnthalpy lib t hr w2) as [[e| |] w3] eqn:He;
    inversion Hrun; subst; try (left; reflexivity).
  right. exists (mkPoint t hr e). split; [reflexivity|]. split; [reflexivity|].
  split.
  - exists sat. simpl. repeat split; assumption.
  - simpl. unfold GetMoistAirEnthalpy in He.
    exact (@GeneratorFacts.invoke_Ret _ _ (fun u => lib_GetMoistAirEnthalpy lib u t hr)
             _ _ _ _ Hu2 He).
Qed.

End Samples.

Lemma max_leb (a b c : num) :
  (Math_max a b <=? c) = true -> (a <=? c) = true /\ (b <=? c) = true.
Proof.
  unfold Math_max.
  destruct a as [| | |x], b as [| | |y], c as [| | |z]; simpl; try discriminate; auto;
    destruct (Qle_bool x y) eqn:E; simpl; try discriminate; intro H; split; auto.
  - apply Qle_bool_iff in E, H. apply Qle_bool_iff. lra.
  - apply leb_Fin_false in E. apply Qle_bool_iff in H. apply Qle_bool_iff. lra.
Qed.

Lemma curvesOf_impl (good good' : num -> CurvePoint -> Prop)
    (levels : list num) (curves : list Curve) :
  (forall level p, good level p -> good' level p) ->
  curvesOf good levels curves -> curvesOf good' levels curves.
Proof.
  intros Himp H. induction H as [|l c ls cs (Hl & Hs & Hg) _ IH]; constructor.
  - split; [exact Hl|]. split; [exact Hs|].
    eapply Forall_impl; [|exact Hg]. apply Himp.
  - exact IH.
Qed.

(** X3.  Whatever [generateRelativeHumidityCurves] returns for a finite
    positive step answers the levels one to one and in order, a level whose
    every sample failed included.  The points of a curve are in strictly
    increasing order of dry bulb; each was sampled on the walk from [lo]
    by the step, not above [hi], and carries the solver's humidity ratio
    at that dry bulb and the curve's level, and the solver's enthalpy. *)
Theorem generateRelativeHumidityCurves_points
    (lib : Psychrolib) (system : UnitSystem) (pressure lo hi : num)
    (levels : option (list num)) (step : option num) (s : Q)
    (fuel : nat) (w w' : World) (curves : list Curve) :
  orDefault step (match system with si => ofZ 1 | ip => ofZ 2 end) = Fin s ->
  (0 < s)%Q ->
  generateRelativeHumidityCurves lib fuel system pressure (lo, hi) levels step w
    = (Ret curves, w') ->
  curvesOf (fun level p =>
              onWalk lo hi (Fin s) p /\
              onRelativeHumidityCurve lib system pressure level p)
           (orDefault levels defaultRelativeHumidityLevels) curves.
Proof.
  intros Hstep Hs Hrun.
  unfold generateRelativeHumidityCurves, withUnitSystem in Hrun. rewrite Hstep in Hrun.
  apply bind_Ret_inv in Hrun. destruct Hrun as ([] & w0 & Hset & Hmap).
  unfold SetUnitSystem in Hset. inversion Hset; subst w0; clear Hset.
  refine (proj1 (mapM_inv _ _ (fun wa => units wa = Some system) _ _ _
                   (eq_refl : units (mkWorld (Some system) (calls w)) = Some system)
                   Hmap)).
  intros level wa curve wb Hu Hb. unfold relativeHumidityCurve in Hb.
  apply bind_Ret_inv in Hb. destruct Hb as (ps & w1 & Hloop & Hret).
  inversion Hret; subst; clear Hret. simpl in *.
  destruct (@walk_points (relativeHumiditySample lib pressure level)
              (fun wa => units wa = Some system)
              (onRelativeHumidityCurve lib system pressure level)
              (@relativeHumiditySample_point lib system pressure level)
              lo hi s Hs fuel wa wb ps Hu Hloop) as (Hu' & Hsorted & Hkept).
  repeat split; assumption.
Qed.

(** X4.  Whatever [generateWetBulbLines] returns for a finite positive
    step answers the targets one to one and in order.  The points of a line
    are in strictly increasing order of dry bulb; each was sampled on the
    walk that starts at the larger of the target and [lo], so its dry bulb
    is at least the wet-bulb target and lies in [lo, hi]; and each carries
    the solver's humidity ratio at that dry bulb and target, which is a
    finite number, and the solver's enthalpy. *)
Theorem generateWetBulbLines_points
    (lib : Psychrolib) (system : UnitSystem) (pressure lo hi : num)
    (targets : list num) (s : Q) (fuel : nat) (w w' : World) (curves : list Curve) :
  (0 < s)%Q ->
  generateWetBulbLines lib fuel system pressure (lo, hi) targets (Fin s) w
    = (Ret curves, w') ->
  curvesOf (fun target p =>
              onWalk (Math_max target lo) hi (Fin s) p /\
              (target <=? dryBulb p) = true /\ (lo <=? dryBulb p) = true /\
              onWetBulbLine lib system pressure target p)
           targets curves.
Proof.
  intros Hs Hrun.
  unfold generateWetBulbLines, withUnitSystem in Hrun.
  apply bind_Ret_inv in Hrun. destruct Hrun as ([] & w0 & Hset & Hmap).
  unfold SetUnitSystem in Hset. inversion Hset; subst w0; clear Hset.
  refine (proj1 (mapM_inv _ _ (fun wa => units wa = Some system) _ _ _
                   (eq_refl : units (mkWorld (Some system) (calls w)) = Some system)
                   Hmap)).
  intros target wa curve wb Hu Hb. unfold wetBulbLine in Hb.
  destruct (negb (isFinite target)).
  { inversion Hb; subst. simpl. repeat split; try constructor. exact Hu. }
  apply bind_Ret_inv in Hb. destruct Hb as (ps & w1 & Hloop & Hret).
  inversion Hret; subst; clear Hret. simpl in *.
  destruct (@walk_points (wetBulbSample lib pressure target)
              (fun wa => units wa = Some system)
              (onWetBulbLine lib system pressure target)
              (@wetBulbSample_point lib system pressure target)
              (Math_max target lo) hi s Hs fuel wa wb ps Hu Hloop)
    as (Hu' & Hsorted & Hkept).
  split; [|exact Hu']. split; [reflexivity|]. split; [exact Hsorted|].
  eapply Forall_impl; [|exact Hkept]. intros p [Hwalk Hgood].
  destruct (max_leb _ _ _ (proj1 (proj2 Hwalk))) as [Ht Hl].
  split; [exact Hwalk|]. split; [exact Ht|]. split; [exact Hl | exact Hgood].
Qed.

(** X5.  Whatever [generateSpecificVolumeLines] returns for a finite
    positive step answers the targets one to one and in order.  The points
    of a line are in strictly increasing order of dry bulb; each was
    sampled on the walk from [lo] by the step, not above [hi]; its humidity
    ratio is finite, positive and not above the solver's saturation
    humidity ratio at that dry bulb; and it carries the solver's
    enthalpy. *)
Theorem generateSpecificVolumeLines_points
    (lib : Psychrolib) (system : UnitSystem) (pressure lo hi : num)
    (targets : list num) (s : Q) (tolerance : option num)
    (fuel : nat) (w w' : World) (curves : list Curve) :
  (0 < s)%Q ->
  generateSpecificVolumeLines lib fuel system pressure (lo, hi) targets (Fin s)
    tolerance w = (Ret curves, w') ->
  curvesOf (fun target p =>
              onWalk lo hi (Fin s) p /\
              isFinite (humidityRatio p) = true /\
              onSpecificVolumeLine lib system pressure p)
           targets curves.
Proof.
  intros Hs Hrun.
  unfold generateSpecificVolumeLines, withUnitSystem in Hrun.
  apply bind_Ret_inv in Hrun. destruct Hrun as ([] & w0 & Hset & Hmap).
  unfold SetUnitSystem in Hset. inversion Hset; subst w0; clear Hset.
  refine (proj1 (mapM_inv _ _ (fun wa => units wa = Some system) _ _ _
                   (eq_refl : units (mkWorld (Some system) (calls w)) = Some system)
                   Hmap)).
  intros target wa curve wb Hu Hb. unfold specificVolumeLine in Hb.
  destruct (negb (isFinite target) || (target <=? ofZ 0)).
  { inversion Hb; subst. simpl. repeat split; try constructor. exact Hu. }
  apply bind_Ret_inv in Hb. destruct Hb as (ps & w1 & Hloop & Hret).
  inversion Hret; subst; clear Hret. simpl in *.
  destruct (@walk_points
              (specificVolumeSample lib pressure target (orDefault tolerance (dec 1 10000)))
              (fun wa => units wa = Some system)
              (onSpecificVolumeLine lib system pressure)
              (@specificVolumeSample_point lib system pressure target
                 (orDefault tolerance (dec 1 10000)))
              lo hi s Hs fuel wa wb ps Hu Hloop)
    as (Hu' & Hsorted & Hkept).
  split; [|exact Hu']. split; [reflexivity|]. split; [exact Hsorted|].
  eapply Forall_impl; [|exact Hkept]. intros p [Hwalk [Hb He]].
  split; [exact Hwalk|]. split; [|split; assumption].
  eapply GeneratorFacts.inBracket_finite. exact Hb.
Qed.

End WalkFacts.

Module WalkWitness.
Import WalkFacts.

(** The 50 % curve from 0 to 2 by steps of 1, on a solver that answers 1. *)
Lemma generateRelativeHumidityCurves_points_witness :
  exists curves w',
    generateRelativeHumidityCurves (constantSolver (ofZ 1)) 4 si (ofZ 101325)
      (ofZ 0, ofZ 2) (Some [dec 1 2]) (Some (ofZ 1)) initialWorld = (Ret curves, w') /\
    curvesOf (fun level p =>
                onWalk (ofZ 0) (ofZ 2) (Fin 1) p /\
                onRelativeHumidityCurve (constantSolver (ofZ 1)) si (ofZ 101325) level p)
             [dec 1 2] curves.
Proof.
  eexists. eexists. split.
  - vm_compute. reflexivity.
  - refine (@generateRelativeHumidityCurves_points (constantSolver (ofZ 1)) si
              (ofZ 101325) (ofZ 0) (ofZ 2) (Some [dec 1 2]) (Some (ofZ 1)) 1
              4%nat initialWorld _ _ eq_refl eq_refl _).
    vm_compute. reflexivity.
Defined.

(** The wet-bulb line of 0 from 0 to 2 by steps of 1, on a solver whose
    humidity ratio at dry bulb 1 is [NaN]: that sample is dropped. *)
Lemma generateWetBulbLines_points_witness :
  exists curves w',
    generateWetBulbLines nanAtOneSolver 4 si (ofZ 101325) (ofZ 0, ofZ 2)
      [ofZ 0] (Fin 1) initialWorld = (Ret curves, w') /\
    map (fun curve => List.length (points curve)) curves = [2%nat] /\
    curvesOf (fun target p =>
                onWalk (Math_max target (ofZ 0)) (ofZ 2) (Fin 1) p /\
                (target <=? dryBulb p) = true /\ (ofZ 0 <=? dryBulb p) = true /\
                onWetBulbLine nanAtOneSolver si (ofZ 101325) target p)
             [ofZ 0] curves.
Proof.
  eexists. eexists. split; [vm_compute; reflexivity|]. split; [reflexivity|].
  refine (@generateWetBulbLines_points nanAtOneSolver si (ofZ 101325) (ofZ 0) (ofZ 2)
            [ofZ 0] 1 4%nat initialWorld _ _ eq_refl _).
  vm_compute. reflexivity.
Defined.

(** The line of 0.81 from 0 to 1 by steps of 1, on [volumeSolver]. *)
Lemma generateSpecificVolumeLines_points_witness :
  exists curves w',
    generateSpecificVolumeLines volumeSolver 3 si (ofZ 101325) (ofZ 0, ofZ 1)
      [dec 81 100] (Fin 1) None initialWorld = (Ret curves, w') /\
    map (fun curve => List.length (points curve)) curves = [2%nat] /\
    curvesOf (fun target p =>
                onWalk (ofZ 0) (ofZ 1) (Fin 1) p /\
                isFinite (humidityRatio p) = true /\
                onSpecificVolumeLine volumeSolver si (ofZ 101325) p)
             [dec 81 100] curves.
Proof.
  eexists. eexists. split; [vm_compute; reflexivity|]. split; [reflexivity|].
  refine (@generateSpecificVolumeLines_points volumeSolver si (ofZ 101325) (ofZ 0) (ofZ 1)
            [dec 81 100] 1 None 3%nat initialWorld _ _ eq_refl _).
  vm_compute. reflexivity.
Defined.

End WalkWitness.

(** ** Empty domains and steps that do not advance *)

Module EdgeFacts.
Import EffectFacts NumFacts.

Local Arguments bisect : simpl never.
Local Opaque bisectionSteps.

(** A callback that returns without touching the world, mapped. *)
Lemma mapM_untouched_all {A B} (f : A -> M B) (P : B -> Prop) (w : World) (xs : list A) :
  (forall x, exists y, f x w = (Ret y, w) /\ P y) ->
  exists ys, mapM f xs w = (Ret ys, w) /\ Forall P ys.
Proof.
  intro Hf. induction xs as [|x xs (ys & Hys & HP)]; simpl.
  - exists []. split; [reflexivity | constructor].
  - destruct (Hf x) as (y & Hy & Py). exists (y :: ys).
    unfold bind. rewrite Hy, Hys. split; [reflexivity | constructor; assumption].
Qed.

(** X6.  On an empty dry-bulb domain, [lo <= hi] false (a bound that is
    [NaN] included), the generators that walk the dry bulb return at once:
    the saturation curve and one curve per level or target, all without a
    point, and not one solver call is made.  [generateEnthalpyLines], which
    walks the humidity ratio, still queries the solver, but keeps no point. *)
Theorem empty_domain_gives_empty_curves
    (lib : Psychrolib) (fuel : nat) (system : UnitSystem) (pressure lo hi : num)
    (w : World) :
  (lo <=? hi) = false ->
  (forall step, exists curve,
     generateSaturationCurve lib (S fuel) system pressure (lo, hi) step w
       = (Ret curve, onlyUnitsSet system w) /\
     sat_points curve = []) /\
  (forall levels step, exists curves,
     generateRelativeHumidityCurves lib (S fuel) system pressure (lo, hi) levels step w
       = (Ret curves, onlyUnitsSet system w) /\
     noPoints curves) /\
  (forall targets step, exists curves,
     generateWetBulbLines lib (S fuel) system pressure (lo, hi) targets step w
       = (Ret curves, onlyUnitsSet system w) /\
     noPoints curves) /\
  (forall targets step tolerance, exists curves,
     generateSpecificVolumeLines lib (S fuel) system pressure (lo, hi) targets step
       tolerance w
       = (Ret curves, onlyUnitsSet system w) /\
     noPoints curves) /\
  (forall values step fuel' curves w',
     generateEnthalpyLines lib fuel' system pressure (lo, hi) values step w
       = (Ret curves, w') ->
     noPoints curves).
Proof.
  intro Hempty. unfold onlyUnitsSet, noPoints.
  split; [|split; [|split; [|split]]].
  - intro step. eexists.
    unfold generateSaturationCurve, withUnitSystem, SetUnitSystem, bind. simpl.
    rewrite Hempty. unfold ret. split; reflexivity.
  - intros levels step.
    unfold generateRelativeHumidityCurves, withUnitSystem, SetUnitSystem, bind.
    apply mapM_untouched_all. intro level. eexists.
    unfold relativeHumidityCurve, bind. simpl. rewrite Hempty.
    unfold ret. split; reflexivity.
  - intros targets step.
    unfold generateWetBulbLines, withUnitSystem, SetUnitSystem, bind.
    apply mapM_untouched_all. intro target.
    unfold wetBulbLine. destruct (negb (isFinite target)).
    + eexists. unfold ret. split; reflexivity.
    + assert (Hstart : (Math_max target lo <=? hi) = false).
      { destruct (Math_max target lo <=? hi) eqn:E; [|reflexivity].
        apply WalkFacts.max_leb in E. destruct E as [_ E]. congruence. }
      eexists. unfold bind. simpl. rewrite Hstart. unfold ret. split; reflexivity.
  - intros targets step tolerance.
    unfold generateSpecificVolumeLines, withUnitSystem, SetUnitSystem, bind.
    apply mapM_untouched_all. intro target.
    unfold specificVolumeLine.
    destruct (negb (isFinite target) || (target <=? ofZ 0)).
    + eexists. unfold ret. split; reflexivity.
    + eexists. unfold bind. simpl. rewrite Hempty. unfold ret. split; reflexivity.
  - intros values step fuel' curves w' Hrun.
    unfold generateEnthalpyLines, withUnitSystem in Hrun.
    apply bind_Ret_inv in Hrun. destruct Hrun as ([] & w0 & Hset & Hmap).
    unfold SetUnitSystem in Hset. inversion Hset; subst w0; clear Hset.
    assert (HF : Forall2 (fun (_ : num) curve => points curve = [])
                   (orDefault values (defaultEnthalpyValues system)) curves).
    { refine (proj1 (mapM_inv _ _ (inv_world system w) _ _ _ _ Hmap)).
      - intros target wa curve wb HJ Hb.
        destruct (EnthalpyFacts.enthalpyLine_Ret _ _ _ _ _ _ HJ Hb) as [[_ HP] HJ'].
        split; [|exact HJ'].
        destruct (points curve) as [|p ps]; [reflexivity|].
        inversion HP as [|? ? (_ & _ & _ & _ & H1 & H2 & _) _]; subst.
        exfalso. rewrite (leb_trans _ _ _ H1 H2) in Hempty. discriminate.
      - split; [reflexivity|]. exists []. split; [reflexivity | constructor]. }
    clear -HF. induction HF; constructor; assumption.
Qed.

(** A loop whose variable does not advance never leaves a domain it is in. *)
Lemma forLoop_stuck {S} (bound step : Q) (body : num -> S -> M S) :
  (step <= 0)%Q ->
  (forall t s, total (body t s)) ->
  forall fuel (t : Q) (s : S) (w : World),
    (t <= bound)%Q ->
    fst (forLoop fuel (fun t => t <=? Fin bound) (fun t => t + Fin step) body (Fin t) s w)
      = Diverge.
Proof.
  intros Hstep Hbody fuel. induction fuel as [|fuel IH]; intros t s w Ht.
  - reflexivity.
  - simpl. assert (E : Qle_bool t bound = true) by (apply Qle_bool_iff; exact Ht).
    rewrite E. unfold bind. destruct (Hbody (Fin t) s w) as (s1 & w1 & ->).
    apply IH. rewrite Qred_correct. lra.
Qed.

Lemma diverge_bind {A B} (m : M A) (f : A -> M B) (w : World) :
  fst (m w) = Diverge -> fst (bind m f w) = Diverge.
Proof.
  unfold bind. destruct (m w) as [[a| |] w1]; simpl; intro H; congruence.
Qed.

Lemma diverge_mapM {A B} (f : A -> M B) (x : A) (xs : list A) (w : World) :
  fst (f x w) = Diverge -> fst (mapM f (x :: xs) w) = Diverge.
Proof. intro H. simpl. apply diverge_bind. exact H. Qed.

(** X7.  With a finite step that is zero or negative no generator returns
    once it has a sample to take: on a non-empty finite domain the walk of
    the dry bulb never leaves the domain (the saturation curve, the first
    relative-humidity level, the first wet-bulb target not above [hi], the
    first positive specific-volume target), and the walk of the humidity
    ratio never leaves [0, 0.06] (the first enthalpy target). *)
Theorem nonpositive_step_never_returns
    (lib : Psychrolib) (system : UnitSystem) (pressure : num) (l h s : Q) (w : World) :
  (l <= h)%Q -> (s <= 0)%Q ->
  neverReturns (fun fuel =>
    generateSaturationCurve lib fuel system pressure (Fin l, Fin h) (Some (Fin s))) w /\
  (forall level levels, neverReturns (fun fuel =>
     generateRelativeHumidityCurves lib fuel system pressure (Fin l, Fin h)
       (Some (level :: levels)) (Some (Fin s))) w) /\
  (forall target targets, neverReturns (fun fuel =>
     generateEnthalpyLines lib fuel system pressure (Fin l, Fin h)
       (Some (target :: targets)) (Some (Fin s))) w) /\
  (forall (target : Q) targets, (target <= h)%Q -> neverReturns (fun fuel =>
     generateWetBulbLines lib fuel system pressure (Fin l, Fin h)
       (Fin target :: targets) (Fin s)) w) /\
  (forall (target : Q) targets tolerance, (0 < target)%Q -> neverReturns (fun fuel =>
     generateSpecificVolumeLines lib fuel system pressure (Fin l, Fin h)
       (Fin target :: targets) (Fin s) tolerance) w).
Proof.
  intros Hlh Hs. unfold neverReturns.
  split; [|split; [|split; [|split]]].
  - intro fuel. unfold generateSaturationCurve, withUnitSystem, SetUnitSystem.
    unfold bind at 1. apply diverge_bind. simpl.
    apply forLoop_stuck; [exact Hs | | exact Hlh].
    intros t ps. apply SaturationFacts.saturationSample_total.
  - intros level levels fuel.
    unfold generateRelativeHumidityCurves, withUnitSystem, SetUnitSystem.
    unfold bind at 1. apply diverge_mapM. unfold relativeHumidityCurve.
    apply diverge_bind. simpl.
    apply forLoop_stuck; [exact Hs | | exact Hlh].
    intros t ps. apply GeneratorFacts.relativeHumiditySample_total.
  - intros target targets fuel.
    unfold generateEnthalpyLines, withUnitSystem, SetUnitSystem.
    unfold bind at 1. apply diverge_mapM. unfold enthalpyLine.
    apply diverge_bind. simpl.
    change (dec 6 100) with (Fin (3 # 50)). change (ofZ 0) with (Fin 0).
    apply forLoop_stuck; [exact Hs | | discriminate].
    intros t ps. apply EnthalpyFacts.enthalpySample_total.
  - intros target targets Ht fuel.
    unfold generateWetBulbLines, withUnitSystem, SetUnitSystem.
    unfold bind at 1. apply diverge_mapM. unfold wetBulbLine. simpl.
    apply diverge_bind. unfold Math_max. simpl.
    destruct (Qle_bool target l) eqn:E.
    + apply forLoop_stuck; [exact Hs | | exact Hlh].
      intros t ps. apply GeneratorFacts.wetBulbSample_total.
    + apply forLoop_stuck; [exact Hs | | exact Ht].
      intros t ps. apply GeneratorFacts.wetBulbSample_total.
  - intros target targets tolerance Ht fuel.
    unfold generateSpecificVolumeLines, withUnitSystem, SetUnitSystem.
    unfold bind at 1. apply diverge_mapM. unfold specificVolumeLine. simpl.
    assert (E : Qle_bool target (inject_Z 0) = false).
    { apply (proj2 (leb_Fin_false _ _)). exact Ht. }
    rewrite E. simpl.
    apply diverge_bind.
    apply forLoop_stuck; [exact Hs | | exact Hlh].
    intros t ps. apply GeneratorFacts.specificVolumeSample_total.
Qed.

(** The saturation curve from 0 to 1 with a step of 0. *)
Lemma nonpositive_step_never_returns_witness :
  (0 <= 1)%Q /\ (0 <= 0)%Q /\
  neverReturns (fun fuel =>
    generateSaturationCurve (constantSolver (ofZ 1)) fuel si (ofZ 101325)
      (Fin 0, Fin 1) (Some (Fin 0))) initialWorld.
Proof.
  split; [discriminate|]. split; [discriminate|].
  exact (proj1 (@nonpositive_step_never_returns (constantSolver (ofZ 1)) si (ofZ 101325)
                  0 1 0 initialWorld ltac:(discriminate) ltac:(discriminate))).
Defined.

(** The domain from 1 to 0. *)
Lemma empty_domain_gives_empty_curves_witness :
  (ofZ 1 <=? ofZ 0) = false /\
  exists curves,
    generateWetBulbLines (constantSolver (ofZ 1)) 1 si (ofZ 101325) (ofZ 1, ofZ 0)
      [ofZ 0; ofZ 5] (ofZ 1) initialWorld
      = (Ret curves, onlyUnitsSet si initialWorld) /\
    noPoints curves.
Proof.
  split; [reflexivity|].
  exact (proj1 (proj2 (proj2 (@empty_domain_gives_empty_curves (constantSolver (ofZ 1))
                                0 si (ofZ 101325) (ofZ 1) (ofZ 0) initialWorld eq_refl)))
           [ofZ 0; ofZ 5] (ofZ 1)).
Defined.

End EdgeFacts.

(** ** Sampling steps and requested levels *)

Module StepFacts.
Import FloatFacts Lod LodFacts.

Local Open Scope float_scope.

(** X8.  At every zoom, [NaN] and the infinities included, and in both
    unit systems, the four sampling steps the chart passes to the
    generators are finite and positive; and zooming in never coarsens a
    step: for zooms [k1 < k2] each step at [k2] is at most the step at
    [k1]. *)
Theorem sampling_steps_refine (unitSystem : UnitSystem) :
  (forall k,
     positiveLevel (humidityCurveStep unitSystem k) = true /\
     positiveLevel (enthalpyStep k) = true /\
     positiveLevel (wetBulbStep unitSystem k) = true /\
     positiveLevel (specificVolumeStep unitSystem k) = true) /\
  (forall k1 k2, (k1 <? k2) = true ->
     (humidityCurveStep unitSystem k2 <=? humidityCurveStep unitSystem k1) = true /\
     (enthalpyStep k2 <=? enthalpyStep k1) = true /\
     (wetBulbStep unitSystem k2 <=? wetBulbStep unitSystem k1) = true /\
     (specificVolumeStep unitSystem k2 <=? specificVolumeStep unitSystem k1) = true).
Proof.
  split.
  - intro k.
    unfold humidityCurveStep, enthalpyStep, wetBulbStep, specificVolumeStep.
    destruct unitSystem; repeat split;
      repeat match goal with
             | |- context [?c <? k] => destruct (c <? k)
             end; vm_compute; reflexivity.
  - intros k1 k2 H.
    assert (T : forall c, (c <? k1) = true -> (c <? k2) = true).
    { intros c Hc. exact (float_ltb_trans Hc H). }
    unfold humidityCurveStep, enthalpyStep, wetBulbStep, specificVolumeStep.
    destruct unitSystem; repeat split;
      repeat match goal with
             | |- context [?c <? k1] =>
                 let E := fresh "E" in
                 destruct (c <? k1) eqn:E; [rewrite (T c E)|]
             end;
      repeat match goal with
             | |- context [?c <? k2] => destruct (c <? k2)
             end; vm_compute; reflexivity.
Qed.

(** The steps at the zooms 1.5 and 6. *)
Lemma sampling_steps_refine_witness :
  (1.5 <? 6) = true /\
  (humidityCurveStep si 6 <=? humidityCurveStep si 1.5) = true /\
  (humidityCurveStep si 6 <? humidityCurveStep si 1.5) = true.
Proof.
  split; [reflexivity|].
  split; [exact (proj1 (proj2 (sampling_steps_refine si) 1.5 6 eq_refl)) | reflexivity].
Defined.

(** X9.  At every zoom and in both unit systems the chart requests only
    levels the generators sample: relative-humidity levels strictly between
    0 and 1, finite enthalpy and wet-bulb targets, and finite positive
    specific-volume targets, so the generators' guards against targets
    that are not finite or not positive never meet a level the chart
    asked for. *)
Theorem requested_levels_are_valid (unitSystem : UnitSystem) (k : float) :
  (exists levels,
     relativeHumidityLevels k = Some levels /\
     forallb (fun l => (0 <? l) && (l <? 1)) levels = true) /\
  forallb finiteLevel (enthalpyValues unitSystem k) = true /\
  forallb finiteLevel (wetBulbValues unitSystem k) = true /\
  forallb positiveLevel (specificVolumeValues unitSystem k) = true.
Proof.
  pose proof (levelsOf_regime RelativeHumidity unitSystem k) as Hrh.
  pose proof (levelsOf_regime Enthalpy unitSystem k) as Hh.
  pose proof (levelsOf_regime WetBulb unitSystem k) as Hwb.
  pose proof (levelsOf_regime SpecificVolume unitSystem k) as Hsv.
  unfold levelsOf in Hrh, Hh, Hwb, Hsv.
  inversion Hh as [Hh']. inversion Hwb as [Hwb']. inversion Hsv as [Hsv'].
  rewrite Hrh, Hh', Hwb', Hsv'. clear.
  pose proof (regime_le_3 k) as Hr.
  assert (E : regime k = 0%nat \/ regime k = 1%nat \/ regime k = 2%nat \/ regime k = 3%nat)
    by lia.
  destruct E as [-> | [-> | [-> | -> ]]]; destruct unitSystem;
    (split; [eexists; split; [vm_compute; reflexivity | vm_compute; reflexivity]|]);
    repeat split; vm_compute; reflexivity.
Qed.

End StepFacts.

(** ** Selecting a state with the pointer *)

Module PointerFacts.
Import ValueFacts Chart ScaleFacts RoundTripFacts NumFacts.

(** Clamping a finite value between finite bounds gives a finite value
    between them. *)
Lemma val_clamp (v lo hi : num) (p l h : Q) :
  v =~ p -> lo =~ l -> hi =~ h -> (l <= h)%Q ->
  exists c, Math_min (Math_max v lo) hi =~ c /\ (l <= c <= h)%Q.
Proof.
  intros Hv Hlo Hhi Hlh.
  destruct (val_max Hv Hlo) as [[H1 Hm]|[H1 Hm]];
    destruct (val_min Hm Hhi) as [[H2 Hn]|[H2 Hn]];
    eexists; (split; [exact Hn|]); lra.
Qed.

Lemma resolvePointerPosition_val (bounds : ClientRect) (clientX clientY : num) :
  isFinite clientX = true -> isFinite clientY = true ->
  isFinite (rect_left bounds) = true -> isFinite (rect_top bounds) = true ->
  isFinite (rect_width bounds) = true -> isFinite (rect_height bounds) = true ->
  exists PX PY,
    fst (resolvePointerPosition bounds clientX clientY) =~ PX /\
    snd (resolvePointerPosition bounds clientX clientY) =~ PY.
Proof.
  intros Hx Hy Hl Ht Hw Hh.
  apply ZoomFacts.finite_val in Hx, Hy, Hl, Ht, Hw, Hh.
  destruct Hx as [X HX], Hy as [Y HY], Hl as [L HL], Ht as [T HT],
           Hw as [W HW], Hh as [H HH].
  unfold resolvePointerPosition. simpl.
  destruct (val_max (val_sub HX HL) (val_ofZ 0)) as [[_ Hm]|[_ Hm]];
    destruct (val_min Hm HW) as [[_ Hn]|[_ Hn]];
    destruct (val_max (val_sub HY HT) (val_ofZ 0)) as [[_ Hm']|[_ Hm']];
    destruct (val_min Hm' HH) as [[_ Hn']|[_ Hn']];
    eexists; eexists; split; eassumption.
Qed.

(** What a pointer position resolves to lies inside the chart extents, for
    a finite container size and a transform with finite translation and
    non-zero finite scale. *)
Lemma resolvePointer_inExtents
    (unitSystem : UnitSystem) (width height : num) (transform : ZoomTransform)
    (pixel : num * num) (K TX TY PX PY : Q) :
  isFinite width = true -> isFinite height = true ->
  k transform =~ K -> x transform =~ TX -> y transform =~ TY ->
  ~ (K == 0)%Q ->
  fst pixel =~ PX -> snd pixel =~ PY ->
  let resolved := resolvePointer unitSystem width height transform pixel in
  isFinite (resolvedHumidityRatio resolved) = true /\
  inExtents unitSystem (clampedDryBulb resolved) (resolvedHumidityRatio resolved).
Proof.
  intros Hw Hh HK HTX HTY K_nz HPX HPY resolved.
  destruct (innerWidth_val _ Hw) as (W & HW & HW40).
  destruct (innerHeight_val _ Hh) as (Hq & HHq & HH40).
  destruct (dryBulbDomain_val unitSystem) as [Hd0 Hd1].
  destruct (displayDomain_val unitSystem) as [Hc0 Hc1].
  assert (Hx : exists D, scale_invert (xScale unitSystem width transform) (fst pixel) =~ D).
  { eexists.
    eapply (@rescaled_invert_val (xBaseScale unitSystem width)
              (fst (dryBulbDomain unitSystem)) (snd (dryBulbDomain unitSystem)) 0 W);
      try eassumption; try reflexivity.
    - apply val_ofZ.
    - intro E. assert (W == 0)%Q by lra. lra.
    - intros p P Hp. unfold invertX. apply val_div; [apply val_sub|..]; eassumption. }
  assert (Hy : exists C, scale_invert (yScale unitSystem height transform) (snd pixel) =~ C).
  { eexists.
    eapply (@rescaled_invert_val (yBaseScale unitSystem height)
              (fst (displayDomain unitSystem)) (snd (displayDomain unitSystem)) Hq 0);
      try eassumption; try reflexivity.
    - apply val_ofZ.
    - intro E. assert (Hq == 0)%Q by lra. lra.
    - intros p P Hp. unfold invertY. apply val_div; [apply val_sub|..]; eassumption. }
  destruct Hx as [D HD]. destruct Hy as [C HC].
  assert (Hdl : (fst (dryBulbDomain unitSystem) <= snd (dryBulbDomain unitSystem))%Q)
    by (destruct unitSystem; discriminate).
  assert (Hcl : (fst (displayDomain unitSystem) <= snd (displayDomain unitSystem))%Q)
    by (destruct unitSystem; discriminate).
  destruct (val_clamp HD Hd0 Hd1 Hdl) as (D' & HD' & HDr).
  destruct (val_clamp HC Hc0 Hc1 Hcl) as (C' & HC' & HCr).
  pose proof (humidityRatioFromDisplay_val unitSystem HC') as Hhr.
  assert (Hrd : clampedDryBulb resolved =~ D') by exact HD'.
  assert (Hrh : resolvedHumidityRatio resolved
                  =~ (C' / displayFactor unitSystem)%Q) by exact Hhr.
  clearbody resolved.
  assert (He : fst (ext_humidityRatio (getChartExtents unitSystem)) =~ 0 /\
               snd (ext_humidityRatio (getChartExtents unitSystem))
                 =~ (snd (displayDomain unitSystem) / displayFactor unitSystem)%Q).
  { destruct unitSystem; split; eexists; (split; [reflexivity|]);
      try reflexivity; apply Qred_correct. }
  destruct He as [He0 He1].
  assert (Hf : (0 < displayFactor unitSystem)%Q) by (destruct unitSystem; reflexivity).
  assert (Hc0' : (fst (displayDomain unitSystem) == 0)%Q)
    by (destruct unitSystem; reflexivity).
  split.
  { destruct Hrh as (q & -> & _). reflexivity. }
  unfold inExtents.
  split; [apply (proj2 (val_leb Hd0 Hrd)); lra|].
  split; [apply (proj2 (val_leb Hrd Hd1)); lra|].
  split.
  - apply (proj2 (val_leb He0 Hrh)). apply Qle_shift_div_l; [exact Hf|]. lra.
  - apply (proj2 (val_leb Hrh He1)).
    unfold Qdiv. apply Qmult_le_compat_r; [lra|].
    apply Qlt_le_weak. apply Qinv_lt_0_compat. exact Hf.
Qed.

(** X10.  A click never selects a state outside the chart.  For a finite
    container size, a transform with finite translation and scale in
    [1, 12] and a pointer event with finite coordinates, [handlePointerUp]
    always returns, whatever the solver does; and when it selects, the
    callback was given, the state handed to it has its dry bulb and
    humidity ratio inside the chart extents of the unit system, they are
    the marker's dry bulb and the humidity ratio behind the marker's
    displayed one, and every other field is the solver's answer there. *)
Theorem handlePointerUp_selects_inside_extents
    (lib : Psychrolib) (onSelectState : bool) (unitSystem : UnitSystem)
    (pressure width height : num) (transform : ZoomTransform)
    (bounds : ClientRect) (clientX clientY : num) (K TX TY : Q) (w : World) :
  isFinite width = true -> isFinite height = true ->
  k transform =~ K -> x transform =~ TX -> y transform =~ TY ->
  (1 <= K <= 12)%Q ->
  finitePointer bounds clientX clientY ->
  let run := handlePointerUp lib onSelectState unitSystem pressure width height
               transform bounds clientX clientY w in
  fst run = Ret None \/
  exists marker st,
    fst run = Ret (Some (marker, st)) /\
    onSelectState = true /\
    inExtents unitSystem (st_dryBulb st) (st_humidityRatio st) /\
    marker_dryBulb marker = st_dryBulb st /\
    humidityRatioFromDisplay unitSystem (marker_humidityDisplay marker)
      = st_humidityRatio st /\
    consistentState lib unitSystem pressure st.
Proof.
  intros Hw Hh HK HTX HTY [HK1 HK12] (Hcx & Hcy & Hl & Ht & Hrw & Hrh) run.
  subst run. unfold handlePointerUp.
  destruct onSelectState; [|left; reflexivity].
  cbn [negb]. cbv zeta.
  destruct (resolvePointerPosition_val bounds clientX clientY Hcx Hcy Hl Ht Hrw Hrh)
    as (PX & PY & HPX & HPY).
  assert (K_nz : ~ (K == 0)%Q) by (intro E; lra).
  destruct (@resolvePointer_inExtents unitSystem width height transform
              (resolvePointerPosition bounds clientX clientY) K TX TY PX PY
              Hw Hh HK HTX HTY K_nz HPX HPY) as [Hfin Hin].
  set (resolved := resolvePointer unitSystem width height transform
                     (resolvePointerPosition bounds clientX clientY)) in *.
  rewrite Hfin. cbn [negb]. unfold tryCatch, bind.
  pose proof (StateFacts.computePsychrometricsFromHumRatio_cases lib
                {| hin_dryBulb := clampedDryBulb resolved;
                   hin_humidityRatio := resolvedHumidityRatio resolved;
                   hin_pressure := pressure |} unitSystem w) as Hcases.
  cbv zeta in Hcases.
  cbn [hin_dryBulb hin_humidityRatio hin_pressure] in Hcases.
  destruct (computePsychrometricsFromHumRatio lib
              {| hin_dryBulb := clampedDryBulb resolved;
                 hin_humidityRatio := resolvedHumidityRatio resolved;
                 hin_pressure := pressure |} unitSystem w) as [o w1].
  cbn [fst] in Hcases. destruct Hcases as [->|(st & -> & Hd & Hhr & Hst)].
  - left. reflexivity.
  - right. eexists. exists st. split; [reflexivity|]. split; [reflexivity|].
    cbn [marker_dryBulb marker_humidityDisplay]. rewrite Hd, Hhr.
    split; [exact Hin|]. split; [reflexivity|]. split; [reflexivity | exact Hst].
Qed.

End PointerFacts.


Module PointerWitness.
Import Chart PointerFacts.

(** A click in the middle of an 800 by 400 plotting rectangle, unzoomed,
    on a solver that answers 1: the state at 20 degrees and 17.5 g/kg. *)
Lemma handlePointerUp_selects_inside_extents_witness :
  exists marker st,
    fst (handlePointerUp (constantSolver (ofZ 1)) true si (ofZ 101325)
           (ofZ 924) (ofZ 500) zoomIdentity
           (mkRect (ofZ 10) (ofZ 20) (ofZ 800) (ofZ 400)) (ofZ 410) (ofZ 220)
           initialWorld) = Ret (Some (marker, st)) /\
    st_dryBulb st = ofZ 20 /\
    st_humidityRatio st = dec 175 10000 /\
    inExtents si (st_dryBulb st) (st_humidityRatio st).
Proof.
  assert (Hrun0 :
    fst (handlePointerUp (constantSolver (ofZ 1)) true si (ofZ 101325)
           (ofZ 924) (ofZ 500) zoomIdentity
           (mkRect (ofZ 10) (ofZ 20) (ofZ 800) (ofZ 400)) (ofZ 410) (ofZ 220)
           initialWorld)
    = Ret (Some (mkMarker (ofZ 400) (ofZ 200) (ofZ 20) (dec 175 10),
                 mkState (ofZ 20) (ofZ 1) (ofZ 1) (ofZ 100) (dec 175 10000)
                   (ofZ 1) (ofZ 1) (ofZ 1) (ofZ 1) (ofZ 1)))).
  { vm_compute. reflexivity. }
  assert (H1 : isFinite (ofZ 924) = true) by reflexivity.
  assert (H2 : isFinite (ofZ 500) = true) by reflexivity.
  assert (H3 : k zoomIdentity =~ 1) by apply (ValueFacts.val_ofZ 1).
  assert (H4 : x zoomIdentity =~ 0) by apply (ValueFacts.val_ofZ 0).
  assert (H5 : y zoomIdentity =~ 0) by apply (ValueFacts.val_ofZ 0).
  assert (H6 : (1 <= 1 <= 12)%Q) by (split; discriminate).
  assert (H7 : finitePointer (mkRect (ofZ 10) (ofZ 20) (ofZ 800) (ofZ 400)) (ofZ 410) (ofZ 220)).
  { repeat split. }
  pose proof (@handlePointerUp_selects_inside_extents (constantSolver (ofZ 1)) true si
              (ofZ 101325) (ofZ 924) (ofZ 500) zoomIdentity
              (mkRect (ofZ 10) (ofZ 20) (ofZ 800) (ofZ 400)) (ofZ 410) (ofZ 220)
              1 0 0 initialWorld H1 H2 H3 H4 H5 H6 H7) as H.
  cbv zeta in H.
  destruct H as [Hnone|(marker & st & Hrun & _ & Hin & _)].
  - rewrite Hrun0 in Hnone. discriminate Hnone.
  - rewrite Hrun0 in Hrun. inversion Hrun. subst.
    eexists. eexists. split; [exact Hrun0|].
    split; [reflexivity|]. split; [reflexivity | exact Hin].
Defined.

End PointerWitness.

Module MarkerFacts.
Import ValueFacts Chart ScaleFacts RoundTripFacts NumFacts PointerFacts.

(** A pointer on a rectangle of the size of the plot lands inside it. *)
Lemma resolvePointerPosition_inside (bounds : ClientRect) (clientX clientY : num)
    (W H : Q) :
  finitePointer bounds clientX clientY ->
  rect_width bounds =~ W -> rect_height bounds =~ H -> (0 <= W)%Q -> (0 <= H)%Q ->
  exists PX PY,
    fst (resolvePointerPosition bounds clientX clientY) =~ PX /\
    snd (resolvePointerPosition bounds clientX clientY) =~ PY /\
    (0 <= PX <= W)%Q /\ (0 <= PY <= H)%Q.
Proof.
  intros (Hx & Hy & Hl & Ht & _ & _) HW HH HW0 HH0.
  apply ZoomFacts.finite_val in Hx, Hy, Hl, Ht.
  destruct Hx as [X HX], Hy as [Y HY], Hl as [L HL], Ht as [T HT].
  unfold resolvePointerPosition. simpl.
  destruct (val_clamp (val_sub HX HL) (val_ofZ 0) HW HW0) as (PX & HPX & HPXr).
  destruct (val_clamp (val_sub HY HT) (val_ofZ 0) HH HH0) as (PY & HPY & HPYr).
  exists PX, PY. unfold inject_Z in *. repeat split; try assumption; lra.
Qed.

(** Under a transform within the zoom limits, a pixel of the plotting
    rectangle shows a point of the chart domain, which the clamping leaves
    alone and the zoomed scales map back to the pixel. *)
Lemma pixel_round_trip
    (unitSystem : UnitSystem) (width height : num) (transform : ZoomTransform)
    (pixel : num * num) (W H PX PY : Q) :
  innerWidth width =~ W -> innerHeight height =~ H -> (0 < W)%Q -> (0 < H)%Q ->
  validTransform W H transform ->
  fst pixel =~ PX -> snd pixel =~ PY -> (0 <= PX <= W)%Q -> (0 <= PY <= H)%Q ->
  let resolved := resolvePointer unitSystem width height transform pixel in
  (exists Dx,
     scale_invert (xScale unitSystem width transform) (fst pixel) =~ Dx /\
     clampedDryBulb resolved =~ Dx) /\
  (exists Cy,
     scale_invert (yScale unitSystem height transform) (snd pixel) =~ Cy /\
     clampedHumidityDisplay resolved =~ Cy) /\
  scale_apply (xScale unitSystem width transform) (clampedDryBulb resolved) =~ PX /\
  scale_apply (yScale unitSystem height transform) (clampedHumidityDisplay resolved)
    =~ PY.
Proof.
  intros HW HH HW0 HH0 (K & TX & TY & HK & HTX & HTY & [HK1 HK12] & HXr & HYr)
         HPX HPY HPXr HPYr resolved.
  assert (K_nz : ~ (K == 0)%Q) by (intro E; lra).
  destruct (dryBulbDomain_val unitSystem) as [Hd0 Hd1].
  destruct (displayDomain_val unitSystem) as [Hc0 Hc1].
  set (D0 := fst (dryBulbDomain unitSystem)) in *.
  set (D1 := snd (dryBulbDomain unitSystem)) in *.
  set (C0 := fst (displayDomain unitSystem)) in *.
  set (C1 := snd (displayDomain unitSystem)) in *.
  assert (HD : (D0 < D1)%Q) by (subst D0 D1; destruct unitSystem; reflexivity).
  assert (HC : (C0 < C1)%Q) by (subst C0 C1; destruct unitSystem; reflexivity).
  assert (Dnz : ~ (D1 - D0 == 0)%Q) by (intro E; lra).
  assert (Cnz : ~ (C1 - C0 == 0)%Q) by (intro E; lra).
  assert (Wnz : ~ (W - 0 == 0)%Q) by (intro E; lra).
  assert (Hnz : ~ (0 - H == 0)%Q) by (intro E; lra).
  assert (IX : forall p P, p =~ P -> invertX transform p =~ ((P - TX) / K)%Q).
  { intros p P Hp. unfold invertX. apply val_div; [apply val_sub|..]; eassumption. }
  assert (IY : forall p P, p =~ P -> invertY transform p =~ ((P - TY) / K)%Q).
  { intros p P Hp. unfold invertY. apply val_div; [apply val_sub|..]; eassumption. }
  set (u := ((PX - TX) / K)%Q).
  set (v := ((PY - TY) / K)%Q).
  assert (Hu : (0 <= u <= W)%Q).
  { subst u. split.
    - apply Qle_shift_div_l; lra.
    - apply Qle_shift_div_r; [lra|]. nra. }
  assert (Hv : (0 <= v <= H)%Q).
  { subst v. split.
    - apply Qle_shift_div_l; lra.
    - apply Qle_shift_div_r; [lra|]. nra. }
  assert (Hix : scale_invert (xScale unitSystem width transform) (fst pixel)
                =~ (D0 + (u - 0) * (D1 - D0) / (W - 0))%Q).
  { eapply (@rescaled_invert_val (xBaseScale unitSystem width) D0 D1 0 W)
      with (K := K) (T := TX); try eassumption; try reflexivity.
    apply val_ofZ. }
  assert (Hiy : scale_invert (yScale unitSystem height transform) (snd pixel)
                =~ (C0 + (v - H) * (C1 - C0) / (0 - H))%Q).
  { eapply (@rescaled_invert_val (yBaseScale unitSystem height) C0 C1 H 0)
      with (K := K) (T := TY); try eassumption; try reflexivity.
    apply val_ofZ. }
  set (Dx := (D0 + (u - 0) * (D1 - D0) / (W - 0))%Q) in *.
  set (Cy := (C0 + (v - H) * (C1 - C0) / (0 - H))%Q) in *.
  assert (EDx : (Dx == D0 + u / W * (D1 - D0))%Q) by (subst Dx; field; lra).
  assert (ECy : (Cy == C0 + (H - v) / H * (C1 - C0))%Q) by (subst Cy; field; lra).
  assert (Hfx : (0 <= u / W <= 1)%Q).
  { split; [apply Qle_shift_div_l; lra | apply Qle_shift_div_r; lra]. }
  assert (Hfy : (0 <= (H - v) / H <= 1)%Q).
  { split; [apply Qle_shift_div_l; lra | apply Qle_shift_div_r; lra]. }
  assert (HDx : (D0 <= Dx <= D1)%Q) by (rewrite EDx; nra).
  assert (HCy : (C0 <= Cy <= C1)%Q) by (rewrite ECy; nra).
  assert (Hcd : clampedDryBulb resolved =~ Dx).
  { subst resolved. unfold resolvePointer. cbn [clampedDryBulb].
    eapply val_clamp_inside; try eassumption; lra. }
  assert (Hch : clampedHumidityDisplay resolved =~ Cy).
  { subst resolved. unfold resolvePointer. cbn [clampedHumidityDisplay].
    eapply val_clamp_inside; try eassumption; lra. }
  split; [exists Dx; split; assumption|].
  split; [exists Cy; split; assumption|].
  split.
  - eapply val_eq.
    + eapply (@rescaled_apply_val (xBaseScale unitSystem width) D0 D1 0 W)
        with (K := K) (T := TX); try eassumption; try reflexivity.
      apply val_ofZ.
    + subst Dx u. field. repeat split; lra.
  - eapply val_eq.
    + eapply (@rescaled_apply_val (yBaseScale unitSystem height) C0 C1 H 0)
        with (K := K) (T := TY); try eassumption; try reflexivity.
      apply val_ofZ.
    + subst Cy v. field. repeat split; lra.
Qed.

(** X16.  The crosshair is drawn under the pointer.  When the interaction
    rectangle has the size of the plot, the transform is within the zoom
    limits and the pointer event is finite, the marker [handlePointerMove]
    asks for has its [cx] and [cy] at the pointer position relative to the
    rectangle (clamped to it), and the dry bulb and displayed humidity ratio
    it carries are the ones the zoomed scales invert there: clamping to the
    chart extents never changes them. *)
Theorem nextMarker_under_pointer
    (unitSystem : UnitSystem) (width height : num) (transform : ZoomTransform)
    (bounds : ClientRect) (clientX clientY : num) (W H : Q) :
  isFinite width = true -> isFinite height = true ->
  innerWidth width =~ W -> innerHeight height =~ H ->
  validTransform W H transform ->
  finitePointer bounds clientX clientY ->
  rect_width bounds = innerWidth width -> rect_height bounds = innerHeight height ->
  let pixel := resolvePointerPosition bounds clientX clientY in
  let marker := nextMarker unitSystem width height transform bounds clientX clientY in
  exists PX PY Dx Cy,
    fst pixel =~ PX /\ snd pixel =~ PY /\
    cx marker =~ PX /\ cy marker =~ PY /\
    scale_invert (xScale unitSystem width transform) (fst pixel) =~ Dx /\
    marker_dryBulb marker =~ Dx /\
    scale_invert (yScale unitSystem height transform) (snd pixel) =~ Cy /\
    marker_humidityDisplay marker =~ Cy.
Proof.
  intros Hw Hh HW HH Hvalid Hptr Erw Erh pixel marker.
  destruct (innerWidth_val _ Hw) as (W' & HW' & HW40).
  destruct (innerHeight_val _ Hh) as (H' & HH' & HH40).
  pose proof (val_unique HW HW') as EW. pose proof (val_unique HH HH') as EH.
  assert (HW0 : (0 < W)%Q) by lra. assert (HH0 : (0 < H)%Q) by lra.
  assert (Hrw : rect_width bounds =~ W) by (rewrite Erw; exact HW).
  assert (Hrh : rect_height bounds =~ H) by (rewrite Erh; exact HH).
  destruct (@resolvePointerPosition_inside bounds clientX clientY W H Hptr Hrw Hrh)
    as (PX & PY & HPX & HPY & HPXr & HPYr); try lra.
  destruct (@pixel_round_trip unitSystem width height transform pixel W H PX PY
              HW HH HW0 HH0 Hvalid HPX HPY HPXr HPYr)
    as ((Dx & Hix & Hcd) & (Cy & Hiy & Hch) & Hcx & Hcy).
  exists PX, PY, Dx, Cy.
  repeat split; assumption.
Qed.

End MarkerFacts.

Module MarkerWitness.
Import Chart MarkerFacts.

(** Zoomed 2 times and panned, in a 924 by 500 container (an 800 by 400
    plot): the pointer at (410, 220) on a rectangle at (10, 20) gives the
    marker at (400, 200), over 5 degrees and 24.0625 g/kg. *)
Lemma nextMarker_under_pointer_witness :
  nextMarker si (ofZ 924) (ofZ 500) (mkTransform (ofZ 2) (ofZ (-100)) (ofZ (-50)))
    (mkRect (ofZ 10) (ofZ 20) (ofZ 800) (ofZ 400)) (ofZ 410) (ofZ 220)
  = mkMarker (ofZ 400) (ofZ 200) (ofZ 5) (Fin (385 # 16)) /\
  exists PX PY Dx Cy : Q,
    (PX == 400)%Q /\ (PY == 200)%Q /\ (Dx == 5)%Q /\ (Cy == 385 # 16)%Q.
Proof.
  assert (H1 : isFinite (ofZ 924) = true) by reflexivity.
  assert (H2 : isFinite (ofZ 500) = true) by reflexivity.
  assert (H3 : innerWidth (ofZ 924) =~ 800) by (eexists; split; reflexivity).
  assert (H4 : innerHeight (ofZ 500) =~ 400) by (eexists; split; reflexivity).
  assert (H5 : validTransform 800 400 (mkTransform (ofZ 2) (ofZ (-100)) (ofZ (-50)))).
  { exists 2%Q, (-(100))%Q, (-(50))%Q.
    repeat split; try (eexists; split; reflexivity); discriminate. }
  assert (H6 : finitePointer (mkRect (ofZ 10) (ofZ 20) (ofZ 800) (ofZ 400))
                 (ofZ 410) (ofZ 220)) by (repeat split).
  assert (H7 : rect_width (mkRect (ofZ 10) (ofZ 20) (ofZ 800) (ofZ 400))
               = innerWidth (ofZ 924)) by reflexivity.
  assert (H8 : rect_height (mkRect (ofZ 10) (ofZ 20) (ofZ 800) (ofZ 400))
               = innerHeight (ofZ 500)) by reflexivity.
  assert (Hrun : nextMarker si (ofZ 924) (ofZ 500)
                   (mkTransform (ofZ 2) (ofZ (-100)) (ofZ (-50)))
                   (mkRect (ofZ 10) (ofZ 20) (ofZ 800) (ofZ 400)) (ofZ 410) (ofZ 220)
                 = mkMarker (ofZ 400) (ofZ 200) (ofZ 5) (Fin (385 # 16))).
  { vm_compute. reflexivity. }
  pose proof (@nextMarker_under_pointer si (ofZ 924) (ofZ 500)
                (mkTransform (ofZ 2) (ofZ (-100)) (ofZ (-50)))
                (mkRect (ofZ 10) (ofZ 20) (ofZ 800) (ofZ 400)) (ofZ 410) (ofZ 220)
                800 400 H1 H2 H3 H4 H5 H6 H7 H8) as H.
  cbv zeta in H. rewrite Hrun in H.
  destruct H as (PX & PY & Dx & Cy & _ & _ & Hcx & Hcy & _ & Hd & _ & Hc).
  split; [exact Hrun|].
  exists PX, PY, Dx, Cy.
  cbn [cx cy marker_dryBulb marker_humidityDisplay] in Hcx, Hcy, Hd, Hc.
  destruct Hcx as (q1 & E1 & Q1), Hcy as (q2 & E2 & Q2),
           Hd as (q3 & E3 & Q3), Hc as (q4 & E4 & Q4).
  inversion E1. inversion E2. inversion E3. inversion E4. subst.
  repeat split; symmetry; assumption.
Defined.

End MarkerWitness.

(** ** The inputs of the page *)

Module InputFacts.
Import NumFacts ValueFacts.

Lemma nearest_ge (x : Q) (z : Z) : (inject_Z z <= x)%Q -> (z <= nearest x)%Z.
Proof.
  intro H. unfold nearest. rewrite <- (Qfloor_Z z).
  apply Qfloor_resp_le. lra.
Qed.

Lemma nearest_le (x : Q) (z : Z) : (x <= inject_Z z)%Q -> (nearest x <= z)%Z.
Proof.
  intro H. unfold nearest.
  assert (L : (Qfloor (x + (1 # 2)) < z + 1)%Z).
  { rewrite Zlt_Qlt. eapply Qle_lt_trans; [apply Qfloor_le|].
    rewrite inject_Z_plus. change (inject_Z 1) with 1%Q. lra. }
  lia.
Qed.

Lemma nearest_error (x : Q) :
  (x - (1 # 2) < inject_Z (nearest x) <= x + (1 # 2))%Q.
Proof.
  unfold nearest. split.
  - pose proof (Qlt_floor (x + (1 # 2))) as H.
    rewrite inject_Z_plus in H. change (inject_Z 1) with 1%Q in H. lra.
  - apply Qfloor_le.
Qed.

Lemma nearest_unique (x : Q) (z : Z) :
  (inject_Z z - (1 # 2) <= x < inject_Z z + (1 # 2))%Q -> nearest x = z.
Proof.
  intros [H1 H2]. apply Z.le_antisymm.
  - assert (L : (nearest x < z + 1)%Z); [|lia].
    rewrite Zlt_Qlt. eapply Qle_lt_trans; [apply Qfloor_le|].
    rewrite inject_Z_plus. change (inject_Z 1) with 1%Q. lra.
  - unfold nearest. rewrite <- (Qfloor_Z z) at 1. apply Qfloor_resp_le. lra.
Qed.

Lemma scale_pos (digits : nat) : (0 < inject_Z (10 ^ Z.of_nat digits))%Q.
Proof.
  change 0%Q with (inject_Z 0). rewrite <- Zlt_Qlt.
  apply Z.pow_pos_nonneg; lia.
Qed.

(** What [parseFloat_toFixed] answers below [1e21]: the nearest multiple
    of [10^-digits], halves away from zero. *)
Lemma parseFloat_toFixed_val (digits : nat) (q : Q) :
  (Qabs q < inject_Z (10 ^ 21))%Q ->
  let scale := inject_Z (10 ^ Z.of_nat digits) in
  ((0 <= q)%Q /\
   Page.parseFloat_toFixed digits (Fin q) =~ (inject_Z (nearest (q * scale)) / scale)%Q) \/
  ((q < 0)%Q /\
   Page.parseFloat_toFixed digits (Fin q)
     =~ (- inject_Z (nearest (- q * scale)) / scale)%Q).
Proof.
  intros Hbig scale. unfold Page.parseFloat_toFixed.
  assert (E : Qle_bool (inject_Z (10 ^ 21)) (Qabs q) = false).
  { destruct (Qle_bool (inject_Z (10 ^ 21)) (Qabs q)) eqn:E; [|reflexivity].
    apply Qle_bool_iff in E. lra. }
  rewrite E. fold scale.
  destruct (Qnum q <? 0)%Z eqn:Hs.
  - right. apply Z.ltb_lt in Hs.
    assert (Hq : (q < 0)%Q).
    { destruct q as [n d]. unfold Qlt. simpl in *. lia. }
    split; [exact Hq|]. eexists. split; [reflexivity|].
    rewrite Qred_correct. rewrite inject_Z_opp.
    assert (A : (Qabs q == - q)%Q) by (apply Qabs_neg; lra).
    unfold nearest. rewrite A. reflexivity.
  - left. apply Z.ltb_ge in Hs.
    assert (Hq : (0 <= q)%Q).
    { destruct q as [n d]. unfold Qle. simpl in *. lia. }
    split; [exact Hq|]. eexists. split; [reflexivity|].
    rewrite Qred_correct.
    assert (A : (Qabs q == q)%Q) by (apply Qabs_pos; exact Hq).
    unfold nearest. rewrite A. reflexivity.
Qed.

(** Rounding to decimals keeps a value between integer bounds. *)
Lemma parseFloat_toFixed_between (digits : nat) (v : num) (a b : Z) :
  (ofZ a <=? v) = true -> (v <=? ofZ b) = true ->
  (ofZ a <=? Page.parseFloat_toFixed digits v) = true /\
  (Page.parseFloat_toFixed digits v <=? ofZ b) = true.
Proof.
  intros Ha Hb. destruct v as [| | |q]; try discriminate.
  apply leb_Fin in Ha, Hb.
  destruct (Qlt_le_dec (Qabs q) (inject_Z (10 ^ 21))) as [Hsmall|Hbig].
  2:{ unfold Page.parseFloat_toFixed.
      assert (E : Qle_bool (inject_Z (10 ^ 21)) (Qabs q) = true)
        by (apply Qle_bool_iff; exact Hbig).
      rewrite E. split; apply leb_Fin; assumption. }
  pose proof (scale_pos digits) as Hs.
  set (scale := inject_Z (10 ^ Z.of_nat digits)) in *.
  assert (Hmul : forall z, (inject_Z z * scale == inject_Z (z * 10 ^ Z.of_nat digits))%Q).
  { intro z. unfold scale. rewrite inject_Z_mult. reflexivity. }
  destruct (parseFloat_toFixed_val digits q Hsmall) as [[Hq Hv]|[Hq Hv]];
    fold scale in Hv.
  - assert (Hup : (inject_Z (nearest (q * scale)) <= inject_Z b * scale)%Q).
    { rewrite Hmul, <- Zle_Qle. apply nearest_le. rewrite <- Hmul.
      apply Qmult_le_compat_r; lra. }
    assert (Hlo : (inject_Z a * scale <= inject_Z (nearest (q * scale)))%Q).
    { destruct (Z_le_gt_dec a 0) as [Ha0|Ha0].
      - assert (H0 : (0 <= nearest (q * scale))%Z).
        { apply nearest_ge. change (inject_Z 0) with 0%Q.
          apply Qmult_le_0_compat; lra. }
        rewrite Zle_Qle in H0, Ha0. change (inject_Z 0) with 0%Q in *.
        assert ((inject_Z a * scale <= 0)%Q); [|lra].
        setoid_replace 0%Q with (0 * scale)%Q by ring.
        apply Qmult_le_compat_r; lra.
      - rewrite Hmul, <- Zle_Qle. apply nearest_ge. rewrite <- Hmul.
        apply Qmult_le_compat_r; lra. }
    split.
    + apply (proj2 (val_leb (val_ofZ a) Hv)).
      apply Qle_shift_div_l; assumption.
    + apply (proj2 (val_leb Hv (val_ofZ b))).
      apply Qle_shift_div_r; assumption.
  - assert (Hopp : forall z, (- inject_Z z * scale
                               == inject_Z (- z * 10 ^ Z.of_nat digits))%Q).
    { intro z. rewrite <- Hmul, inject_Z_opp. reflexivity. }
    assert (Hup : (inject_Z (nearest (- q * scale)) <= - inject_Z a * scale)%Q).
    { rewrite Hopp, <- Zle_Qle. apply nearest_le. rewrite <- Hopp.
      apply Qmult_le_compat_r; lra. }
    assert (Hlo : (- inject_Z b * scale <= inject_Z (nearest (- q * scale)))%Q).
    { destruct (Z_le_gt_dec 0 b) as [Hb0|Hb0].
      - assert (H0 : (0 <= nearest (- q * scale))%Z).
        { apply nearest_ge. change (inject_Z 0) with 0%Q.
          apply Qmult_le_0_compat; lra. }
        rewrite Zle_Qle in H0, Hb0. change (inject_Z 0) with 0%Q in *.
        assert ((- inject_Z b * scale <= 0)%Q); [|lra].
        setoid_replace 0%Q with (0 * scale)%Q by ring.
        apply Qmult_le_compat_r; lra.
      - rewrite Hopp, <- Zle_Qle. apply nearest_ge. rewrite <- Hopp.
        apply Qmult_le_compat_r; lra. }
    split.
    + apply (proj2 (val_leb (val_ofZ a) Hv)).
      apply Qle_shift_div_l; [assumption|]. lra.
    + apply (proj2 (val_leb Hv (val_ofZ b))).
      apply Qle_shift_div_r; [assumption|]. lra.
Qed.

Lemma parseFloat_toFixed_finite (digits : nat) (v : num) :
  isFinite v = true -> isFinite (Page.parseFloat_toFixed digits v) = true.
Proof.
  destruct v as [| | |q]; try discriminate. intros _. unfold Page.parseFloat_toFixed.
  destruct (Qle_bool (inject_Z (10 ^ 21)) (Qabs q)); reflexivity.
Qed.

Lemma between_finite (v lo hi : num) :
  (lo <=? v) = true -> (v <=? hi) = true ->
  isFinite lo = true -> isFinite hi = true -> isFinite v = true.
Proof.
  destruct v, lo, hi; simpl; congruence.
Qed.

Lemma finite_not_nan (v : num) : isFinite v = true -> isNaN v = false.
Proof. destruct v; simpl; congruence. Qed.

Lemma max_zero (v : num) :
  isNaN v = false -> (ofZ 0 <=? Math_max v (ofZ 0)) = true.
Proof.
  destruct v as [| | |q]; simpl; try congruence; intros _; try reflexivity.
  unfold Math_max. simpl. destruct (Qle_bool q (inject_Z 0)) eqn:E; simpl.
  - reflexivity.
  - apply leb_Fin_false in E. apply Qle_bool_iff. lra.
Qed.

Lemma extents_integer (system : UnitSystem) :
  exists a b : Z,
    ext_dryBulb (getChartExtents system) = (ofZ a, ofZ b) /\ (a <= b)%Z.
Proof.
  destruct system; [exists (-20)%Z, 60%Z | exists (-4)%Z, 140%Z]; split;
    (reflexivity || lia).
Qed.

(** Clamping anything but [NaN] between integer bounds and rounding it to
    decimals gives a value between the bounds. *)
Lemma clamped_rounded (digits : nat) (v : num) (a b : Z) :
  isNaN v = false -> (a <= b)%Z ->
  (ofZ a <=? Page.parseFloat_toFixed digits (Page.clamp v (ofZ a) (ofZ b))) = true /\
  (Page.parseFloat_toFixed digits (Page.clamp v (ofZ a) (ofZ b)) <=? ofZ b) = true.
Proof.
  intros Hv Hab.
  assert (Hle : (ofZ a <=? ofZ b) = true).
  { apply leb_Fin. rewrite <- Zle_Qle. exact Hab. }
  destruct (clamp_bounds v (ofZ a) (ofZ b) Hv Hle) as [H1 H2].
  apply parseFloat_toFixed_between; assumption.
Qed.

Lemma val_finite (v : num) (q : Q) : v =~ q -> isFinite v = true.
Proof. intros (q' & -> & _). reflexivity. Qed.

Lemma PA_PER_PSI_val : Page.PA_PER_PSI =~ (6894757293168 # 1000000000)%Q.
Proof. eexists. split; [reflexivity|]. apply Qred_correct. Qed.

Local Arguments Page.parseFloat_toFixed : simpl never.

Lemma convertInputs_numbers (system next : UnitSystem) (i : PsychroInputs) :
  validInputs system i ->
  isNaN (in_pressure (Page.convertInputs i system next)) = false /\
  isNaN (in_dryBulb (Page.convertInputs i system next)) = false /\
  in_relativeHumidity (Page.convertInputs i system next) = in_relativeHumidity i.
Proof.
  intros (Hp & Hd0 & Hd1 & _ & _).
  assert (Hfin : isFinite (in_dryBulb i) = true).
  { destruct (extents_integer system) as (a & b & E & _). rewrite E in Hd0, Hd1.
    eapply between_finite; eauto. }
  destruct (ZoomFacts.finite_val _ Hfin) as [D HD].
  assert (Hpn : isNaN (in_pressure i) = false).
  { destruct (in_pressure i); simpl in *; congruence. }
  assert (Hdn : isNaN (in_dryBulb i) = false) by (apply finite_not_nan; exact Hfin).
  assert (Hpsi : isNaN (Math_round (in_pressure i * Page.PA_PER_PSI)) = false).
  { destruct (in_pressure i) as [| | |p]; try discriminate.
    - vm_compute. reflexivity.
    - reflexivity. }
  assert (Hpa : isNaN (Page.parseFloat_toFixed 3 (in_pressure i / Page.PA_PER_PSI))
                = false).
  { destruct (in_pressure i) as [| | |p] eqn:Ep; try discriminate.
    - vm_compute. reflexivity.
    - apply finite_not_nan. apply parseFloat_toFixed_finite.
      eapply val_finite. apply (val_div (val_Fin p) PA_PER_PSI_val). discriminate. }
  assert (Hc : isNaN (Page.parseFloat_toFixed 1
                        (((in_dryBulb i - ofZ 32) * ofZ 5) / ofZ 9)) = false).
  { apply finite_not_nan. apply parseFloat_toFixed_finite. eapply val_finite.
    apply (val_div (val_mul (val_sub HD (val_ofZ 32)) (val_ofZ 5)) (val_ofZ 9)).
    discriminate. }
  assert (Hf : isNaN (Page.parseFloat_toFixed 1
                        ((in_dryBulb i * ofZ 9) / ofZ 5 + ofZ 32)) = false).
  { apply finite_not_nan. apply parseFloat_toFixed_finite. eapply val_finite.
    apply (val_add (val_div (val_mul HD (val_ofZ 9)) (val_ofZ 5)
                      ltac:(discriminate)) (val_ofZ 32)). }
  unfold Page.convertInputs.
  destruct system, next; cbn [Page.UnitSystem_eqb andb in_pressure in_dryBulb
                                in_relativeHumidity];
    repeat split; assumption.
Qed.

Lemma valid_default (system : UnitSystem) : validInputs system (DEFAULT_INPUTS system).
Proof. destruct system; repeat split. Qed.

(** Every handler keeps valid inputs valid. *)
Lemma handleInputEvent_valid (home : Page.Home) (event : InputEvent) :
  validInputs (Page.unitSystem home) (Page.inputs home) ->
  carriesNumbers event ->
  let home' := handleInputEvent home event in
  validInputs (Page.unitSystem home') (Page.inputs home').
Proof.
  intros Hvalid Hevent.
  pose proof Hvalid as (Hp & Hd0 & Hd1 & Hr0 & Hr1).
  destruct event as [|next|key value|key value|state]; simpl.
  - apply valid_default.
  - destruct (convertInputs_numbers (if next then ip else si) Hvalid) as (Cp & Cd & Cr).
    destruct (extents_integer (if next then ip else si)) as (a & b & E & Hab).
    unfold validInputs. simpl. rewrite E. simpl. rewrite Cr.
    split; [apply max_zero; exact Cp|].
    split; [apply clamped_rounded; assumption|].
    split; [apply clamped_rounded; assumption|].
    assert (Hn : isNaN (in_relativeHumidity (Page.inputs home)) = false).
    { destruct (in_relativeHumidity (Page.inputs home)); simpl in *; congruence. }
    split; apply (clamped_rounded 1 _ Hn (a := 0) (b := 100)); lia.
  - destruct (extents_integer (Page.unitSystem home)) as (a & b & E & Hab).
    unfold validInputs in *. rewrite E in *. simpl in *.
    destruct (isFinite value) eqn:Hf; simpl.
    + pose proof (finite_not_nan _ Hf) as Hn.
      destruct key; simpl;
        repeat split; try assumption;
        try (apply max_zero; exact Hn);
        try (apply clamped_rounded; assumption);
        apply (clamped_rounded 1 _ Hn (a := 0) (b := 100)); lia.
    + destruct key; simpl; repeat split; assumption.
  - destruct (extents_integer (Page.unitSystem home)) as (a & b & E & Hab).
    unfold validInputs in *. rewrite E in *. simpl in *.
    destruct key; simpl; rewrite ?E; simpl;
      repeat split; try assumption;
      try (apply clamped_rounded; assumption);
      apply (clamped_rounded 1 _ Hevent (a := 0) (b := 100)); lia.
  - destruct Hevent as [Hsd Hsr].
    destruct (extents_integer (Page.unitSystem home)) as (a & b & E & Hab).
    unfold validInputs in *. rewrite E in *. simpl in *.
    repeat split; try assumption;
      try (apply clamped_rounded; assumption);
      apply (clamped_rounded 3 _ Hsr (a := 0) (b := 100)); lia.
Qed.

(** X11.  The handlers of the page keep the inputs valid.  From a state
    whose pressure is not negative, whose dry bulb lies inside the chart
    extents of its unit system and whose relative humidity lies between 0
    and 100 (the initial state is one), every sequence of resets, unit
    toggles, typed values (anything, a text that parses to [NaN] or to an
    infinity included), slider values and chart selections that are not
    [NaN] leads to such a state again, for the unit system then in force. *)
Theorem inputs_stay_valid (events : list InputEvent) (home : Page.Home) :
  validInputs (Page.unitSystem home) (Page.inputs home) ->
  Forall carriesNumbers events ->
  let home' := fold_left handleInputEvent events home in
  validInputs (Page.unitSystem home') (Page.inputs home').
Proof.
  intros Hvalid Hevents. revert home Hvalid.
  induction Hevents as [|event events Hevent _ IH]; intros home Hvalid; simpl.
  - exact Hvalid.
  - apply IH. apply handleInputEvent_valid; assumption.
Qed.

(** From the initial state: 75.5 is typed as dry bulb (clamped to 60), the
    units are toggled to IP (140 degrees), and a relative humidity of 150
    is selected on the chart (clamped to 100). *)
Lemma inputs_stay_valid_witness :
  let events := [InputChange Page.dryBulb (dec 755 10); UnitToggle true;
                 ChartState (mkState (ofZ 100) (ofZ 1) (ofZ 1) (ofZ 150) (ofZ 1)
                               (ofZ 1) (ofZ 1) (ofZ 1) (ofZ 1) (ofZ 1))] in
  let home' := fold_left handleInputEvent events Page.initialHome in
  Page.unitSystem home' = ip /\
  Page.inputs home' = mkInputs (dec 14696 1000) (ofZ 100) (ofZ 100) /\
  validInputs (Page.unitSystem home') (Page.inputs home').
Proof.
  intros events home'.
  split; [reflexivity|]. split; [vm_compute; reflexivity|].
  refine (@inputs_stay_valid events Page.initialHome (valid_default si) _).
  repeat constructor.
Defined.

End InputFacts.

(** ** Converting the inputs between unit systems *)

Module UnitFacts.
Import NumFacts ValueFacts InputFacts.

Local Arguments Page.parseFloat_toFixed : simpl never.

Lemma half_scale (digits : nat) :
  let scale := inject_Z (10 ^ Z.of_nat digits) in
  (0 < scale)%Q /\ ((1 # 2) / scale * scale == 1 # 2)%Q.
Proof.
  intro scale. pose proof (scale_pos digits) as Hs. fold scale in Hs.
  split; [exact Hs|]. field. lra.
Qed.

(** Rounding to decimals gives a multiple of the unit of the last decimal,
    at most half a unit away. *)
Lemma parseFloat_toFixed_error (digits : nat) (v : num) (X : Q) :
  v =~ X -> (Qabs X < inject_Z (10 ^ 21))%Q ->
  let scale := inject_Z (10 ^ Z.of_nat digits) in
  exists k : Z,
    Page.parseFloat_toFixed digits v =~ (inject_Z k / scale)%Q /\
    (X * scale - (1 # 2) <= inject_Z k <= X * scale + (1 # 2))%Q.
Proof.
  intros (q & -> & Hq) Hbig scale.
  destruct (half_scale digits) as [Hs _]. fold scale in Hs.
  rewrite <- Hq in Hbig.
  destruct (parseFloat_toFixed_val digits q Hbig) as [[H0 Hv]|[H0 Hv]];
    fold scale in Hv.
  - exists (nearest (q * scale)%Q). split; [exact Hv|].
    pose proof (nearest_error (q * scale)%Q) as [E1 E2].
    rewrite <- Hq. lra.
  - exists (- nearest (- q * scale)%Q)%Z. split.
    + eapply val_eq; [exact Hv|]. rewrite inject_Z_opp. reflexivity.
    + pose proof (nearest_error (- q * scale)%Q) as [E1 E2].
      rewrite inject_Z_opp, <- Hq. lra.
Qed.

(** A value strictly less than half a unit of the last decimal away from a
    multiple of that unit rounds to the multiple. *)
Lemma parseFloat_toFixed_exact (digits : nat) (v : num) (X : Q) (m : Z) :
  v =~ X -> (Qabs X < inject_Z (10 ^ 21))%Q ->
  let scale := inject_Z (10 ^ Z.of_nat digits) in
  (inject_Z m - (1 # 2) < X * scale < inject_Z m + (1 # 2))%Q ->
  Page.parseFloat_toFixed digits v =~ (inject_Z m / scale)%Q.
Proof.
  intros (q & -> & Hq) Hbig scale [Hm1 Hm2].
  destruct (half_scale digits) as [Hs _]. fold scale in Hs.
  rewrite <- Hq in Hbig, Hm1, Hm2.
  destruct (parseFloat_toFixed_val digits q Hbig) as [[H0 Hv]|[H0 Hv]];
    fold scale in Hv.
  - rewrite (@nearest_unique (q * scale)%Q m) in Hv by lra. exact Hv.
  - rewrite (@nearest_unique (- q * scale)%Q (- m)%Z) in Hv
      by (rewrite inject_Z_opp; lra).
    eapply val_eq; [exact Hv|]. rewrite inject_Z_opp. field. lra.
Qed.

Lemma Math_round_error (v : num) (X : Q) :
  v =~ X ->
  exists R, Math_round v =~ R /\ (X - (1 # 2) <= R <= X + (1 # 2))%Q.
Proof.
  intros (q & -> & Hq). eexists. split; [eexists; split; [reflexivity|reflexivity]|].
  pose proof (nearest_error q) as [E1 E2]. unfold nearest in *. rewrite <- Hq. lra.
Qed.

Lemma Qabs_below (x b : Q) : (- b < x < b)%Q -> (Qabs x < b)%Q.
Proof. intro H. apply Qabs_Qlt_condition. exact H. Qed.

(** Linear arithmetic with the constants of the conversions inverted. *)
Ltac qlra :=
  unfold inject_Z, Qdiv in *;
  change (/ (9 # 1))%Q with (1 # 9)%Q in *;
  change (/ (5 # 1))%Q with (1 # 5)%Q in *;
  change (/ 10)%Q with (1 # 10)%Q in *;
  change (/ 1000)%Q with (1 # 1000)%Q in *;
  change (/ (6894757293168 # 1000000000))%Q with (1000000000 # 6894757293168)%Q in *;
  lra.

(** X12.  Converting inputs from SI to IP and back returns the dry bulb
    exactly when it has one decimal, as the typed and slider values have
    (any dry bulb [n / 10] between -100000 and 100000 degrees); the
    relative humidity is never touched; and the pressure, rounded to three
    decimals of a psi on the way, comes back less than 4 Pa away (any
    pressure from 0 to 1e9 Pa). *)
Theorem convertInputs_si_ip_si (i : PsychroInputs) (n : Z) (P : Q) :
  in_dryBulb i =~ (inject_Z n / 10)%Q ->
  (- 1000000 <= n <= 1000000)%Z ->
  in_pressure i =~ P -> (0 <= P <= 1000000000)%Q ->
  let back := Page.convertInputs (Page.convertInputs i si ip) ip si in
  in_dryBulb back =~ (inject_Z n / 10)%Q /\
  in_relativeHumidity back = in_relativeHumidity i /\
  exists P', in_pressure back =~ P' /\ (P - 4 < P' < P + 4)%Q.
Proof.
  intros HD Hn HP HPr back. subst back.
  unfold Page.convertInputs.
  cbn [Page.UnitSystem_eqb andb in_pressure in_dryBulb in_relativeHumidity].
  assert (Hnq : (- 1000000 <= inject_Z n <= 1000000)%Q).
  { destruct Hn as [H1 H2]. rewrite Zle_Qle in H1, H2. exact (conj H1 H2). }
  assert (Hbig : (inject_Z (10 ^ 21) == 1000000000000000000000)%Q) by reflexivity.
  split; [|split; [reflexivity|]].
  - pose proof (val_add (val_div (val_mul HD (val_ofZ 9)) (val_ofZ 5)
                           ltac:(discriminate)) (val_ofZ 32)) as Hf.
    destruct (parseFloat_toFixed_error 1 Hf) as (F & HF & HFe).
    { apply Qabs_below. rewrite Hbig. qlra. }
    change (inject_Z (10 ^ Z.of_nat 1)) with 10%Q in HF, HFe.
    pose proof (val_div (val_mul (val_sub HF (val_ofZ 32)) (val_ofZ 5)) (val_ofZ 9)
                  ltac:(discriminate)) as Hc.
    apply (@parseFloat_toFixed_exact 1 _ _ n Hc).
    + apply Qabs_below. rewrite Hbig. qlra.
    + change (inject_Z (10 ^ Z.of_nat 1)) with 10%Q. qlra.
  - pose proof (val_div HP InputFacts.PA_PER_PSI_val ltac:(discriminate)) as Hpsi.
    destruct (parseFloat_toFixed_error 3 Hpsi) as (S & HS & HSe).
    { apply Qabs_below. rewrite Hbig. qlra. }
    change (inject_Z (10 ^ Z.of_nat 3)) with 1000%Q in HS, HSe.
    destruct (Math_round_error (val_mul HS InputFacts.PA_PER_PSI_val)) as (R & HR & HRe).
    exists R. split; [exact HR|]. qlra.
Qed.

(** X13.  Converting inputs from IP to SI and back returns the pressure
    exactly when it has three decimals of a psi, as converted pressures
    have (any pressure [m / 1000] from 0 to 1000000 psi), and never touches
    the relative humidity; but a dry bulb with one decimal comes back up
    to one tenth of a degree away, the Celsius value in between being
    rounded to one decimal too. *)
Theorem convertInputs_ip_si_ip (i : PsychroInputs) (m n : Z) :
  in_pressure i =~ (inject_Z m / 1000)%Q ->
  (0 <= m <= 1000000000)%Z ->
  in_dryBulb i =~ (inject_Z n / 10)%Q ->
  (- 1000000 <= n <= 1000000)%Z ->
  let back := Page.convertInputs (Page.convertInputs i ip si) si ip in
  in_pressure back =~ (inject_Z m / 1000)%Q /\
  in_relativeHumidity back = in_relativeHumidity i /\
  exists n' : Z, in_dryBulb back =~ (inject_Z n' / 10)%Q /\ (n - 1 <= n' <= n + 1)%Z.
Proof.
  intros HP Hm HD Hn back. subst back.
  unfold Page.convertInputs.
  cbn [Page.UnitSystem_eqb andb in_pressure in_dryBulb in_relativeHumidity].
  assert (Hnq : (- 1000000 <= inject_Z n <= 1000000)%Q).
  { destruct Hn as [H1 H2]. rewrite Zle_Qle in H1, H2. exact (conj H1 H2). }
  assert (Hmq : (0 <= inject_Z m <= 1000000000)%Q).
  { destruct Hm as [H1 H2]. rewrite Zle_Qle in H1, H2. exact (conj H1 H2). }
  assert (Hbig : (inject_Z (10 ^ 21) == 1000000000000000000000)%Q) by reflexivity.
  split; [|split; [reflexivity|]].
  - destruct (Math_round_error (val_mul HP InputFacts.PA_PER_PSI_val)) as (R & HR & HRe).
    pose proof (val_div HR InputFacts.PA_PER_PSI_val ltac:(discriminate)) as Hpsi.
    apply (@parseFloat_toFixed_exact 3 _ _ m Hpsi).
    + apply Qabs_below. rewrite Hbig. qlra.
    + change (inject_Z (10 ^ Z.of_nat 3)) with 1000%Q. qlra.
  - pose proof (val_div (val_mul (val_sub HD (val_ofZ 32)) (val_ofZ 5)) (val_ofZ 9)
                  ltac:(discriminate)) as Hc.
    destruct (parseFloat_toFixed_error 1 Hc) as (C & HC & HCe).
    { apply Qabs_below. rewrite Hbig. qlra. }
    change (inject_Z (10 ^ Z.of_nat 1)) with 10%Q in HC, HCe.
    pose proof (val_add (val_div (val_mul HC (val_ofZ 9)) (val_ofZ 5)
                           ltac:(discriminate)) (val_ofZ 32)) as Hf.
    destruct (parseFloat_toFixed_error 1 Hf) as (n' & HF & HFe).
    { apply Qabs_below. rewrite Hbig. qlra. }
    change (inject_Z (10 ^ Z.of_nat 1)) with 10%Q in HF, HFe.
    exists n'. split; [exact HF|].
    assert (Hlt : (inject_Z n - 2 < inject_Z n' < inject_Z n + 2)%Q).
    { qlra. }
    destruct Hlt as [H1 H2].
    assert (Ha : (n + - 2 < n')%Z).
    { rewrite Zlt_Qlt, inject_Z_plus. change (inject_Z (- 2)) with (- 2)%Q. lra. }
    assert (Hb : (n' < n + 2)%Z).
    { rewrite Zlt_Qlt, inject_Z_plus. change (inject_Z 2) with 2%Q. lra. }
    lia.
Qed.

End UnitFacts.

Module UnitWitness.
Import ValueFacts UnitFacts.

(** The default SI inputs: 26 degrees at 101325 Pa come back as 26 degrees
    at 101325 Pa. *)
Lemma convertInputs_si_ip_si_witness :
  let back := Page.convertInputs (Page.convertInputs (DEFAULT_INPUTS si) si ip) ip si in
  back = DEFAULT_INPUTS si /\
  in_dryBulb back =~ (inject_Z 260 / 10)%Q.
Proof.
  intro back. split; [vm_compute; reflexivity|].
  assert (HD : in_dryBulb (DEFAULT_INPUTS si) =~ (inject_Z 260 / 10)%Q).
  { eexists. split; [reflexivity | reflexivity]. }
  assert (HP : in_pressure (DEFAULT_INPUTS si) =~ 101325%Q) by apply (val_ofZ 101325).
  assert (Hn : (- 1000000 <= 260 <= 1000000)%Z) by lia.
  assert (HPr : (0 <= 101325 <= 1000000000)%Q) by (split; discriminate).
  exact (proj1 (@convertInputs_si_ip_si (DEFAULT_INPUTS si) 260 101325 HD Hn HP HPr)).
Defined.

(** 32.1 degrees Fahrenheit at 14.696 psi: the pressure comes back as it
    was, the dry bulb as 32.2 degrees, by way of 0.1 degrees Celsius. *)
Lemma convertInputs_ip_si_ip_witness :
  let i := mkInputs (dec 14696 1000) (dec 321 10) (ofZ 50) in
  let back := Page.convertInputs (Page.convertInputs i ip si) si ip in
  back = mkInputs (dec 14696 1000) (dec 322 10) (ofZ 50) /\
  in_pressure back =~ (inject_Z 14696 / 1000)%Q.
Proof.
  intros i back. split; [vm_compute; reflexivity|].
  assert (HP : in_pressure i =~ (inject_Z 14696 / 1000)%Q).
  { eexists. split; [reflexivity | reflexivity]. }
  assert (HD : in_dryBulb i =~ (inject_Z 321 / 10)%Q).
  { eexists. split; [reflexivity | reflexivity]. }
  assert (Hm : (0 <= 14696 <= 1000000000)%Z) by lia.
  assert (Hn : (- 1000000 <= 321 <= 1000000)%Z) by lia.
  exact (proj1 (@convertInputs_ip_si_ip i 14696 321 HP Hm HD Hn)).
Defined.

End UnitWitness.

(** ** Saved points and processes *)

Module PointFacts.

(** *** Maps *)

Lemma Map_set_keys {V} (key : string) (value : V) (m : list (string * V)) (k : string) :
  In k (map fst (Map_set key value m)) <-> k = key \/ In k (map fst m).
Proof.
  induction m as [|[k0 v0] rest IH]; simpl.
  - intuition.
  - destruct (String.eqb k0 key) eqn:E; simpl.
    + apply String.eqb_eq in E. subst k0. intuition.
    + rewrite IH. intuition.
Qed.

Lemma Map_new_keys_from {V} (entries : list (string * V)) (m : list (string * V))
    (k : string) :
  In k (map fst (fold_left (fun m entry => Map_set (fst entry) (snd entry) m) entries m))
  <-> In k (map fst entries) \/ In k (map fst m).
Proof.
  revert m. induction entries as [|[k0 v0] rest IH]; intro m; simpl.
  - intuition.
  - rewrite IH, Map_set_keys. simpl. intuition (subst; auto).
Qed.

Lemma Map_get_Some {V} (m : list (string * V)) (k : string) :
  In k (map fst m) -> exists v, Map_get m k = Some v /\ In v (map snd m).
Proof.
  induction m as [|[k0 v0] rest IH]; simpl; [contradiction|].
  intros [->|H].
  - rewrite String.eqb_refl. eauto.
  - destruct (String.eqb k0 k); [eauto|].
    destruct (IH H) as (v & Hv & Hin). eauto.
Qed.

Lemma Map_get_key {V} (key : V -> string) (m : list (string * V)) (k : string) (v : V) :
  Forall (fun entry => key (snd entry) = fst entry) m ->
  Map_get m k = Some v -> key v = k.
Proof.
  induction m as [|[k0 v0] rest IH]; simpl; [discriminate|].
  intros HF. inversion HF as [|? ? H0 HF']; subst. simpl in H0.
  destruct (String.eqb k0 k) eqn:E.
  - intro H. inversion H; subst. apply String.eqb_eq in E. congruence.
  - apply IH. exact HF'.
Qed.

Lemma Map_set_values {V} (P : string * V -> Prop) (key : string) (value : V)
    (m : list (string * V)) :
  (forall k, P (key, value) -> String.eqb k key = true -> P (k, value)) ->
  P (key, value) -> Forall P m -> Forall P (Map_set key value m).
Proof.
  intros Hk Hnew HF. induction HF as [|[k0 v0] rest H0 HF IH]; simpl.
  - constructor; [exact Hnew | constructor].
  - destruct (String.eqb k0 key) eqn:E.
    + constructor; [apply Hk; assumption | exact HF].
    + constructor; [exact H0 | exact IH].
Qed.

Lemma Map_new_values {V} (P : string * V -> Prop) (entries : list (string * V)) :
  (forall k key value, P (key, value) -> String.eqb k key = true -> P (k, value)) ->
  Forall P entries -> Forall P (Map_new entries).
Proof.
  intros Hk HF. unfold Map_new.
  assert (G : forall m, Forall P m ->
                Forall P (fold_left (fun m entry => Map_set (fst entry) (snd entry) m)
                            entries m)).
  { induction HF as [|[k0 v0] rest H0 HF IH]; intros m Hm; simpl; [exact Hm|].
    apply IH. apply Map_set_values; auto. intros k. apply Hk. }
  apply G. constructor.
Qed.

Lemma Map_get_Forall {V} (P : string * V -> Prop) (m : list (string * V))
    (k : string) (v : V) :
  Forall P m -> Map_get m k = Some v -> P (k, v).
Proof.
  induction m as [|[k0 v0] rest IH]; simpl; [discriminate|].
  intros HF Hv. inversion HF as [|? ? H0 HF']; subst.
  destruct (String.eqb k0 k) eqn:E.
  - inversion Hv; subst. apply String.eqb_eq in E. subst. exact H0.
  - apply IH; assumption.
Qed.

(** Looking up the identifier of one of the entries finds an entry with
    that identifier. *)
Lemma Map_get_by_id {V} (key : V -> string) (items : list V) (k : string) :
  In k (map key items) ->
  exists v, Map_get (Map_new (map (fun item => (key item, item)) items)) k = Some v /\
            In v items /\ key v = k.
Proof.
  intro Hin.
  set (entries := map (fun item => (key item, item)) items).
  assert (Hkeys : In k (map fst (Map_new entries))).
  { unfold Map_new. apply Map_new_keys_from. left.
    subst entries. rewrite map_map. simpl. exact Hin. }
  destruct (Map_get_Some _ _ Hkeys) as (v & Hv & _).
  exists v. split; [exact Hv|].
  assert (HP : Forall (fun entry => In (snd entry) items /\ key (snd entry) = fst entry)
                 (Map_new entries)).
  { apply Map_new_values.
    - intros k' k0 value [H1 H2] E. simpl in *. apply String.eqb_eq in E. subst k'.
      split; assumption.
    - subst entries. apply Forall_forall. intros [k0 v0] H0.
      apply in_map_iff in H0. destruct H0 as (item & E & Hitem).
      inversion E; subst. simpl. split; [exact Hitem | reflexivity]. }
  destruct (Map_get_Forall _ HP Hv) as [H1 H2]. simpl in H1, H2.
  split; assumption.
Qed.

(** *** The handlers *)

Lemma filterMap_all {A B} (f : A -> option B) (R : A -> B -> Prop) (items : list A) :
  Forall (fun item => exists b, f item = Some b /\ R item b) items ->
  Forall2 R items (Page.filterMap f items).
Proof.
  intro HF. induction HF as [|item rest (b & Hb & HR) _ IH]; simpl.
  - constructor.
  - unfold Page.filterMap in *. simpl. rewrite Hb. simpl. constructor; assumption.
Qed.

Lemma chartStatePoints_ids (home : Page.Home) :
  map Page.csp_id (Page.chartStatePoints home) = pointIds home.
Proof.
  unfold Page.chartStatePoints, pointIds. rewrite map_map. reflexivity.
Qed.

(** With every process linked, each is drawn. *)
Lemma chartProcesses_all (home : Page.Home) :
  linked home ->
  Forall2 (draws home) (Page.processes home) (Page.chartProcesses home).
Proof.
  intro Hl. unfold Page.chartProcesses. apply filterMap_all.
  eapply Forall_impl; [|exact Hl]. intros process (Hfrom & Hto & _).
  rewrite <- chartStatePoints_ids in Hfrom, Hto.
  destruct (Map_get_by_id Page.csp_id (Page.chartStatePoints home) _ Hfrom)
    as (from & Gf & If & Kf).
  destruct (Map_get_by_id Page.csp_id (Page.chartStatePoints home) _ Hto)
    as (to & Gt & It & Kt).
  rewrite Gf, Gt. eexists. split; [reflexivity|].
  split; [reflexivity|]. split; [reflexivity|].
  exists from, to. repeat split; assumption.
Qed.

Lemma selectable_more (home home' : Page.Home) (id : string) :
  (forall k, In k (pointIds home) -> In k (pointIds home')) ->
  selectable home id -> selectable home' id.
Proof. intros H [->|Hin]; [left; reflexivity | right; apply H; exact Hin]. Qed.

Lemma linked_more (points points' : list Page.SavedPoint)
    (processes : list Page.ProcessLink) u i d d' :
  (forall k, In k (map Page.sp_id points) -> In k (map Page.sp_id points')) ->
  linked (Page.mkHome u i points processes d) ->
  linked (Page.mkHome u i points' processes d').
Proof.
  intros H Hl. unfold linked, pointIds in *. simpl in *.
  eapply Forall_impl; [|exact Hl]. intros process (H1 & H2 & H3).
  repeat split; auto.
Qed.

Lemma removed_ids (id k : string) (points : list Page.SavedPoint) :
  In k (map Page.sp_id points) -> k <> id ->
  In k (map Page.sp_id
          (filter (fun point => negb (String.eqb (Page.sp_id point) id)) points)).
Proof.
  intros Hin Hne. apply in_map_iff in Hin. destruct Hin as (point & <- & Hp).
  apply in_map. apply filter_In. split; [exact Hp|].
  apply negb_true_iff. apply String.eqb_neq. exact Hne.
Qed.

(** Every handler keeps the processes linked and the form selectable. *)
Lemma handlePointEvent_keeps (home : Page.Home) (event : PointEvent) :
  linked home -> draftSelectable home -> offered home event ->
  linked (handlePointEvent home event) /\ draftSelectable (handlePointEvent home event).
Proof.
  intros Hl [Hdf Hdt] Hoff. destruct home as [u i points processes draft].
  destruct event as [psychroState newId|id label|id|change|newId|id]; simpl in *.
  - unfold Page.handleCaptureState. simpl.
    destruct psychroState as [st|]; [|split; [exact Hl | split; assumption]].
    assert (Hmore : forall k, In k (map Page.sp_id points) ->
                      In k (map Page.sp_id (points ++ [
                        {| Page.sp_id := newId;
                           Page.sp_label := Page.generateLabel (List.length points);
                           Page.sp_color :=
                             nth (List.length points mod List.length Page.POINT_COLORS)
                               Page.POINT_COLORS ""%string;
                           Page.sp_dryBulbSI := Page.toCelsius (st_dryBulb st) u;
                           Page.sp_relativeHumidity :=
                             Page.clamp (st_relativeHumidity st) (ofZ 0) (ofZ 100);
                           Page.sp_humidityRatio := st_humidityRatio st;
                           Page.sp_pressureSI := Page.toPressureSI (in_pressure i) u |}]))).
    { intros k Hk. rewrite map_app. apply in_or_app. left. exact Hk. }
    split; [eapply linked_more; [exact Hmore | exact Hl]|].
    split; eapply selectable_more; try eassumption; exact Hmore.
  - unfold Page.handlePointLabelChange. simpl.
    assert (Hsame : map Page.sp_id
                      (map (fun point =>
                              if String.eqb (Page.sp_id point) id
                              then Page.mkSavedPoint (Page.sp_id point) label
                                     (Page.sp_color point) (Page.sp_dryBulbSI point)
                                     (Page.sp_relativeHumidity point)
                                     (Page.sp_humidityRatio point)
                                     (Page.sp_pressureSI point)
                              else point) points)
                    = map Page.sp_id points).
    { rewrite map_map. apply map_ext. intro point.
      destruct (String.eqb (Page.sp_id point) id); reflexivity. }
    unfold linked, draftSelectable, selectable, pointIds in *. simpl in *.
    rewrite Hsame. repeat split; assumption.
  - unfold Page.handleRemovePoint. simpl.
    unfold linked, draftSelectable, selectable, pointIds in *. simpl in *.
    split; [|split].
    + apply Forall_forall. intros process Hp. apply filter_In in Hp.
      destruct Hp as [Hp Hkeep]. apply andb_true_iff in Hkeep.
      destruct Hkeep as [Hf Ht].
      apply negb_true_iff in Hf, Ht. apply String.eqb_neq in Hf, Ht.
      rewrite Forall_forall in Hl. destruct (Hl process Hp) as (H1 & H2 & H3).
      repeat split; try assumption; apply removed_ids; assumption.
    + destruct (String.eqb (Page.draft_fromId draft) id) eqn:E; [left; reflexivity|].
      apply String.eqb_neq in E. destruct Hdf as [H|H]; [left; exact H|].
      right. apply removed_ids; assumption.
    + destruct (String.eqb (Page.draft_toId draft) id) eqn:E; [left; reflexivity|].
      apply String.eqb_neq in E. destruct Hdt as [H|H]; [left; exact H|].
      right. apply removed_ids; assumption.
  - unfold Page.handleProcessDraftChange. simpl.
    split; [exact Hl|]. unfold draftSelectable. simpl.
    destruct change; simpl; split; assumption.
  - unfold Page.handleAddProcess. simpl.
    destruct (negb (Page.truthy (Page.draft_fromId draft))
              || negb (Page.truthy (Page.draft_toId draft))
              || String.eqb (Page.draft_fromId draft) (Page.draft_toId draft)) eqn:G.
    + split; [exact Hl | split; assumption].
    + apply orb_false_iff in G. destruct G as [G Hne].
      apply orb_false_iff in G. destruct G as [Gf Gt].
      apply negb_false_iff in Gf, Gt. unfold Page.truthy in Gf, Gt.
      apply negb_true_iff in Gf, Gt. apply String.eqb_neq in Gf, Gt, Hne.
      unfold linked, draftSelectable, selectable, pointIds in *. simpl in *.
      split; [|split; [assumption | left; reflexivity]].
      apply Forall_app. split; [exact Hl|].
      constructor; [|constructor]. simpl.
      destruct Hdf as [H|H]; [contradiction|].
      destruct Hdt as [H'|H']; [contradiction|].
      repeat split; assumption.
  - unfold Page.handleRemoveProcess. simpl.
    unfold linked, draftSelectable, selectable, pointIds in *. simpl in *.
    split; [|split; assumption].
    apply Forall_forall. intros process Hp. apply filter_In in Hp.
    rewrite Forall_forall in Hl. apply Hl. apply Hp.
Qed.

Lemma reaches_fold (events : list PointEvent) (home : Page.Home) :
  offeredAlong home events ->
  reaches home events (fold_left handlePointEvent events home).
Proof.
  revert home. induction events as [|event events IH]; intros home H; simpl.
  - apply reaches_nil.
  - destruct H as [H1 H2]. apply reaches_cons; [exact H1 | apply IH; exact H2].
Qed.

(** X14.  Processes never dangle.  In every state the page reaches from
    its initial state by capturing, renaming and removing points, changing
    the process form through its selects, and adding and removing
    processes, each process joins two different saved points, the process
    form holds identifiers of saved points or none, and every process is
    drawn: the chart processes answer the processes one to one and in
    order, each a segment between the chart points of its two ends.  (The
    identifiers drawn by [createId] need not even be distinct.) *)
Theorem processes_stay_linked (events : list PointEvent) (home : Page.Home) :
  reaches Page.initialHome events home ->
  linked home /\ draftSelectable home /\
  Forall2 (draws home) (Page.processes home) (Page.chartProcesses home).
Proof.
  intro Hreach.
  assert (Hinv : linked home /\ draftSelectable home).
  { assert (H0 : linked Page.initialHome /\ draftSelectable Page.initialHome).
    { split; [constructor | split; left; reflexivity]. }
    induction Hreach as [start|start event events home' Hoff _ IH].
    - exact H0.
    - apply IH. destruct H0 as [Hl Hd]. apply handlePointEvent_keeps; assumption. }
  destruct Hinv as [Hl Hd]. split; [exact Hl|]. split; [exact Hd|].
  apply chartProcesses_all. exact Hl.
Qed.

(** *** Labels *)

Lemma generateLabel_letter (count : nat) :
  (count < 26)%nat -> String.length (Page.generateLabel count) = 1%nat /\
                      exists c, Page.generateLabel count = String c EmptyString /\
                                nat_of_ascii c = (65 + count)%nat.
Proof.
  intro H.
  do 26 (destruct count as [|count];
         [split; [reflexivity | eexists; split; reflexivity]|]).
  lia.
Qed.

Lemma generateLabel_number (count : nat) :
  (26 <= count)%nat ->
  Page.generateLabel count
  = ("P" ++ NilEmpty.string_of_uint (Nat.to_uint (count - 26 + 1)))%string.
Proof.
  intro H. unfold Page.generateLabel.
  change (String.length "ABCDEFGHIJKLMNOPQRSTUVWXYZ") with 26%nat.
  assert (E : (count <? 26)%nat = false) by (apply Nat.ltb_ge; exact H).
  rewrite E. reflexivity.
Qed.

Lemma number_not_empty (k : nat) :
  (1 <= k)%nat -> NilEmpty.string_of_uint (Nat.to_uint k) <> ""%string.
Proof.
  intros Hk E. pose proof (Unsigned.of_to k) as H2.
  destruct (Nat.to_uint k); simpl in E; try discriminate. cbv in H2. lia.
Qed.

Lemma number_inj (k k' : nat) :
  NilEmpty.string_of_uint (Nat.to_uint k) = NilEmpty.string_of_uint (Nat.to_uint k') ->
  k = k'.
Proof.
  intro E. apply Unsigned.to_uint_inj.
  pose proof (NilEmpty.usu (Nat.to_uint k)) as H.
  rewrite E, NilEmpty.usu in H. inversion H. reflexivity.
Qed.

(** X15.  [generateLabel] never gives two counts the same label: the
    letters A to Z for the first 26, then P1, P2 and so on, which no
    letter equals.  So the points captured while none is removed carry
    pairwise different labels. *)
Theorem generateLabel_injective (count count' : nat) :
  Page.generateLabel count = Page.generateLabel count' -> count = count'.
Proof.
  intro E.
  destruct (Nat.lt_ge_cases count 26) as [H|H];
    destruct (Nat.lt_ge_cases count' 26) as [H'|H'].
  - destruct (generateLabel_letter H) as (_ & c & Ec & Hc).
    destruct (generateLabel_letter H') as (_ & c' & Ec' & Hc').
    rewrite Ec, Ec' in E. inversion E; subst. lia.
  - exfalso. destruct (generateLabel_letter H) as (_ & c & Ec & _).
    rewrite Ec, (generateLabel_number H') in E. simpl in E. injection E as _ E'.
    symmetry in E'. revert E'. apply number_not_empty. lia.
  - exfalso. destruct (generateLabel_letter H') as (_ & c & Ec & _).
    rewrite Ec, (generateLabel_number H) in E. simpl in E. injection E as _ E'.
    revert E'. apply number_not_empty. lia.
  - rewrite (generateLabel_number H), (generateLabel_number H') in E.
    simpl in E. injection E as E'. apply number_inj in E'. lia.
Qed.

(** The labels of the points 15, 26 and 27: P, P1 and P2. *)
Lemma generateLabel_injective_witness :
  map Page.generateLabel [15; 26; 27]%nat = ["P"; "P1"; "P2"]%string /\
  (Page.generateLabel 15 = Page.generateLabel 26 -> 15 = 26)%nat.
Proof.
  split; [reflexivity|]. exact (@generateLabel_injective 15 26).
Defined.

End PointFacts.

Module PointWitness.
Import PointFacts.

(** Two points are captured, joined by a heating process, and the second
    is renamed: the process is drawn from the first to the second. *)
Lemma processes_stay_linked_witness :
  let state := mkState (ofZ 26) (ofZ 1) (ofZ 1) (ofZ 50) (dec 1 100)
                 (ofZ 1) (ofZ 1) (ofZ 1) (ofZ 1) (ofZ 1) in
  let events := [CaptureState (Some state) "k3x9"; CaptureState (Some state) "q7fm";
                 ProcessDraftChange (Page.SetFromId "k3x9");
                 ProcessDraftChange (Page.SetToId "q7fm");
                 AddProcess "w2ab"; PointLabelChange "q7fm" "Supply"]%string in
  let home := fold_left handlePointEvent events Page.initialHome in
  map Page.sp_label (Page.savedPoints home) = ["A"; "Supply"]%string /\
  map Page.cp_label (Page.chartProcesses home) = ["A → Supply"]%string /\
  linked home /\
  Forall2 (draws home) (Page.processes home) (Page.chartProcesses home).
Proof.
  intros state events home.
  split; [reflexivity|]. split; [reflexivity|].
  assert (Hreach : reaches Page.initialHome events home).
  { apply reaches_fold. unfold events, offeredAlong, offered, selectable, pointIds.
    simpl. auto 10. }
  destruct (@processes_stay_linked events home Hreach) as (Hl & _ & Hd).
  split; assumption.
Defined.

End PointWitness.
